(** * curtin/reporter/events.py: the event reporting framework

    A shallow embedding of [curtin/reporter/events.py] and the properties
    its specification states about it.

    Python objects that are shared and mutated (the [ReportEventStack]
    instances, whose [children] dict is written by their children) live in
    an explicit heap; the handler registry, the trace of [publish_event]
    calls, the clock and the default timestamp captured when the module
    was imported are the remaining components of the world.  Code that can
    raise is written in a state-and-exception monad. *)

From Stdlib Require Import ZArith NArith String List Ascii Strings.Byte Lia.
From Stdlib Require Import DecimalString.
From stdpp Require Import base decidable option list strings gmap.

Set Warnings "-register-all".

Open Scope string_scope.
Open Scope Z_scope.

(** ** Python values *)

(** The scalar (hashable) values a caller may pass where the code expects
    a status, a description or an exit code. *)
Inductive PyVal : Type :=
  | VNone
  | VInt (z : Z)
  | VStr (s : string).

#[global] Instance PyVal_eq_dec : EqDecision PyVal.
Proof. solve_decision. Defined.

(** Python's [==] on these values. *)
Definition py_eq (a b : PyVal) : bool := bool_decide (a = b).

(** [x is not None] *)
Definition is_not_None (v : PyVal) : bool :=
  match v with VNone => false | _ => true end.

(** Truth value of an object ([if x:]). *)
Definition truthy (v : PyVal) : bool :=
  match v with
  | VNone => false
  | VInt z => negb (z =? 0)
  | VStr s => negb (bool_decide (s = ""))
  end.

(** ** Module constants *)

Definition FINISH_EVENT_TYPE : string := "finish".
Definition START_EVENT_TYPE : string := "start".
Definition RESULT_EVENT_TYPE : string := "result".

Definition DEFAULT_EVENT_ORIGIN : string := "curtin".

(** ** Exceptions *)

(** [ValueError fmt arg] stands for [ValueError(fmt % arg)]. *)
Inductive Exn : Type :=
  | SystemExit (code : PyVal)
  | ValueError (fmt : string) (arg : PyVal)
  | AttributeError (fmt : string) (arg : string)
  | Exception (what : string).

#[global] Instance Exn_eq_dec : EqDecision Exn.
Proof. solve_decision. Defined.

Inductive outcome (A : Type) : Type :=
  | Ret (a : A)
  | Raise (e : Exn)
  | Stuck.
Arguments Ret {A} a.
Arguments Raise {A} e.
Arguments Stuck {A}.

(** ** [_nameset] and [status] *)

Module _nameset.

Definition t := gset string.

  (** [name in self] for a value of any scalar type: only a string can be
      equal to a member. *)
Definition contains (self : t) (v : PyVal) : bool :=
    match v with
    | VStr s => bool_decide (s ∈ self)
    | _ => false
    end.

Definition __getattr__ (self : t) (name : string) : outcome PyVal :=
    if contains self (VStr name) then Ret (VStr name)
    else Raise (AttributeError "%s not a valid value" name).


End _nameset.

Definition status : _nameset.t := {[ "SUCCESS"; "WARN"; "FAIL" ]}.

(** [status.SUCCESS], [status.WARN], [status.FAIL] *)
Definition SUCCESS : PyVal := VStr "SUCCESS".
Definition WARN : PyVal := VStr "WARN".
Definition FAIL : PyVal := VStr "FAIL".

(** ** Events *)

(** The attributes of a [ReportingEvent] instance, and those a
    [FinishReportingEvent] instance adds. *)

Module EventObj.

Record t : Type := mk {
    event_type : string;
    name : string;
    description : PyVal;
    origin : string;
    timestamp : Z
  }.

End EventObj.

Module FinishObj.

Record t : Type := mk {
    super : EventObj.t;
    result : PyVal;
    post_files : list string
  }.

End FinishObj.

(** What a handler receives: an instance of the base class or of its
    subclass. *)
Inductive Event : Type :=
  | Reporting (e : EventObj.t)
  | Finish (e : FinishObj.t).

(** ** Handlers and the registry *)

(** A registered handler.  [publish_event] performs I/O of its own and
    either returns or raises; the world keeps the trace of the calls. *)
Record Handler : Type := {
  publish_event : Event -> option Exn
}.

(** ** [ReportEventStack] instances *)

Definition loc : Type := nat.

(** The attributes of a [ReportEventStack] instance.  [_result] and
    [_message] are the slots behind the two properties; [children] is a
    dict, kept in insertion order. *)
Module Stack.

Record t : Type := mk {
    parent : option loc;
    name : string;
    description : PyVal;
    _message : PyVal;
    result_on_exception : PyVal;
    _result : PyVal;
    post_files : list string;
    reporting_enabled : bool;
    fullname : string;
    children : list (string * (PyVal * PyVal))
  }.

Definition set_description (v : PyVal) (s : t) : t :=
    mk (parent s) (name s) v (_message s) (result_on_exception s)
       (_result s) (post_files s) (reporting_enabled s) (fullname s)
       (children s).

Definition set__message (v : PyVal) (s : t) : t :=
    mk (parent s) (name s) (description s) v (result_on_exception s)
       (_result s) (post_files s) (reporting_enabled s) (fullname s)
       (children s).

Definition set__result (v : PyVal) (s : t) : t :=
    mk (parent s) (name s) (description s) (_message s)
       (result_on_exception s) v (post_files s) (reporting_enabled s)
       (fullname s) (children s).

Definition set_children (c : list (string * (PyVal * PyVal))) (s : t) : t :=
    mk (parent s) (name s) (description s) (_message s)
       (result_on_exception s) (_result s) (post_files s)
       (reporting_enabled s) (fullname s) c.

End Stack.

(** [d[k] = v] on a dict kept in insertion order: an existing key keeps
    its place, a new key goes last. *)
Fixpoint dict_set {V : Type} (k : string) (v : V) (d : list (string * V))
  : list (string * V) :=
  match d with
  | [] => [(k, v)]
  | (k', v') :: d' =>
      if decide (k' = k) then (k, v) :: d' else (k', v') :: dict_set k v d'
  end.

Fixpoint dict_get {V : Type} (k : string) (d : list (string * V)) : option V :=
  match d with
  | [] => None
  | (k', v') :: d' => if decide (k' = k) then Some v' else dict_get k d'
  end.

(** ** The world *)

Record World : Type := mkWorld {
  (** what [time.time()] returns now *)
  clock : Z;
  (** the default of [ReportingEvent.__init__]'s [timestamp] parameter,
      the value of [time.time()] when the [def] statement was executed *)
  default_timestamp : Z;
  (** [instantiated_handler_registry.registered_items.items()] *)
  registered_items : list (string * Handler);
  (** the calls of [publish_event] made so far: handler key and event *)
  published : list (string * Event);
  heap : list Stack.t
}.

Definition set_clock (t : Z) (w : World) : World :=
  mkWorld t (default_timestamp w) (registered_items w) (published w) (heap w).

Definition set_default_timestamp (t : Z) (w : World) : World :=
  mkWorld (clock w) t (registered_items w) (published w) (heap w).

Definition set_registered_items (r : list (string * Handler)) (w : World)
  : World :=
  mkWorld (clock w) (default_timestamp w) r (published w) (heap w).

Definition set_published (p : list (string * Event)) (w : World) : World :=
  mkWorld (clock w) (default_timestamp w) (registered_items w) p (heap w).

Definition set_heap (h : list Stack.t) (w : World) : World :=
  mkWorld (clock w) (default_timestamp w) (registered_items w) (published w) h.

(** ** The monad of Python code: state and exceptions *)

Definition M (A : Type) : Type := World -> outcome A * World.

Definition ret {A : Type} (a : A) : M A := fun w => (Ret a, w).

Definition bind {A B : Type} (m : M A) (k : A -> M B) : M B :=
  fun w =>
    match m w with
    | (Ret a, w') => k a w'
    | (Raise e, w') => (Raise e, w')
    | (Stuck, w') => (Stuck, w')
    end.

Definition raise {A : Type} (e : Exn) : M A := fun w => (Raise e, w).

Definition stuck {A : Type} : M A := fun w => (Stuck, w).

Definition gets {A : Type} (f : World -> A) : M A := fun w => (Ret (f w), w).

Definition modify (f : World -> World) : M unit := fun w => (Ret tt, f w).

(** Lift a computation that cannot touch the world. *)
Definition of_outcome {A : Type} (o : outcome A) : M A := fun w => (o, w).

#[global] Instance M_ret : MRet M := @ret.
#[global] Instance M_bind : MBind M := fun A B k m => bind m k.

(** [for x in xs: body(x)] *)
Fixpoint for_ {A : Type} (xs : list A) (body : A -> M unit) : M unit :=
  match xs with
  | [] => ret tt
  | x :: xs' => body x ;; for_ xs' body
  end.

(** Dereference an object; a dangling reference cannot occur in Python
    and is where the model gets stuck. *)
Definition deref (l : loc) : M Stack.t :=
  fun w =>
    match heap w !! l with
    | Some s => (Ret s, w)
    | None => (Stuck, w)
    end.

(** Update an object in place. *)
Definition update (l : loc) (f : Stack.t -> Stack.t) : M unit :=
  s ← deref l;
  modify (fun w => set_heap (<[l := f s]> (heap w)) w).

(** [time.time()] *)
Definition time_time : M Z := gets clock.

(** Time passing between two statements. *)
Definition sleep (d : Z) : M unit := modify (fun w => set_clock (clock w + d) w).

(** Executing the module body ([import curtin.reporter.events]): the
    [def] of [ReportingEvent.__init__] evaluates its default argument
    [time.time()] once, here. *)
Definition import_events : M unit :=
  t ← time_time;
  modify (set_default_timestamp t).

(** [handler.publish_event(event)] for the handler registered as [key] *)
Definition call_publish_event (key : string) (handler : Handler)
    (event : Event) : M unit :=
  modify (fun w => set_published (published w ++ [(key, event)]) w);;
  match publish_event handler event with
  | None => ret tt
  | Some e => raise e
  end.

(** [try: m  except BaseException as e: ...]: run [m] and hand its
    exception, if it raised one, to the continuation. *)
Definition catch {A : Type} (m : M A) : M (A + Exn) :=
  fun w =>
    match m w with
    | (Ret a, w') => (Ret (inl a), w')
    | (Raise e, w') => (Ret (inr e), w')
    | (Stuck, w') => (Stuck, w')
    end.

(** ** Serialisation *)

(** JSON-friendly values, as [as_dict] builds them. *)
Inductive JVal : Type :=
  | JNull
  | JNum (z : Z)
  | JStr (s : string)
  | JList (l : list JVal)
  | JDict (d : list (string * JVal)).

Definition to_json (v : PyVal) : JVal :=
  match v with
  | VNone => JNull
  | VInt z => JNum z
  | VStr s => JStr s
  end.

(** [str(v)], which is how [str.format] renders a field. *)
Definition py_str (v : PyVal) : string :=
  match v with
  | VNone => "None"
  | VInt z => NilZero.string_of_int (Z.to_int z)
  | VStr s => s
  end.

(** The file system as [os.path.isfile] and [open(fname, "rb").read()]
    see it: the contents of every path that is a regular file. *)
Definition FileSystem : Type := string -> option (list byte).

(** [base64.b64encode(data).decode()] of the standard library: RFC 4648,
    the standard alphabet, padded with [=]. *)
Definition b64_alphabet : string :=
  "ABCDEFGHIJKLMNOPQRSTUVWXYZabcdefghijklmnopqrstuvwxyz0123456789+/".

Definition b64_char (i : N) : ascii :=
  match String.get (N.to_nat i) b64_alphabet with
  | Some c => c
  | None => "="%char
  end.

Definition b64_pad : ascii := "="%char.

Fixpoint b64encode (data : list byte) : string :=
  match data with
  | [] => ""
  | [a] =>
      let n := (Byte.to_N a * 65536)%N in
      String (b64_char (n / 262144)) (String (b64_char (n / 4096 mod 64))
        (String b64_pad (String b64_pad "")))
  | [a; b] =>
      let n := (Byte.to_N a * 65536 + Byte.to_N b * 256)%N in
      String (b64_char (n / 262144)) (String (b64_char (n / 4096 mod 64))
        (String (b64_char (n / 64 mod 64)) (String b64_pad "")))
  | a :: b :: c :: rest =>
      let n := (Byte.to_N a * 65536 + Byte.to_N b * 256 + Byte.to_N c)%N in
      String (b64_char (n / 262144)) (String (b64_char (n / 4096 mod 64))
        (String (b64_char (n / 64 mod 64)) (String (b64_char (n mod 64))
          (b64encode rest))))
  end.

(** The position of a character in the alphabet. *)
Fixpoint b64_find (c : ascii) (alphabet : string) (i : N) : option N :=
  match alphabet with
  | EmptyString => None
  | String c' rest => if Ascii.eqb c c' then Some i else b64_find c rest (i + 1)%N
  end.

Definition b64_index (c : ascii) : option N := b64_find c b64_alphabet 0%N.

(** The bytes of a group of four sextets; [k] is the number of bytes the
    group stands for. *)
Definition b64_group (i0 i1 i2 i3 : N) (k : nat) : option (list byte) :=
  let n := (i0 * 262144 + i1 * 4096 + i2 * 64 + i3)%N in
  b0 ← Byte.of_N (n / 65536);
  b1 ← Byte.of_N (n / 256 mod 256);
  b2 ← Byte.of_N (n mod 256);
  Some (take k [b0; b1; b2]).

(** [base64.b64decode] of the standard library on padded text, used to
    state that [b64encode] loses nothing. *)
Fixpoint b64decode (text : string) : option (list byte) :=
  match text with
  | EmptyString => Some []
  | String c0 (String c1 (String c2 (String c3 rest))) =>
      i0 ← b64_index c0;
      i1 ← b64_index c1;
      if Ascii.eqb c3 b64_pad then
        match rest with
        | EmptyString =>
            if Ascii.eqb c2 b64_pad then b64_group i0 i1 0 0 1
            else i2 ← b64_index c2; b64_group i0 i1 i2 0 2
        | _ => None
        end
      else
        i2 ← b64_index c2;
        i3 ← b64_index c3;
        group ← b64_group i0 i1 i2 i3 3;
        tail ← b64decode rest;
        Some (group ++ tail)%list
  | _ => None
  end.

(** One pass of the loop body of [_collect_file_info]. *)
Definition file_info (fs : FileSystem) (fname : string) : JVal :=
  let content :=
    match fs fname with
    | None => JNull
    | Some data => JStr (b64encode data)
    end in
  JDict [("path", JStr fname); ("content", content);
         ("encoding", JStr "base64")].

Definition _collect_file_info (fs : FileSystem) (files : list string) : JVal :=
  match files with
  | [] => JNull
  | _ =>
      JList (fold_left (fun ret fname => (ret ++ [file_info fs fname])%list)
               files [])
  end.

(** ** Event classes *)

Module ReportingEvent.

(** [ReportingEvent.__init__]; [None] for [origin] or [timestamp] is an
    omitted argument, which takes the default stored with the function. *)
Definition __init__ (event_type name : string) (description : PyVal)
    (origin : option string) (timestamp : option Z) : M EventObj.t :=
  dflt ← gets default_timestamp;
  ret (EventObj.mk event_type name description
         (default DEFAULT_EVENT_ORIGIN origin) (default dflt timestamp)).

(** ['{0}: {1}: {2}'.format(...)] *)
Definition as_string (self : EventObj.t) : string :=
  EventObj.event_type self ++ ": " ++ EventObj.name self ++ ": "
  ++ py_str (EventObj.description self).

Definition as_dict (self : EventObj.t) : list (string * JVal) :=
  [("name", JStr (EventObj.name self));
   ("description", to_json (EventObj.description self));
   ("event_type", JStr (EventObj.event_type self));
   ("origin", JStr (EventObj.origin self));
   ("timestamp", JNum (EventObj.timestamp self))].

End ReportingEvent.

Module FinishReportingEvent.

(** [FinishReportingEvent.__init__]; [post_files = None] is Python's
    [None], the default. *)
Definition __init__ (name : string) (description : PyVal) (result : PyVal)
    (post_files : option (list string)) : M FinishObj.t :=
  super ← ReportingEvent.__init__ FINISH_EVENT_TYPE name description None None;
  let post_files := match post_files with None => [] | Some fs => fs end in
  let self := FinishObj.mk super result post_files in
  if negb (_nameset.contains status result)
  then raise (ValueError "Invalid result: %s" result)
  else ret self.

(** ['{0}: {1}: {2}: {3}'.format(...)] *)
Definition as_string (self : FinishObj.t) : string :=
  EventObj.event_type (FinishObj.super self) ++ ": "
  ++ EventObj.name (FinishObj.super self) ++ ": "
  ++ py_str (FinishObj.result self) ++ ": "
  ++ py_str (EventObj.description (FinishObj.super self)).

(** [as_dict] reads the files when it is called. *)
Definition as_dict (fs : FileSystem) (self : FinishObj.t)
  : list (string * JVal) :=
  let data := ReportingEvent.as_dict (FinishObj.super self) in
  let data := dict_set "result" (to_json (FinishObj.result self)) data in
  match FinishObj.post_files self with
  | [] => data
  | _ :: _ =>
      dict_set "files" (_collect_file_info fs (FinishObj.post_files self)) data
  end.

End FinishReportingEvent.

(** ** Dispatch *)

Definition report_event (event : Event) : M unit :=
  items ← gets registered_items;
  for_ items (fun '(key, handler) => call_publish_event key handler event).

Definition report_finish_event (event_name : string)
    (event_description : PyVal) (result : PyVal)
    (post_files : option (list string)) : M unit :=
  event ← FinishReportingEvent.__init__ event_name event_description result
            post_files;
  report_event (Finish event).

Definition report_start_event (event_name : string)
    (event_description : PyVal) : M unit :=
  event ← ReportingEvent.__init__ START_EVENT_TYPE event_name
            event_description None None;
  report_event (Reporting event).

(** ** [ReportEventStack] *)

Module ReportEventStack.

(** The [result] property. *)
Definition result (self : Stack.t) : PyVal := Stack._result self.

(** The [result] setter, up to the store: the value to store, or the
    error. *)
Definition result_check (value : PyVal) : outcome PyVal :=
  if negb (_nameset.contains status value)
  then Raise (ValueError "'%s' not a valid result" value)
  else Ret value.

(** [self.result = value] *)
Definition set_result (self : loc) (value : PyVal) : M unit :=
  v ← of_outcome (result_check value);
  update self (Stack.set__result v).

(** The [message] property. *)
Definition message (self : Stack.t) : PyVal :=
  if is_not_None (Stack._message self) then Stack._message self
  else Stack.description self.

(** [self.message = value] *)
Definition set_message (self : loc) (value : PyVal) : M unit :=
  update self (Stack.set__message value).

(** [self.description = value], a plain attribute. *)
Definition set_description (self : loc) (value : PyVal) : M unit :=
  update self (Stack.set_description value).

(** [ReportEventStack(name, description, message, parent,
    reporting_enabled, result_on_exception, post_files)]: allocates the
    instance and runs [__init__] on it.  [None] for [reporting_enabled]
    and [post_files] is Python's [None]. *)
Definition __init__ (name : string) (description : PyVal) (message : PyVal)
    (parent : option loc) (reporting_enabled : option bool)
    (result_on_exception : PyVal) (post_files : option (list string))
  : M loc :=
  _result ← of_outcome (result_check SUCCESS);
  let post_files := match post_files with None => [] | Some fs => fs end in
  reporting_enabled ←
    match reporting_enabled with
    | None =>
        match parent with
        | Some p => ps ← deref p; ret (Stack.reporting_enabled ps)
        | None => ret true
        end
    | Some b => ret b
    end;
  fullname ←
    match parent with
    | Some p => ps ← deref p; ret (String.concat "/" [Stack.fullname ps; name])
    | None => ret name
    end;
  self ← gets (fun w => length (heap w));
  modify (fun w =>
    set_heap (heap w ++
      [Stack.mk parent name description message result_on_exception _result
         post_files reporting_enabled fullname []]) w);;
  ret self.

(** [self.parent.children[self.name] = entry], when there is a parent *)
Definition record_in_parent (self : loc) (entry : PyVal * PyVal) : M unit :=
  s ← deref self;
  match Stack.parent s with
  | Some p =>
      update p (fun ps =>
        Stack.set_children (dict_set (Stack.name s) entry (Stack.children ps)) ps)
  | None => ret tt
  end.

Definition __enter__ (self : loc) : M loc :=
  set_result self SUCCESS;;
  s ← deref self;
  (if Stack.reporting_enabled s
   then report_start_event (Stack.fullname s) (Stack.description s)
   else ret tt);;
  record_in_parent self (VNone, VNone);;
  ret self.

(** The inner loop of [_childrens_finish_info]: the first child value
    equal to [cand_result]. *)
Fixpoint scan_children (cand_result : PyVal)
    (items : list (string * (PyVal * PyVal))) : option PyVal :=
  match items with
  | [] => None
  | (_, (value, _)) :: rest =>
      if py_eq value cand_result then Some value
      else scan_children cand_result rest
  end.

(** The outer loop, over the candidate results in order. *)
Fixpoint scan_candidates (cands : list PyVal)
    (items : list (string * (PyVal * PyVal))) : option PyVal :=
  match cands with
  | [] => None
  | cand_result :: cands' =>
      match scan_children cand_result items with
      | Some value => Some value
      | None => scan_candidates cands' items
      end
  end.

Definition _childrens_finish_info (self : Stack.t) : PyVal * PyVal :=
  match scan_candidates [FAIL; WARN] (Stack.children self) with
  | Some value => (value, message self)
  | None => (result self, message self)
  end.

(** [isinstance(exc, SystemExit) and exc.code == 0] *)
Definition is_clean_exit (exc : Exn) : bool :=
  match exc with
  | SystemExit code => py_eq code (VInt 0)
  | _ => false
  end.

(** [exc_value] is [None] when the body did not raise; an exception
    instance is a true value. *)
Definition _finish_info (self : Stack.t) (exc : option Exn) : PyVal * PyVal :=
  match exc with
  | Some e =>
      if negb (is_clean_exit e)
      then (Stack.result_on_exception self, message self)
      else _childrens_finish_info self
  | None => _childrens_finish_info self
  end.

(** [__exit__] has no [return] statement: it returns [None]. *)
Definition __exit__ (self : loc) (exc_value : option Exn) : M PyVal :=
  s ← deref self;
  let '(result, msg) := _finish_info s exc_value in
  record_in_parent self (result, msg);;
  s ← deref self;
  (if Stack.reporting_enabled s
   then report_finish_event (Stack.fullname s) msg result
          (Some (Stack.post_files s))
   else ret tt);;
  ret VNone.

(** [with self: body]: the body's exception is swallowed only when
    [__exit__] returns a true value. *)
Definition with_ (self : loc) (body : M unit) : M unit :=
  __enter__ self;;
  r ← catch body;
  match r with
  | inl _ => __exit__ self None;; ret tt
  | inr e =>
      suppress ← __exit__ self (Some e);
      if truthy suppress then ret tt else raise e
  end.

End ReportEventStack.

(** ** The registry *)

(** Modelled from the spec: the handler registry
    ([instantiated_handler_registry], defined in the package's
    [__init__.py] and [registry.py]) is "a process-wide named collection,
    keyed by handler name", whose "iteration order = registration
    order".  Registering under a new key puts the handler last. *)
Definition register_item (key : string) (handler : Handler) : M unit :=
  modify (fun w => set_registered_items (dict_set key handler (registered_items w)) w).

(** ** Notions used in the statements *)

(** A child entry with result [v] is recorded in a [children] dict. *)
Definition records (v : PyVal) (kids : list (string * (PyVal * PyVal))) : Prop :=
  ∃ name msg, (name, (v, msg)) ∈ kids.

(** No handler of [items] raises on [event]. *)
Definition quiet (event : Event) (items : list (string * Handler)) : Prop :=
  Forall (fun kh => publish_event kh.2 event = None) items.

(** One [publish_event] call per handler of [items], in order. *)
Definition calls (event : Event) (items : list (string * Handler))
  : list (string * Event) :=
  map (fun kh => (kh.1, event)) items.

(** Parents are allocated before their children: what the constructor
    guarantees, since it needs the parent object to build the child. *)
Definition wf_heap (h : list Stack.t) : Prop :=
  ∀ l s p, h !! l = Some s → Stack.parent s = Some p → (p < l)%nat.

(** The parent object [ps] after its child [s] wrote [entry] under its
    name into the parent's [children]. *)
Definition with_entry (s : Stack.t) (entry : PyVal * PyVal) (ps : Stack.t)
  : Stack.t :=
  Stack.set_children (dict_set (Stack.name s) entry (Stack.children ps)) ps.

(** The world after the stack [s] recorded [entry] in its parent, if it
    has one. *)
Definition parent_recorded (s : Stack.t) (entry : PyVal * PyVal) (w : World)
  : World :=
  match Stack.parent s with
  | Some p =>
      match heap w !! p with
      | Some ps => set_heap (<[p := with_entry s entry ps]> (heap w)) w
      | None => w
      end
  | None => w
  end.

(** The start event of the stack [s], built in the world [w]. *)
Definition start_event_of (s : Stack.t) (w : World) : Event :=
  Reporting (EventObj.mk START_EVENT_TYPE (Stack.fullname s)
               (Stack.description s) DEFAULT_EVENT_ORIGIN (default_timestamp w)).

(** The finish event of the stack [s] for the outcome [(result, msg)],
    built in the world [w]. *)
Definition finish_event_of (s : Stack.t) (entry : PyVal * PyVal) (w : World)
  : Event :=
  Finish (FinishObj.mk
            (EventObj.mk FINISH_EVENT_TYPE (Stack.fullname s) entry.2
               DEFAULT_EVENT_ORIGIN (default_timestamp w))
            entry.1 (Stack.post_files s)).

(** The instance that [ReportEventStack(...)] builds, given the parent
    object if there is one. *)
Definition fresh_stack (name : string) (description message : PyVal)
    (parent : option loc) (parent_obj : option Stack.t)
    (reporting_enabled : option bool) (result_on_exception : PyVal)
    (post_files : option (list string)) : Stack.t :=
  Stack.mk parent name description message result_on_exception SUCCESS
    (default [] post_files)
    (match reporting_enabled, parent_obj with
     | Some b, _ => b
     | None, Some ps => Stack.reporting_enabled ps
     | None, None => true
     end)
    (match parent_obj with
     | Some ps => Stack.fullname ps ++ "/" ++ name
     | None => name
     end)
    [].

(** [self.message], read from the heap. *)
Definition get_message (self : loc) : M PyVal :=
  s ← deref self; ret (ReportEventStack.message s).

(** [self.description = d1; ...; self.description = dn] *)
Definition set_descriptions (self : loc) (ds : list PyVal) : M unit :=
  for_ ds (ReportEventStack.set_description self).

(** ** Clients of the stacks *)

(** A call that client code can make on [ReportEventStack]. *)
Inductive Call : Type :=
  | CallInit (name : string) (description message : PyVal)
      (parent : option loc) (reporting_enabled : option bool)
      (result_on_exception : PyVal) (post_files : option (list string))
  | CallSetResult (self : loc) (value : PyVal)
  | CallSetMessage (self : loc) (value : PyVal)
  | CallSetDescription (self : loc) (value : PyVal)
  | CallEnter (self : loc)
  | CallExit (self : loc) (exc_value : option Exn).

Definition run_call (c : Call) : M unit :=
  match c with
  | CallInit name description message parent reporting_enabled
      result_on_exception post_files =>
      ReportEventStack.__init__ name description message parent
        reporting_enabled result_on_exception post_files ;; ret tt
  | CallSetResult self value => ReportEventStack.set_result self value
  | CallSetMessage self value => ReportEventStack.set_message self value
  | CallSetDescription self value => ReportEventStack.set_description self value
  | CallEnter self => ReportEventStack.__enter__ self ;; ret tt
  | CallExit self exc_value => ReportEventStack.__exit__ self exc_value ;; ret tt
  end.

(** A client that makes the calls one after the other and carries on
    when one of them raises. *)
Fixpoint run_calls (cs : list Call) (w : World) : World :=
  match cs with
  | [] => w
  | c :: cs' => run_calls cs' (run_call c w).2
  end.

(** Every stack of the heap holds a status in [result]. *)
Definition results_valid (h : list Stack.t) : Prop :=
  ∀ l s, h !! l = Some s → _nameset.contains status (Stack._result s) = true.

(** The keys of every [children] dict are distinct, as in any dict. *)
Definition children_keys_distinct (h : list Stack.t) : Prop :=
  ∀ l s, h !! l = Some s → NoDup (map fst (Stack.children s)).

(** The attributes that only the constructor assigns. *)
Definition same_identity (s s' : Stack.t) : Prop :=
  Stack.parent s' = Stack.parent s ∧ Stack.name s' = Stack.name s ∧
  Stack.fullname s' = Stack.fullname s ∧
  Stack.reporting_enabled s' = Stack.reporting_enabled s ∧
  Stack.result_on_exception s' = Stack.result_on_exception s ∧
  Stack.post_files s' = Stack.post_files s.

(** Every object of [h] is still there in [h'], with the attributes the
    constructor gave it. *)
Definition extends (h h' : list Stack.t) : Prop :=
  ∀ l s, h !! l = Some s → ∃ s', h' !! l = Some s' ∧ same_identity s s'.

(** The invariants of the heap [h'], given those of the heap [h] it
    comes from. *)
Definition evolves (h h' : list Stack.t) : Prop :=
  wf_heap h' ∧ (results_valid h → results_valid h') ∧
  (children_keys_distinct h → children_keys_distinct h') ∧ extends h h'.

(** The prefix that a parent gives to the full names below it. *)
Definition chain_base (parent_obj : option Stack.t) : string :=
  match parent_obj with
  | Some ps => Stack.fullname ps ++ "/"
  | None => ""
  end.

(** The flag that a stack built with [reporting_enabled] gets. *)
Definition chain_flag (reporting_enabled : option bool)
    (parent_obj : option Stack.t) : bool :=
  match reporting_enabled, parent_obj with
  | Some b, _ => b
  | None, Some ps => Stack.reporting_enabled ps
  | None, None => true
  end.

(** No handler of [items] ever raises. *)
Definition all_quiet (items : list (string * Handler)) : Prop :=
  ∀ event, quiet event items.

(** The calls that dispatching [event] adds to the trace for a stack
    whose [reporting_enabled] is [flag]. *)
Definition calls_if (flag : bool) (event : Event)
    (items : list (string * Handler)) : list (string * Event) :=
  if flag then calls event items else [].

(** [chain] lists stacks of the heap from the inside out: each one is the
    child of the next. *)
Fixpoint linked (h : list Stack.t) (chain : list loc) : Prop :=
  match chain with
  | [] => True
  | c :: rest =>
      match rest with
      | [] => is_Some (h !! c)
      | p :: _ => (∃ s, h !! c = Some s ∧ Stack.parent s = Some p) ∧ linked h rest
      end
  end.

(** The scopes of [chain] left one after the other, each without an
    exception. *)
Definition exit_all (chain : list loc) : M unit :=
  for_ chain (fun l => ReportEventStack.__exit__ l None ;; ret tt).

(** One finish event with result [FAIL] per handler for each stack of
    [chain] that reports, in the order of the chain. *)
Fixpoint failure_trace (h : list Stack.t) (w : World) (chain : list loc)
  : list (string * Event) :=
  match chain with
  | [] => []
  | l :: rest =>
      (match h !! l with
       | Some s =>
           calls_if (Stack.reporting_enabled s)
             (finish_event_of s (FAIL, ReportEventStack.message s) w)
             (registered_items w)
       | None => []
       end ++ failure_trace h w rest)%list
  end.

(** [h'] is [h] up to the [children] of its stacks. *)
Definition children_changed (h h' : list Stack.t) : Prop :=
  ∀ (l : loc) (s : Stack.t), h !! l = Some s →
         ∃ kids, h' !! l = Some (Stack.set_children kids s).

(** Nested stacks built from the outside in: the first name under
    [parent], each further name under the stack before it, all with the
    default arguments but the first, which takes [reporting_enabled].
    Returns the innermost stack. *)
Fixpoint build_chain (parent : option loc) (reporting_enabled : option bool)
    (names : list string) : M (option loc) :=
  match names with
  | [] => ret parent
  | name :: names' =>
      self ← ReportEventStack.__init__ name (VStr name) VNone parent
               reporting_enabled FAIL None;
      build_chain (Some self) None names'
  end.

(** What a call on the stack [s] at [self] may change in the world: the
    trace grows, the stack itself and its parent may be updated, and
    nothing else is touched. *)
Definition scope_frame (self : loc) (s : Stack.t) (w w' : World) : Prop :=
  length (heap w') = length (heap w) ∧
  registered_items w' = registered_items w ∧
  clock w' = clock w ∧
  default_timestamp w' = default_timestamp w ∧
  published w `prefix_of` published w' ∧
  ∀ l, l ≠ self → Stack.parent s ≠ Some l → heap w' !! l = heap w !! l.

(** ** Sample handlers, stacks and worlds *)

(** A handler that always returns, and one that always raises. *)
Definition console : Handler := {| publish_event := fun _ => None |}.

Definition webhook_down : Handler :=
  {| publish_event := fun _ => Some (Exception "connection refused") |}.

(** The world right after start-up: no handler, no stack. *)
Definition world_at (t : Z) : World := mkWorld t 0 [] [] [].

(** [import] at time 100, two handlers registered, then at time 150
    [root = ReportEventStack("install", "installing")] and
    [ReportEventStack("partitioning", "partitioning disks", parent=root,
    reporting_enabled=False, post_files=["/var/log/part.log"])]. *)
Definition sample_setup : M (loc * loc) :=
  import_events ;;
  register_item "console" console ;;
  register_item "journal" console ;;
  sleep 50 ;;
  root ← ReportEventStack.__init__ "install" (VStr "installing") VNone None
           None FAIL None;
  child ← ReportEventStack.__init__ "partitioning" (VStr "partitioning disks")
            VNone (Some root) (Some false) FAIL (Some ["/var/log/part.log"]);
  ret (root, child).

Definition sample_root : Stack.t :=
  Stack.mk None "install" (VStr "installing") VNone FAIL SUCCESS [] true
    "install" [].

Definition sample_child : Stack.t :=
  Stack.mk (Some 0%nat) "partitioning" (VStr "partitioning disks") VNone FAIL
    SUCCESS ["/var/log/part.log"] false "install/partitioning" [].

Definition sample_world : World :=
  mkWorld 150 100 [("console", console); ("journal", console)] []
    [sample_root; sample_child].

(** A root whose children recorded a warning, a failure and a
    placeholder, in this order. *)
Definition sample_kids : list (string * (PyVal * PyVal)) :=
  [("format", (WARN, VStr "slow disk"));
   ("partitioning", (FAIL, VStr "partitioning disks"));
   ("grub", (VNone, VNone))].

Definition sample_used_root : Stack.t := Stack.set_children sample_kids sample_root.

(** The sample world with the root's [children] filled by an earlier
    use. *)
Definition used_world : World :=
  mkWorld 150 100 [("console", console); ("journal", console)] []
    [sample_used_root; sample_child].

(** The sample world with a failing handler between the two others. *)
Definition faulty_world : World :=
  set_registered_items
    [("console", console); ("webhook", webhook_down); ("journal", console)]
    sample_world.

Definition disk_full : Exn := Exception "disk full".

(** A handler that takes start events and raises on finish events, and
    the sample world with this handler between the two others. *)
Definition webhook_finish_down : Handler :=
  {| publish_event := fun event =>
       match event with
       | Finish _ => Some (Exception "connection refused")
       | Reporting _ => None
       end |}.

Definition finish_fault_world : World :=
  set_registered_items
    [("console", console); ("webhook", webhook_finish_down); ("journal", console)]
    sample_world.

(** A root constructed with [result_on_exception="BOGUS"], and its
    world. *)
Definition bogus_root : Stack.t :=
  Stack.mk None "install" (VStr "installing") VNone (VStr "BOGUS") SUCCESS []
    true "install" [].

Definition bogus_world : World :=
  mkWorld 150 100 [("console", console); ("journal", console)] [] [bogus_root].

(** A root used before: its [result] was set to [WARN] and its children
    recorded their outcomes; and the world that holds it. *)
Definition sample_reused_root : Stack.t :=
  Stack.mk None "install" (VStr "installing") VNone FAIL WARN [] true
    "install"
    [("format", (WARN, VStr "slow disk"));
     ("partitioning", (FAIL, VStr "partitioning disks"));
     ("grub", (VNone, VNone))].

Definition sample_reused_child : Stack.t :=
  Stack.mk (Some 0%nat) "partitioning" (VStr "partitioning disks") VNone FAIL
    WARN ["/var/log/part.log"] false "install/partitioning" [].

Definition reused_world : World :=
  mkWorld 150 100 [("console", console); ("journal", console)] []
    [sample_reused_root; sample_reused_child].


(** A finish event with two files to post. *)
Definition sample_finish : FinishObj.t :=
  FinishObj.mk
    (EventObj.mk FINISH_EVENT_TYPE "install/partitioning"
       (VStr "partitioning disks") DEFAULT_EVENT_ORIGIN 100)
    FAIL ["/var/log/part.log"; "/var/log/missing.log"].

(** A file system with one regular file, holding [b"hi"]. *)
Definition sample_fs : FileSystem :=
  fun path => if String.eqb path "/var/log/part.log" then Some [x68; x69] else None.

(** Three scopes nested in one another, all reporting, to one handler;
    a child of the innermost one has recorded a failure. *)
Definition sample_mid : Stack.t :=
  Stack.mk (Some 0%nat) "partitioning" (VStr "partitioning disks") VNone FAIL
    SUCCESS [] true "install/partitioning" [].

Definition sample_leaf : Stack.t :=
  Stack.mk (Some 1%nat) "format" (VStr "formatting") VNone FAIL SUCCESS []
    true "install/partitioning/format" [("mkfs", (FAIL, VStr "mkfs failed"))].

Definition nested_world : World :=
  mkWorld 150 100 [("console", console)] []
    [sample_root; sample_mid; sample_leaf].

(** Calls of a client on the sample world, some of which raise. *)
Definition sample_calls : list Call :=
  [CallEnter 0%nat;
   CallSetResult 0%nat (VStr "BOGUS");
   CallInit "grub" (VStr "installing grub") VNone (Some 0%nat) None
     (VStr "BOGUS") None;
   CallEnter 2%nat;
   CallSetResult 2%nat WARN;
   CallExit 2%nat (Some disk_full);
   CallSetDescription 0%nat (VStr "installed");
   CallExit 0%nat None].

(** ** The VM test harness: [tests/vmtests/__init__.py] *)

Module VmTests.

(** [os.environ] *)
Definition Environ : Type := string -> option string.

(** [os.environ.get(name, default)] *)
Definition environ_get (environ : Environ) (name default : string) : string :=
  match environ name with
  | Some v => v
  | None => default
  end.

(** [s.split(sep)] of the standard library, for a separator of one
    character. *)
Fixpoint split_on (sep : ascii) (s : string) : list string :=
  match s with
  | EmptyString => [""]
  | String ch rest =>
      if Ascii.eqb ch sep then "" :: split_on sep rest
      else
        match split_on sep rest with
        | tok :: toks => String ch tok :: toks
        | [] => [String ch ""]
        end
  end.

(** [ValueError("'%s' had invalid token '%s'" % (ename, name))],
    [KeyError(key)], and the [OSError] that [shutil.rmtree] or
    [os.unlink] raises for the entry [d]. *)
Inductive Error : Type :=
  | InvalidToken (ename name : string)
  | KeyError (key : string)
  | OSError (d : string).

(** The tuple [allowed] of [apply_keep_settings]. *)
Definition allowed : list string :=
  ["boot"; "collect"; "disks"; "install"; "logs"; "none"; "all"].

(** [for name in toks: if name not in allowed: raise ValueError(...)] *)
Fixpoint check_tokens (ename : string) (toks : list string) : option Error :=
  match toks with
  | [] => None
  | name :: rest =>
      if negb (bool_decide (name ∈ allowed)) then Some (InvalidToken ename name)
      else check_tokens ename rest
  end.

(** The loop over [flist], filling [data]. *)
Fixpoint settings_loop (environ : Environ)
    (flist : list (option string * string * string * string))
    (data : list (string * list string))
  : Error + list (string * list string) :=
  match flist with
  | [] => inr data
  | (val, ename, dname, default) :: rest =>
      let val :=
        match val with
        | None => environ_get environ ename default
        | Some v => v
        end in
      let toks := split_on "," val in
      match check_tokens ename toks with
      | Some err => inl err
      | None => settings_loop environ rest (dict_set dname toks data)
      end
  end.

(** [d.update(data)] *)
Definition dict_update {V : Type} (d data : list (string * V))
  : list (string * V) :=
  fold_left (fun d kv => dict_set kv.1 kv.2 d) data d.

(** [apply_keep_settings(success, fail)] on the global [KEEP_DATA], whose
    values are the token lists that the call made when the module is
    imported has stored: the error raised, if any, and [KEEP_DATA]
    afterwards. *)
Definition apply_keep_settings (environ : Environ) (success fail : option string)
    (KEEP_DATA : list (string * list string))
  : option Error * list (string * list string) :=
  match settings_loop environ
          [(success, "CURTIN_VMTEST_KEEP_DATA_PASS", "pass", "none");
           (fail, "CURTIN_VMTEST_KEEP_DATA_FAIL", "fail", "all")] [] with
  | inl err => (Some err, KEEP_DATA)
  | inr data => (None, dict_update KEEP_DATA data)
  end.

(** What an entry of a directory is for [os.path.isdir], [shutil.rmtree]
    and [os.unlink]: a directory, a symbolic link to a directory, or
    anything else (a regular file, a link to one, a dangling link). *)
Inductive Kind : Type :=
  | Directory
  | DirLink
  | File.

(** A directory as [os.listdir] shows it: the names of its entries, each
    with its kind.  [tdir] itself is a directory, as [TempDir] makes it
    with [os.mkdir]. *)
Abbreviation Dir := (list (string * Kind)) (only parsing).

(** The directory without its entry [d]. *)
Definition remove_entry (d : string) (dir : Dir) : Dir :=
  filter (fun e => e.1 ≠ d) dir.

(** [shutil.rmtree(cpath)] for the entry [d]: a directory goes with all
    it holds; for anything else [rmtree] raises [OSError], for a link to
    a directory with "Cannot call rmtree on a symbolic link". *)
Definition rmtree (d : string) (dir : Dir) : Error + Dir :=
  match dict_get d dir with
  | Some Directory => inr (remove_entry d dir)
  | _ => inl (OSError d)
  end.

(** [os.unlink(cpath)] for the entry [d]: a file or a link goes; for a
    directory or a missing entry [unlink] raises [OSError]. *)
Definition unlink (d : string) (dir : Dir) : Error + Dir :=
  match dict_get d dir with
  | Some File | Some DirLink => inr (remove_entry d dir)
  | _ => inl (OSError d)
  end.

(** [os.path.isdir(os.path.join(tdir, d))], which follows links. *)
Definition isdir (dir : Dir) (d : string) : bool :=
  match dict_get d dir with
  | Some Directory | Some DirLink => true
  | _ => false
  end.

(** [for d in to_clean: ...]: the error that ends the loop, if any, and
    the directory as the loop leaves it. *)
Fixpoint clean_loop (to_clean : list string) (dir : Dir)
  : option Error * list (string * Kind) :=
  match to_clean with
  | [] => (None, dir)
  | d :: rest =>
      match (if isdir dir d then rmtree d dir else unlink d dir) with
      | inl err => (Some err, dir)
      | inr dir' => clean_loop rest dir'
      end
  end.

(** [clean_test_dir(tdir, result, keep_pass, keep_fail)]: the error
    raised, if any, and what is left of [tdir], [None] when the directory
    itself was removed. *)
Definition clean_test_dir (tdir : Dir) (result : bool)
    (keep_pass keep_fail : list string)
  : option Error * option (list (string * Kind)) :=
  let keep := if result then keep_pass else keep_fail in
  if (length keep =? 1)%nat && bool_decide (keep !! 0%nat = Some "all")
  then (None, Some tdir)
  else if (length keep =? 1)%nat && bool_decide (keep !! 0%nat = Some "none")
  then (None, None)
  else
    let to_clean :=
      filter (fun d => d ∉ keep) (map fst tdir) in
    let '(err, dir) := clean_loop to_clean tdir in
    (err, Some dir).

(** The setting that [apply_keep_settings] splits: the argument, or
    else the environment variable, or else the default. *)
Definition effective (environ : Environ) (val : option string)
    (ename default : string) : string :=
  match val with
  | None => environ_get environ ename default
  | Some v => v
  end.

(** The two status files of a test class and the counters of the
    instance that [record_result] compares with. *)
Record Status : Type := mkStatus {
  success_file : bool;
  errors_file : option (nat * nat);
  recorded_errors : nat;
  recorded_failures : nat
}.

(** [record_result(result)], given [len(result.errors)] and
    [len(result.failures)]; the errors file holds the two counts. *)
Definition record_result (errors failures : nat) (st : Status) : Status :=
  if (errors =? 0)%nat && (failures =? 0)%nat then
    if negb (success_file st)
    then mkStatus true (errors_file st) (recorded_errors st) (recorded_failures st)
    else st
  else if negb (recorded_errors st =? errors)%nat
          || negb (recorded_failures st =? failures)%nat then
    mkStatus false (Some (errors, failures)) (recorded_errors st)
      (recorded_failures st)
  else st.

(** The [success] flag that [tearDownClass] computes from the two
    files. *)
Definition teardown_success (st : Status) : bool :=
  let sfile := success_file st in
  let efile := bool_decide (is_Some (errors_file st)) in
  if negb (sfile || efile) then false
  else if sfile && efile then false
  else if sfile then true
  else false.

(** [tearDownClass]: [KEEP_DATA['pass']] and [KEEP_DATA['fail']] are
    looked up, then the directory is cleaned: the error raised, if any,
    and what is left of the directory. *)
Definition tearDownClass (st : Status) (tmpdir : Dir)
    (KEEP_DATA : list (string * list string))
  : option Error * option (list (string * Kind)) :=
  let success := teardown_success st in
  match dict_get "pass" KEEP_DATA with
  | None => (Some (KeyError "pass"), Some tmpdir)
  | Some keep_pass =>
      match dict_get "fail" KEEP_DATA with
      | None => (Some (KeyError "fail"), Some tmpdir)
      | Some keep_fail => clean_test_dir tmpdir success keep_pass keep_fail
      end
  end.

(** The results of the tests of a class, recorded one after the
    other. *)
Definition record_results (results : list (nat * nat)) (st : Status) : Status :=
  fold_left (fun st r => record_result r.1 r.2 st) results st.

(** A fresh test class: no status file, both counters 0. *)
Definition fresh_status : Status := mkStatus false None 0 0.

(** An environment without the two settings. *)
Definition no_environ : Environ := fun _ => None.

(** An environment that sets the pass setting only. *)
Definition sample_environ : Environ :=
  fun name =>
    if String.eqb name "CURTIN_VMTEST_KEEP_DATA_PASS" then Some "logs,collect"
    else None.




End VmTests.

(** * Properties *)

(** ** Running the monad *)

Lemma bind_run {A B : Type} (m : M A) (k : A → M B) (w : World) :
  (m ≫= k) w =
  match m w with
  | (Ret a, w') => k a w'
  | (Raise e, w') => (Raise e, w')
  | (Stuck, w') => (Stuck, w')
  end.
Proof. reflexivity. Qed.

Lemma bind_ret_run {A B : Type} (m : M A) (k : A → M B) (w w' : World) (a : A) :
  m w = (Ret a, w') → (m ≫= k) w = k a w'.
Proof. intros H. rewrite bind_run, H. reflexivity. Qed.

Lemma bind_raise_run {A B : Type} (m : M A) (k : A → M B) (w w' : World) (e : Exn) :
  m w = (Raise e, w') → (m ≫= k) w = (Raise e, w').
Proof. intros H. rewrite bind_run, H. reflexivity. Qed.

Lemma deref_run (l : loc) (w : World) (s : Stack.t) :
  heap w !! l = Some s → deref l w = (Ret s, w).
Proof. intros H. unfold deref. rewrite H. reflexivity. Qed.

Lemma update_run (l : loc) (f : Stack.t → Stack.t) (w : World) (s : Stack.t) :
  heap w !! l = Some s →
  update l f w = (Ret tt, set_heap (<[l := f s]> (heap w)) w).
Proof.
  intros H. unfold update. rewrite (bind_ret_run _ _ _ _ _ (deref_run _ _ _ H)).
  reflexivity.
Qed.

(** ** The status set *)

Lemma status_contains (v : PyVal) :
  _nameset.contains status v = true ↔ v = SUCCESS ∨ v = WARN ∨ v = FAIL.
Proof.
  unfold SUCCESS, WARN, FAIL, status.
  destruct v as [|z|s]; simpl.
  - split; [discriminate | intros [H|[H|H]]; discriminate].
  - split; [discriminate | intros [H|[H|H]]; discriminate].
  - rewrite bool_decide_eq_true. rewrite !elem_of_union, !elem_of_singleton.
    split.
    + intros [[H|H]|H]; subst; auto.
    + intros [H|[H|H]]; inversion H; auto.
Qed.

Example status_attributes :
  _nameset.__getattr__ status "SUCCESS" = Ret SUCCESS ∧
  _nameset.__getattr__ status "WARN" = Ret WARN ∧
  _nameset.__getattr__ status "FAIL" = Ret FAIL ∧
  _nameset.__getattr__ status "ERROR"
  = Raise (AttributeError "%s not a valid value" "ERROR").
Proof. repeat split; reflexivity. Qed.

Lemma status_rejects (v : PyVal) :
  _nameset.contains status v = false ↔ v ≠ SUCCESS ∧ v ≠ WARN ∧ v ≠ FAIL.
Proof.
  rewrite <- not_true_iff_false, status_contains. tauto.
Qed.

(** ** Rolling up the children *)

Section Rollup.

Import ReportEventStack.

Implicit Types (items kids : list (string * (PyVal * PyVal))) (v cand : PyVal).

Lemma py_eq_true (a b : PyVal) : py_eq a b = true ↔ a = b.
Proof. unfold py_eq. apply bool_decide_eq_true. Qed.

Lemma records_nil v : ¬ records v [].
Proof. intros (name & msg & H). inversion H. Qed.

Lemma records_cons v name value msg items :
  records v ((name, (value, msg)) :: items) ↔ value = v ∨ records v items.
Proof.
  unfold records. split.
  - intros (n & m & H). apply elem_of_cons in H as [H | H].
    + left. congruence.
    + right. eauto.
  - intros [-> | (n & m & H)].
    + exists name, msg. left.
    + exists n, m. right. exact H.
Qed.

Lemma scan_children_found cand items :
  records cand items → scan_children cand items = Some cand.
Proof.
  induction items as [|[name [value msg]] items IH]; intros H.
  - destruct (records_nil _ H).
  - simpl. destruct (py_eq value cand) eqn:E.
    + apply py_eq_true in E. congruence.
    + apply records_cons in H as [H | H].
      * apply py_eq_true in H. congruence.
      * auto.
Qed.

Lemma scan_children_missing cand items :
  ¬ records cand items → scan_children cand items = None.
Proof.
  induction items as [|[name [value msg]] items IH]; intros H; [reflexivity|].
  simpl. destruct (py_eq value cand) eqn:E.
  - apply py_eq_true in E. destruct H. apply records_cons. auto.
  - apply IH. intros H'. apply H, records_cons. auto.
Qed.

Lemma records_perm v kids kids' : kids' ≡ₚ kids → records v kids → records v kids'.
Proof.
  intros Hp (name & msg & H). exists name, msg. rewrite Hp. exact H.
Qed.

Lemma records_dec v kids : records v kids ∨ ¬ records v kids.
Proof.
  induction kids as [|[name [value msg]] kids IH].
  - right. apply records_nil.
  - destruct (decide (value = v)) as [-> | Hne].
    + left. apply records_cons. auto.
    + destruct IH as [IH | IH].
      * left. apply records_cons. auto.
      * right. rewrite records_cons. tauto.
Qed.

Lemma rollup_FAIL (s : Stack.t) :
  records FAIL (Stack.children s) →
  _childrens_finish_info s = (FAIL, message s).
Proof.
  intros H. unfold _childrens_finish_info. simpl.
  rewrite (scan_children_found _ _ H). reflexivity.
Qed.

Lemma rollup_WARN (s : Stack.t) :
  ¬ records FAIL (Stack.children s) → records WARN (Stack.children s) →
  _childrens_finish_info s = (WARN, message s).
Proof.
  intros HF HW. unfold _childrens_finish_info. simpl.
  rewrite (scan_children_missing _ _ HF), (scan_children_found _ _ HW).
  reflexivity.
Qed.

Lemma rollup_own (s : Stack.t) :
  ¬ records FAIL (Stack.children s) → ¬ records WARN (Stack.children s) →
  _childrens_finish_info s = (result s, message s).
Proof.
  intros HF HW. unfold _childrens_finish_info. simpl.
  rewrite (scan_children_missing _ _ HF), (scan_children_missing _ _ HW).
  reflexivity.
Qed.

Lemma placeholders_record_nothing v kids :
  v ≠ VNone → Forall (fun kv => kv.2 = (VNone, VNone)) kids → ¬ records v kids.
Proof.
  intros Hv Hall (name & msg & H).
  rewrite Forall_forall in Hall. specialize (Hall _ H). simpl in Hall.
  congruence.
Qed.

(** C1.  On a normal exit ([exc_value] is [None]) the outcome is
    [(FAIL, self.message)] if some child entry records [FAIL]; otherwise
    [(WARN, self.message)] if some entry records [WARN]; otherwise, and in
    particular when every entry is the [(None, None)] placeholder,
    [(self.result, self.message)].  The outcome does not depend on the
    order of the entries. *)
Theorem normal_exit_rolls_up_children (s : Stack.t) :
  let kids := Stack.children s in
  let reported := _finish_info s None in
  (records FAIL kids → reported = (FAIL, message s)) ∧
  (¬ records FAIL kids → records WARN kids → reported = (WARN, message s)) ∧
  (¬ records FAIL kids → ¬ records WARN kids →
     reported = (result s, message s)) ∧
  (Forall (fun kv => kv.2 = (VNone, VNone)) kids →
     reported = (result s, message s)) ∧
  (∀ kids', kids' ≡ₚ kids →
     _finish_info (Stack.set_children kids' s) None = reported).
Proof.
  simpl. split; [apply rollup_FAIL|]. split; [apply rollup_WARN|].
  split; [apply rollup_own|]. split.
  - intros Hall. apply rollup_own; apply placeholders_record_nothing;
      try exact Hall; discriminate.
  - intros kids' Hp.
    set (s' := Stack.set_children kids' s).
    assert (Hs : ∀ v, records v (Stack.children s') ↔ records v (Stack.children s)).
    { intros v. split; apply records_perm; [symmetry|]; exact Hp. }
    assert (Hm : message s' = message s) by reflexivity.
    assert (Hr : result s' = result s) by reflexivity.
    destruct (records_dec FAIL (Stack.children s)) as [HF | HF].
    + rewrite (rollup_FAIL s HF), (rollup_FAIL s'); [congruence | by apply Hs].
    + destruct (records_dec WARN (Stack.children s)) as [HW | HW].
      * rewrite (rollup_WARN s HF HW), (rollup_WARN s');
          [congruence | by rewrite Hs | by apply Hs].
      * rewrite (rollup_own s HF HW), (rollup_own s');
          [congruence | by rewrite Hs | by rewrite Hs].
Qed.

End Rollup.

(** ** Dispatch to the handlers *)

Section Dispatch.

Implicit Types (items pre post : list (string * Handler)) (w : World).

Lemma calls_app event pre post :
  calls event (pre ++ post) = (calls event pre ++ calls event post)%list.
Proof. unfold calls. apply map_app. Qed.

Lemma set_published_twice p q w :
  set_published p (set_published q w) = set_published p w.
Proof. reflexivity. Qed.

Lemma set_published_same w : set_published (published w) w = w.
Proof. destruct w. reflexivity. Qed.

Lemma publish_loop_quiet event items w :
  quiet event items →
  for_ items (fun '(key, handler) => call_publish_event key handler event) w
  = (Ret tt, set_published (published w ++ calls event items)%list w).
Proof.
  revert w. induction items as [|[key handler] items IH]; intros w Hq.
  - simpl. unfold calls. simpl. rewrite app_nil_r, set_published_same.
    reflexivity.
  - apply Forall_cons in Hq as [Hh Hq]. simpl in Hh.
    cbn [for_]. rewrite bind_run. unfold call_publish_event at 1.
    rewrite bind_run. cbn [modify]. rewrite Hh. cbn [ret].
    rewrite (IH _ Hq). cbn [published set_published].
    rewrite <- app_assoc. reflexivity.
Qed.

Lemma publish_loop_fault event pre key handler post exn w :
  quiet event pre → publish_event handler event = Some exn →
  for_ (pre ++ (key, handler) :: post)
    (fun '(key, handler) => call_publish_event key handler event) w
  = (Raise exn,
     set_published (published w ++ calls event (pre ++ [(key, handler)]))%list w).
Proof.
  revert w. induction pre as [|[k h] pre IH]; intros w Hq Hf.
  - cbn [app for_]. rewrite bind_run. unfold call_publish_event at 1.
    rewrite bind_run. cbn [modify]. rewrite Hf. reflexivity.
  - apply Forall_cons in Hq as [Hh Hq]. simpl in Hh.
    cbn [app for_]. rewrite bind_run. unfold call_publish_event at 1.
    rewrite bind_run. cbn [modify]. rewrite Hh. cbn [ret].
    rewrite (IH _ Hq Hf). cbn [published set_published].
    rewrite <- app_assoc. reflexivity.
Qed.

Lemma report_event_quiet event w :
  quiet event (registered_items w) →
  report_event event w
  = (Ret tt, set_published (published w ++ calls event (registered_items w))%list w).
Proof. intros Hq. unfold report_event. rewrite bind_run. cbn [gets]. by apply publish_loop_quiet. Qed.

Lemma call_publish_event_run key handler event w :
  call_publish_event key handler event w
  = (match publish_event handler event with
     | None => Ret tt
     | Some exn => Raise exn
     end, set_published (published w ++ [(key, event)])%list w).
Proof.
  unfold call_publish_event. rewrite bind_run. cbn [modify].
  destruct (publish_event handler event); reflexivity.
Qed.

(** Whatever the handlers do, [report_event] only extends the trace, and
    it returns or raises. *)
Lemma publish_loop_world event items w :
  ∃ tr, (for_ items (fun '(key, handler) => call_publish_event key handler event) w).2
        = set_published (published w ++ tr)%list w ∧
        (for_ items (fun '(key, handler) => call_publish_event key handler event) w).1
        ≠ Stuck.
Proof.
  revert w. induction items as [|[key handler] items IH]; intros w.
  - exists []. simpl. rewrite app_nil_r, set_published_same.
    split; [reflexivity | discriminate].
  - cbn [for_]. rewrite bind_run, call_publish_event_run.
    destruct (publish_event handler event) as [exn|].
    + exists [(key, event)]. split; [reflexivity | discriminate].
    + destruct (IH (set_published (published w ++ [(key, event)])%list w))
        as (tr & Hw & Hr).
      exists ((key, event) :: tr). split; [|exact Hr].
      rewrite Hw. cbn [published set_published]. rewrite <- app_assoc. reflexivity.
Qed.

Lemma report_event_world event w :
  ∃ tr, (report_event event w).2 = set_published (published w ++ tr)%list w ∧
        (report_event event w).1 ≠ Stuck.
Proof. unfold report_event. rewrite bind_run. cbn [gets]. apply publish_loop_world. Qed.

Lemma report_event_heap event w : heap (report_event event w).2 = heap w.
Proof. destruct (report_event_world event w) as (tr & -> & _). reflexivity. Qed.

Lemma dict_set_fresh {V : Type} (k : string) (v : V) (d : list (string * V)) :
  dict_get k d = None → dict_set k v d = (d ++ [(k, v)])%list.
Proof.
  induction d as [|[k' v'] d IH]; intros H; [reflexivity|].
  simpl in *. destruct (decide (k' = k)); [discriminate|].
  rewrite IH by exact H. reflexivity.
Qed.

(** C5.  [report_event] calls [publish_event] once on every registered
    handler, in the order of the registry, which is the order of
    registration: a handler registered under a new key is called after
    the ones already there.  If a handler raises, [report_event] raises
    the same exception and the handlers after it are not called. *)
Theorem report_event_delivers_in_order (event : Event) (w : World) :
  (quiet event (registered_items w) →
     report_event event w
     = (Ret tt,
        set_published (published w ++ calls event (registered_items w))%list w)) ∧
  (∀ key handler,
     dict_get key (registered_items w) = None →
     quiet event (registered_items w) → publish_event handler event = None →
     published ((register_item key handler ;; report_event event) w).2
     = (published w ++ calls event (registered_items w) ++ [(key, event)])%list) ∧
  (∀ pre key handler post exn,
     registered_items w = (pre ++ (key, handler) :: post)%list →
     quiet event pre → publish_event handler event = Some exn →
     report_event event w
     = (Raise exn,
        set_published (published w ++ calls event pre ++ [(key, event)])%list w)).
Proof.
  split; [apply report_event_quiet|]. split.
  - intros key handler Hfresh Hq Hh.
    rewrite bind_run. cbn [register_item modify].
    rewrite report_event_quiet.
    + cbn [snd published set_published registered_items set_registered_items].
      rewrite (dict_set_fresh _ _ _ Hfresh), calls_app. reflexivity.
    + cbn [registered_items set_registered_items].
      rewrite (dict_set_fresh _ _ _ Hfresh). apply Forall_app. split; [exact Hq|].
      apply Forall_cons. split; [exact Hh | apply Forall_nil_2].
  - intros pre key handler post exn Hitems Hq Hf.
    unfold report_event. rewrite bind_run. cbn [gets]. rewrite Hitems.
    rewrite (publish_loop_fault _ _ _ _ _ _ _ Hq Hf), calls_app. reflexivity.
Qed.

(** ** Finish events *)

Lemma finish_init_valid name description result post_files w :
  _nameset.contains status result = true →
  FinishReportingEvent.__init__ name description result post_files w
  = (Ret (FinishObj.mk
            (EventObj.mk FINISH_EVENT_TYPE name description
               DEFAULT_EVENT_ORIGIN (default_timestamp w))
            result (default [] post_files)), w).
Proof.
  intros H. unfold FinishReportingEvent.__init__. rewrite bind_run.
  unfold ReportingEvent.__init__. rewrite bind_run. cbn [gets ret].
  rewrite H. destruct post_files; reflexivity.
Qed.

Lemma finish_init_invalid name description result post_files w :
  _nameset.contains status result = false →
  FinishReportingEvent.__init__ name description result post_files w
  = (Raise (ValueError "Invalid result: %s" result), w).
Proof.
  intros H. unfold FinishReportingEvent.__init__. rewrite bind_run.
  unfold ReportingEvent.__init__. rewrite bind_run. cbn [gets ret].
  rewrite H. reflexivity.
Qed.

(** C6.  With a result outside the status set, [FinishReportingEvent]
    and [report_finish_event] raise [ValueError] and leave the world as
    it was: no handler is called.  With a result of the set the event is
    built, carries that result, and is handed to [report_event]. *)
Theorem finish_event_validates_result (name : string) (description : PyVal)
    (result : PyVal) (post_files : option (list string)) (w : World) :
  (result ≠ SUCCESS ∧ result ≠ WARN ∧ result ≠ FAIL →
     FinishReportingEvent.__init__ name description result post_files w
     = (Raise (ValueError "Invalid result: %s" result), w) ∧
     report_finish_event name description result post_files w
     = (Raise (ValueError "Invalid result: %s" result), w)) ∧
  (result = SUCCESS ∨ result = WARN ∨ result = FAIL →
     ∃ event,
       FinishReportingEvent.__init__ name description result post_files w
       = (Ret event, w) ∧
       FinishObj.result event = result ∧
       EventObj.name (FinishObj.super event) = name ∧
       EventObj.description (FinishObj.super event) = description ∧
       report_finish_event name description result post_files w
       = report_event (Finish event) w ∧
       (quiet (Finish event) (registered_items w) →
          published (report_finish_event name description result post_files w).2
          = (published w ++ calls (Finish event) (registered_items w))%list)).
Proof.
  split.
  - intros H. apply status_rejects in H.
    pose proof (finish_init_invalid name description result post_files w H) as Hi.
    split; [exact Hi|].
    unfold report_finish_event. rewrite bind_run, Hi. reflexivity.
  - intros H. apply status_contains in H.
    pose proof (finish_init_valid name description result post_files w H) as Hi.
    eexists. split; [exact Hi|]. split; [reflexivity|].
    split; [reflexivity|]. split; [reflexivity|].
    assert (Hr : ∀ ev, FinishReportingEvent.__init__ name description result post_files w = (Ret ev, w) →
       report_finish_event name description result post_files w = report_event (Finish ev) w).
    { intros ev Hev. unfold report_finish_event. rewrite bind_run, Hev. reflexivity. }
    split; [apply Hr, Hi|].
    intros Hq. rewrite (Hr _ Hi), (report_event_quiet _ _ Hq). reflexivity.
Qed.

Lemma report_event_fault event w pre key handler post exn :
  registered_items w = (pre ++ (key, handler) :: post)%list →
  quiet event pre → publish_event handler event = Some exn →
  report_event event w
  = (Raise exn,
     set_published (published w ++ calls event pre ++ [(key, event)])%list w).
Proof.
  intros Hitems Hq Hf. unfold report_event. rewrite bind_run. cbn [gets].
  rewrite Hitems, (publish_loop_fault _ _ _ _ _ _ _ Hq Hf), calls_app.
  reflexivity.
Qed.

End Dispatch.

(** ** Entering and leaving a scope *)

Section Scope.

Import ReportEventStack.

Implicit Types (w : World) (self p : loc) (s ps : Stack.t) (e : Exn).

Lemma wf_parent_lt w self s p :
  wf_heap (heap w) → heap w !! self = Some s → Stack.parent s = Some p →
  p ≠ self ∧ is_Some (heap w !! p).
Proof.
  intros Hwf Hs Hp. pose proof (Hwf _ _ _ Hs Hp) as Hlt.
  split; [lia|]. apply lookup_lt_is_Some.
  apply lookup_lt_Some in Hs. lia.
Qed.

Lemma parent_recorded_self w self s entry :
  wf_heap (heap w) → heap w !! self = Some s →
  heap (parent_recorded s entry w) !! self = Some s.
Proof.
  intros Hwf Hs. unfold parent_recorded.
  destruct (Stack.parent s) as [p|] eqn:Hp; [|exact Hs].
  destruct (wf_parent_lt _ _ _ _ Hwf Hs Hp) as [Hne [ps Hps]].
  rewrite Hps. cbn [heap set_heap].
  rewrite list_lookup_insert_ne by exact Hne. exact Hs.
Qed.

Lemma parent_recorded_parent w self s entry p ps :
  heap w !! p = Some ps → Stack.parent s = Some p →
  heap (parent_recorded s entry w) !! p = Some (with_entry s entry ps).
Proof.
  intros Hps Hp. unfold parent_recorded. rewrite Hp, Hps. cbn [heap set_heap].
  apply list_lookup_insert_eq. by apply lookup_lt_Some in Hps.
Qed.

Lemma parent_recorded_published s entry w :
  published (parent_recorded s entry w) = published w.
Proof.
  unfold parent_recorded. destruct (Stack.parent s); [|reflexivity].
  destruct (heap w !! l); reflexivity.
Qed.

Lemma parent_recorded_registry s entry w :
  registered_items (parent_recorded s entry w) = registered_items w.
Proof.
  unfold parent_recorded. destruct (Stack.parent s); [|reflexivity].
  destruct (heap w !! l); reflexivity.
Qed.

Lemma parent_recorded_default_timestamp s entry w :
  default_timestamp (parent_recorded s entry w) = default_timestamp w.
Proof.
  unfold parent_recorded. destruct (Stack.parent s); [|reflexivity].
  destruct (heap w !! l); reflexivity.
Qed.

Lemma record_in_parent_run w self s entry :
  wf_heap (heap w) → heap w !! self = Some s →
  record_in_parent self entry w = (Ret tt, parent_recorded s entry w).
Proof.
  intros Hwf Hs. unfold record_in_parent.
  rewrite (bind_ret_run _ _ _ _ _ (deref_run _ _ _ Hs)).
  unfold parent_recorded.
  destruct (Stack.parent s) as [p|] eqn:Hp; [|reflexivity].
  destruct (wf_parent_lt _ _ _ _ Hwf Hs Hp) as [_ [ps Hps]].
  rewrite Hps. apply (update_run _ _ _ _ Hps).
Qed.

Lemma wf_parent_recorded s entry w :
  wf_heap (heap w) → wf_heap (heap (parent_recorded s entry w)).
Proof.
  intros Hwf. unfold parent_recorded.
  destruct (Stack.parent s) as [p|]; [|exact Hwf].
  destruct (heap w !! p) as [ps|] eqn:Hps; [|exact Hwf].
  cbn [heap set_heap]. intros l s' q Hl Hq.
  destruct (decide (l = p)) as [-> | Hne].
  - rewrite list_lookup_insert_eq in Hl by (by apply lookup_lt_Some in Hps).
    injection Hl as <-. apply (Hwf _ _ _ Hps Hq).
  - rewrite list_lookup_insert_ne in Hl by congruence. apply (Hwf _ _ _ Hl Hq).
Qed.

Lemma report_start_event_run name description w :
  report_start_event name description w
  = report_event (Reporting (EventObj.mk START_EVENT_TYPE name description
                               DEFAULT_EVENT_ORIGIN (default_timestamp w))) w.
Proof. reflexivity. Qed.

(** What [__exit__] does, step by step. *)
Lemma exit_run w self s exc :
  wf_heap (heap w) → heap w !! self = Some s →
  __exit__ self exc w
  = let entry := _finish_info s exc in
    let w1 := parent_recorded s entry w in
    if Stack.reporting_enabled s
    then (report_finish_event (Stack.fullname s) entry.2 entry.1
            (Some (Stack.post_files s)) ;; ret VNone) w1
    else (Ret VNone, w1).
Proof.
  intros Hwf Hs. unfold __exit__.
  rewrite (bind_ret_run _ _ _ _ _ (deref_run _ _ _ Hs)).
  destruct (_finish_info s exc) as [result msg] eqn:Hfi. cbn [fst snd].
  rewrite (bind_ret_run _ _ _ _ _ (record_in_parent_run _ _ _ _ Hwf Hs)).
  rewrite (bind_ret_run _ _ _ _ _
             (deref_run _ _ _ (parent_recorded_self _ _ _ _ Hwf Hs))).
  destruct (Stack.reporting_enabled s); reflexivity.
Qed.

Lemma set_result_run w self s value :
  _nameset.contains status value = true → heap w !! self = Some s →
  set_result self value w
  = (Ret tt, set_heap (<[self := Stack.set__result value s]> (heap w)) w).
Proof.
  intros Hv Hs. unfold set_result. rewrite bind_run.
  unfold of_outcome, result_check. rewrite Hv. cbn [negb].
  apply (update_run _ _ _ _ Hs).
Qed.

Lemma wf_insert w self s s' :
  wf_heap (heap w) → heap w !! self = Some s →
  Stack.parent s' = Stack.parent s →
  wf_heap (<[self := s']> (heap w)).
Proof.
  intros Hwf Hs Hp l t q Hl Hq.
  destruct (decide (l = self)) as [-> | Hne].
  - rewrite list_lookup_insert_eq in Hl by (by apply lookup_lt_Some in Hs).
    injection Hl as <-. rewrite Hp in Hq. apply (Hwf _ _ _ Hs Hq).
  - rewrite list_lookup_insert_ne in Hl by congruence. apply (Hwf _ _ _ Hl Hq).
Qed.

(** What [__enter__] does, step by step. *)
Lemma enter_run w self s :
  wf_heap (heap w) → heap w !! self = Some s →
  __enter__ self w
  = let s1 := Stack.set__result SUCCESS s in
    let w1 := set_heap (<[self := s1]> (heap w)) w in
    ((if Stack.reporting_enabled s
      then report_event (start_event_of s w) else ret tt) ;;
     (modify (parent_recorded s1 (VNone, VNone)) ;; ret self)) w1.
Proof.
  intros Hwf Hs. unfold __enter__.
  assert (Hok : _nameset.contains status SUCCESS = true)
    by (apply status_contains; by left).
  set (s1 := Stack.set__result SUCCESS s).
  set (w1 := set_heap (<[self := s1]> (heap w)) w).
  assert (Hs1 : heap w1 !! self = Some s1).
  { cbn [heap set_heap]. apply list_lookup_insert_eq. by apply lookup_lt_Some in Hs. }
  assert (Hwf1 : wf_heap (heap w1)) by (by apply (wf_insert w self s s1)).
  rewrite (bind_ret_run _ _ _ _ _ (set_result_run _ _ _ _ Hok Hs)).
  fold s1 w1. cbn zeta.
  rewrite (bind_ret_run _ _ _ _ _ (deref_run _ _ _ Hs1)).
  change (Stack.reporting_enabled s1) with (Stack.reporting_enabled s).
  rewrite (bind_run _ _ w1).
  rewrite (bind_run (if Stack.reporting_enabled s then report_event _ else _) _ w1).
  assert (Hstep : (if Stack.reporting_enabled s
                   then report_start_event (Stack.fullname s1) (Stack.description s1)
                   else ret tt) w1
                  = (if Stack.reporting_enabled s
                     then report_event (start_event_of s w) else ret tt) w1).
  { destruct (Stack.reporting_enabled s); reflexivity. }
  rewrite Hstep.
  destruct ((if Stack.reporting_enabled s then report_event (start_event_of s w)
             else ret tt) w1) as [[[]|exn|] w2] eqn:Hre; try reflexivity.
  assert (Hh : heap w2 = heap w1).
  { destruct (Stack.reporting_enabled s).
    - rewrite <- (report_event_heap (start_event_of s w) w1), Hre. reflexivity.
    - unfold ret in Hre. by injection Hre as <-. }
  assert (Hs2 : heap w2 !! self = Some s1) by (by rewrite Hh).
  assert (Hwf2 : wf_heap (heap w2)) by (by rewrite Hh).
  rewrite (bind_ret_run _ _ _ _ _ (record_in_parent_run _ _ _ _ Hwf2 Hs2)).
  reflexivity.
Qed.

Lemma is_clean_exit_iff e : is_clean_exit e = true ↔ e = SystemExit (VInt 0).
Proof.
  destruct e as [code| | |]; simpl; try (split; [discriminate | discriminate]).
  rewrite py_eq_true. split; congruence.
Qed.

Lemma finish_info_exception s e :
  e ≠ SystemExit (VInt 0) →
  _finish_info s (Some e) = (Stack.result_on_exception s, message s).
Proof.
  intros He. unfold _finish_info.
  destruct (is_clean_exit e) eqn:E; [|reflexivity].
  apply is_clean_exit_iff in E. contradiction.
Qed.

Lemma finish_info_clean_exit s :
  _finish_info s (Some (SystemExit (VInt 0))) = _childrens_finish_info s.
Proof. reflexivity. Qed.

(** The finish event is built and dispatched when the result is a valid
    status, and refused before any dispatch otherwise. *)
Lemma report_finish_of_stack s entry w :
  report_finish_event (Stack.fullname s) entry.2 entry.1
    (Some (Stack.post_files s)) w
  = if _nameset.contains status entry.1
    then report_event (finish_event_of s entry w) w
    else (Raise (ValueError "Invalid result: %s" entry.1), w).
Proof.
  unfold report_finish_event. rewrite bind_run.
  destruct (_nameset.contains status entry.1) eqn:Hv.
  - rewrite (finish_init_valid _ _ _ _ _ Hv). reflexivity.
  - rewrite (finish_init_invalid _ _ _ _ _ Hv). reflexivity.
Qed.

Lemma finish_event_of_recorded s entry entry' w :
  finish_event_of s entry (parent_recorded s entry' w) = finish_event_of s entry w.
Proof. unfold finish_event_of. by rewrite parent_recorded_default_timestamp. Qed.

(** [__exit__] returns [None] whenever it returns, and is never stuck. *)
Lemma exit_returns_None w self s exc :
  wf_heap (heap w) → heap w !! self = Some s →
  (∀ v w', __exit__ self exc w = (Ret v, w') → v = VNone) ∧
  (__exit__ self exc w).1 ≠ Stuck.
Proof.
  intros Hwf Hs. rewrite (exit_run _ _ _ _ Hwf Hs). cbn zeta.
  destruct (Stack.reporting_enabled s).
  - rewrite bind_run, report_finish_of_stack.
    destruct (_nameset.contains status _).
    + destruct (report_event_world (finish_event_of s (_finish_info s exc)
                  (parent_recorded s (_finish_info s exc) w))
                  (parent_recorded s (_finish_info s exc) w)) as (tr & _ & Hns).
      destruct (report_event _ _) as [[[]|exn|] w2]; cbn [ret fst] in *.
      * split; [|discriminate]. intros v w' H. by injection H as <- _.
      * split; [|discriminate]. intros v w' H. discriminate H.
      * contradiction.
    + split; [|discriminate]. intros v w' H. discriminate H.
  - split; [|discriminate]. intros v w' H. by injection H as <- _.
Qed.

(** When the finish event can be dispatched, [__exit__] returns and the
    trace holds one call per handler. *)
Lemma exit_completes w self s exc :
  wf_heap (heap w) → heap w !! self = Some s →
  let entry := _finish_info s exc in
  (Stack.reporting_enabled s = false →
     __exit__ self exc w = (Ret VNone, parent_recorded s entry w)) ∧
  (Stack.reporting_enabled s = true →
   _nameset.contains status entry.1 = true →
   quiet (finish_event_of s entry w) (registered_items w) →
     __exit__ self exc w
     = (Ret VNone,
        set_published
          (published w ++ calls (finish_event_of s entry w) (registered_items w))%list
          (parent_recorded s entry w))).
Proof.
  intros Hwf Hs. cbn zeta. rewrite (exit_run _ _ _ _ Hwf Hs). cbn zeta.
  split; intros Hen.
  - rewrite Hen. reflexivity.
  - intros Hv Hq. rewrite Hen, bind_run, report_finish_of_stack, Hv.
    rewrite finish_event_of_recorded, report_event_quiet.
    + rewrite parent_recorded_published, parent_recorded_registry. reflexivity.
    + by rewrite parent_recorded_registry.
Qed.

(** C2, as the code has it.  When the body raised [e], not a
    [SystemExit] with code 0, the outcome is
    [(result_on_exception, message)]; for [SystemExit] with code 0 it is
    the one of the children roll-up, as on a normal exit.  [__exit__]
    writes the outcome into the parent's [children], and the [with]
    statement never completes normally.  What it raises is [e] whenever
    [__exit__] returns: with reporting disabled, where no event is
    dispatched, and when the finish event was built and no handler raised
    on it.  When the result of the outcome is no status, [__exit__]
    raises the [ValueError] of [FinishReportingEvent] and no finish event
    is dispatched; when a handler raises on the finish event, [__exit__]
    raises that exception and the later handlers are not called; either
    way the [with] statement raises the exception of [__exit__] in place
    of [e]. *)
Theorem body_exception_propagates_unless_exit_raises w self s e :
  wf_heap (heap w) → heap w !! self = Some s →
  let entry := _finish_info s (Some e) in
  let event := finish_event_of s entry w in
  let w_rec := parent_recorded s entry w in
  (e ≠ SystemExit (VInt 0) →
     entry = (Stack.result_on_exception s, message s)) ∧
  (e = SystemExit (VInt 0) →
     entry = _childrens_finish_info s ∧ entry = _finish_info s None) ∧
  (Stack.reporting_enabled s = false →
     __exit__ self (Some e) w = (Ret VNone, w_rec)) ∧
  (Stack.reporting_enabled s = true →
   _nameset.contains status entry.1 = true →
   quiet event (registered_items w) →
     __exit__ self (Some e) w
     = (Ret VNone,
        set_published (published w ++ calls event (registered_items w))%list
          w_rec)) ∧
  (Stack.reporting_enabled s = true →
   _nameset.contains status entry.1 = false →
     __exit__ self (Some e) w
     = (Raise (ValueError "Invalid result: %s" entry.1), w_rec)) ∧
  (Stack.reporting_enabled s = true →
   _nameset.contains status entry.1 = true →
   ∀ pre key handler post exn,
     registered_items w = (pre ++ (key, handler) :: post)%list →
     quiet event pre → publish_event handler event = Some exn →
     __exit__ self (Some e) w
     = (Raise exn,
        set_published (published w ++ calls event pre ++ [(key, event)])%list
          w_rec)) ∧
  (∀ w0 w1 body,
     __enter__ self w0 = (Ret self, w1) → body w1 = (Raise e, w) →
     (∃ e', (with_ self body w0).1 = Raise e') ∧
     (∀ v w', __exit__ self (Some e) w = (Ret v, w') →
        with_ self body w0 = (Raise e, w')) ∧
     (∀ e' w', __exit__ self (Some e) w = (Raise e', w') →
        with_ self body w0 = (Raise e', w')) ∧
     (∀ p ps, Stack.parent s = Some p → heap w !! p = Some ps →
        heap (with_ self body w0).2 !! p = Some (with_entry s entry ps))).
Proof.
  intros Hwf Hs. cbn zeta.
  set (entry := _finish_info s (Some e)).
  split; [apply finish_info_exception|].
  split; [intros ->; split; reflexivity|].
  destruct (exit_completes w self s (Some e) Hwf Hs) as [Hdis Hen].
  split; [exact Hdis|]. split; [exact Hen|].
  split; [|split].
  - intros Hon Hbad. rewrite (exit_run _ _ _ _ Hwf Hs). cbn zeta. fold entry.
    rewrite Hon, bind_run, report_finish_of_stack, Hbad. reflexivity.
  - intros Hon Hv pre key handler post exn Hitems Hq Hf.
    rewrite (exit_run _ _ _ _ Hwf Hs). cbn zeta. fold entry. rewrite Hon.
    rewrite bind_run, report_finish_of_stack, Hv, finish_event_of_recorded.
    rewrite (report_event_fault (finish_event_of s entry w)
               (parent_recorded s entry w) pre key handler post exn);
      [|by rewrite parent_recorded_registry | exact Hq | exact Hf].
    by rewrite parent_recorded_published.
  - intros w0 w1 body Henter Hbody.
    destruct (exit_returns_None w self s (Some e) Hwf Hs) as [Hnone Hns].
    assert (Hwith : with_ self body w0
                    = match __exit__ self (Some e) w with
                      | (Ret v, w') => if truthy v then (Ret tt, w') else (Raise e, w')
                      | (Raise e', w') => (Raise e', w')
                      | (Stuck, w') => (Stuck, w')
                      end).
    { unfold with_. rewrite (bind_ret_run _ _ _ _ _ Henter).
      rewrite bind_run. unfold catch. rewrite Hbody. rewrite bind_run.
      destruct (__exit__ self (Some e) w) as [[v|e'|] w']; try reflexivity.
      destruct (truthy v); reflexivity. }
    assert (Hheap : heap (__exit__ self (Some e) w).2
                    = heap (parent_recorded s entry w)).
    { rewrite (exit_run _ _ _ _ Hwf Hs). cbn zeta. fold entry.
      destruct (Stack.reporting_enabled s); [|reflexivity].
      rewrite bind_run, report_finish_of_stack.
      destruct (_nameset.contains status entry.1); [|reflexivity].
      pose proof (report_event_heap
                    (finish_event_of s entry (parent_recorded s entry w))
                    (parent_recorded s entry w)) as Hh.
      destruct (report_event _ _) as [[[]|exn|] w2]; exact Hh. }
    assert (Hsnd : (with_ self body w0).2 = (__exit__ self (Some e) w).2).
    { rewrite Hwith.
      destruct (__exit__ self (Some e) w) as [[v|e'|] w'] eqn:Hexit;
        try reflexivity.
      rewrite (Hnone v w' eq_refl). reflexivity. }
    split; [|split; [|split]].
    + rewrite Hwith.
      destruct (__exit__ self (Some e) w) as [[v|e'|] w'] eqn:Hexit.
      * rewrite (Hnone v w' eq_refl). by exists e.
      * by exists e'.
      * by destruct Hns.
    + intros v w' Hexit. rewrite Hwith, Hexit.
      rewrite (Hnone v w' Hexit). reflexivity.
    + intros e' w' Hexit. rewrite Hwith, Hexit. reflexivity.
    + intros p ps Hp Hps. rewrite Hsnd, Hheap.
      by apply (parent_recorded_parent w self).
Qed.

Lemma dict_set_elem {V : Type} (k : string) (v : V) (d : list (string * V)) :
  (k, v) ∈ dict_set k v d.
Proof.
  induction d as [|[k' v'] d IH]; simpl.
  - left.
  - destruct (decide (k' = k)); [left | right; exact IH].
Qed.

Lemma dict_get_set {V : Type} (k : string) (v : V) (d : list (string * V)) :
  dict_get k (dict_set k v d) = Some v.
Proof.
  induction d as [|[k' v'] d IH]; simpl.
  - by destruct (decide (k = k)).
  - destruct (decide (k' = k)) as [->|Hne]; simpl.
    + by destruct (decide (k = k)).
    + destruct (decide (k' = k)); [contradiction | exact IH].
Qed.

Lemma dict_get_set_ne {V : Type} (k k' : string) (v : V) (d : list (string * V)) :
  k' ≠ k → dict_get k' (dict_set k v d) = dict_get k' d.
Proof.
  intros Hne. induction d as [|[k0 v0] d IH]; simpl.
  - destruct (decide (k = k')); [congruence | reflexivity].
  - destruct (decide (k0 = k)) as [->|Hk]; simpl.
    + destruct (decide (k = k')); [congruence | reflexivity].
    + destruct (decide (k0 = k')); [reflexivity | exact IH].
Qed.

(** The world [__enter__] leaves behind. *)
Lemma enter_world w self s :
  wf_heap (heap w) → heap w !! self = Some s →
  let s1 := Stack.set__result SUCCESS s in
  let w1 := set_heap (<[self := s1]> (heap w)) w in
  (Stack.reporting_enabled s = false →
     __enter__ self w = (Ret self, parent_recorded s1 (VNone, VNone) w1)) ∧
  (Stack.reporting_enabled s = true →
   quiet (start_event_of s w) (registered_items w) →
     __enter__ self w
     = (Ret self,
        parent_recorded s1 (VNone, VNone)
          (set_published
             (published w ++ calls (start_event_of s w) (registered_items w))%list
             w1))) ∧
  (∀ exn w', __enter__ self w = (Raise exn, w') → heap w' = <[self := s1]> (heap w)) ∧
  (__enter__ self w).1 ≠ Stuck.
Proof.
  intros Hwf Hs. cbn zeta. rewrite (enter_run _ _ _ Hwf Hs). cbn zeta.
  set (s1 := Stack.set__result SUCCESS s).
  set (w1 := set_heap (<[self := s1]> (heap w)) w).
  destruct (Stack.reporting_enabled s).
  - split; [discriminate|]. split; [|split].
    + intros _ Hq. rewrite bind_run, report_event_quiet by exact Hq. reflexivity.
    + intros exn w'. rewrite bind_run.
      pose proof (report_event_heap (start_event_of s w) w1) as Hh.
      destruct (report_event (start_event_of s w) w1) as [[[]|exn'|] w2];
        intros H; try discriminate H.
      injection H as _ <-. exact Hh.
    + rewrite bind_run.
      destruct (report_event_world (start_event_of s w) w1) as (tr & _ & Hns).
      destruct (report_event (start_event_of s w) w1) as [[[]|exn'|] w2];
        cbn [fst] in *; [discriminate | discriminate | contradiction].
  - split; [reflexivity|]. split; [discriminate|]. split; [|discriminate].
    intros exn w' H. discriminate H.
Qed.

(** C9.  After [__enter__] the [result] of the stack reads [SUCCESS],
    whatever it was before, and, when there is a parent, the parent's
    [children] hold the [(None, None)] placeholder under the stack's
    name; every other attribute of the stack, its own [children] among
    them, and all other objects are as before.  So child outcomes
    recorded before the instance is entered again still decide the
    roll-up of the next normal exit, and only without a [FAIL] or [WARN]
    among them does the fresh [SUCCESS] show. *)
Theorem enter_keeps_children w self s :
  wf_heap (heap w) → heap w !! self = Some s →
  let r := (__enter__ self w).1 in
  let w' := (__enter__ self w).2 in
  (∃ s', heap w' !! self = Some s' ∧
     result s' = SUCCESS ∧
     Stack.parent s' = Stack.parent s ∧
     Stack.name s' = Stack.name s ∧
     Stack.description s' = Stack.description s ∧
     Stack._message s' = Stack._message s ∧
     Stack.result_on_exception s' = Stack.result_on_exception s ∧
     Stack.post_files s' = Stack.post_files s ∧
     Stack.reporting_enabled s' = Stack.reporting_enabled s ∧
     Stack.fullname s' = Stack.fullname s ∧
     Stack.children s' = Stack.children s) ∧
  (Stack.reporting_enabled s = false ∨
   quiet (start_event_of s w) (registered_items w) → r = Ret self) ∧
  (r = Ret self → ∀ p ps,
     Stack.parent s = Some p → heap w !! p = Some ps →
     heap w' !! p = Some (with_entry s (VNone, VNone) ps) ∧
     ∃ ps', heap w' !! p = Some ps' ∧
       dict_get (Stack.name s) (Stack.children ps') = Some (VNone, VNone) ∧
       (∀ k, k ≠ Stack.name s →
          dict_get k (Stack.children ps') = dict_get k (Stack.children ps)) ∧
       result ps' = result ps) ∧
  (∀ l, l ≠ self → Stack.parent s ≠ Some l → heap w' !! l = heap w !! l) ∧
  (∀ s', heap w' !! self = Some s' →
     Stack.children s' = Stack.children s ∧
     (∀ v, v = FAIL ∨ v = WARN → records v (Stack.children s) →
           ¬ records FAIL (Stack.children s) ∨ v = FAIL →
           _finish_info s' None = (v, message s)) ∧
     (¬ records FAIL (Stack.children s) → ¬ records WARN (Stack.children s) →
        _finish_info s' None = (SUCCESS, message s))).
Proof.
  intros Hwf Hs. cbn zeta.
  set (s1 := Stack.set__result SUCCESS s).
  set (w1 := set_heap (<[self := s1]> (heap w)) w).
  assert (Hs1 : heap w1 !! self = Some s1).
  { cbn [heap set_heap]. apply list_lookup_insert_eq. by apply lookup_lt_Some in Hs. }
  assert (Hwf1 : wf_heap (heap w1)) by (by apply (wf_insert w self s s1)).
  destruct (enter_world w self s Hwf Hs) as (Hdis & Hen & Hraise & Hns).
  fold s1 w1 in Hdis, Hen, Hraise.
  (* the heap after [__enter__] is one of two *)
  assert (Hheap : heap (__enter__ self w).2 = heap w1 ∧ (__enter__ self w).1 ≠ Ret self
                  ∨ heap (__enter__ self w).2
                    = heap (parent_recorded s1 (VNone, VNone) w1)
                    ∧ (__enter__ self w).1 = Ret self).
  { rewrite (enter_run _ _ _ Hwf Hs). cbn zeta. fold s1 w1. rewrite bind_run.
    pose proof (report_event_heap (start_event_of s w) w1) as Hh.
    destruct (Stack.reporting_enabled s).
    - destruct (report_event (start_event_of s w) w1) as [[[]|exn'|] w2];
        cbn [snd fst] in *.
      + right. split; [|reflexivity]. rewrite bind_run. cbn [modify ret snd].
        unfold parent_recorded. rewrite Hh.
        destruct (Stack.parent s1); [|exact Hh].
        destruct (heap w1 !! l); [reflexivity | exact Hh].
      + left. split; [exact Hh | discriminate].
      + left. split; [exact Hh | discriminate].
    - right. split; reflexivity. }
  assert (Hself : heap (__enter__ self w).2 !! self = Some s1).
  { destruct Hheap as [[-> _] | [-> _]]; [exact Hs1|].
    by apply parent_recorded_self. }
  split; [|split; [|split; [|split]]].
  - exists s1. split; [exact Hself|]. repeat split; reflexivity.
  - intros [Hd | Hq].
    + by rewrite (Hdis Hd).
    + destruct (Stack.reporting_enabled s) eqn:E.
      * by rewrite (Hen eq_refl Hq).
      * by rewrite (Hdis eq_refl).
  - intros Hr p ps Hp Hps.
    destruct Hheap as [[_ Hne] | [-> _]]; [contradiction|].
    destruct (wf_parent_lt _ _ _ _ Hwf Hs Hp) as [Hpne _].
    assert (Hps1 : heap w1 !! p = Some ps).
    { unfold w1. cbn [heap set_heap].
      rewrite list_lookup_insert_ne by congruence. exact Hps. }
    pose proof (parent_recorded_parent w1 self s1 (VNone, VNone) p ps Hps1 Hp)
      as Hrec.
    split; [exact Hrec|].
    exists (with_entry s1 (VNone, VNone) ps). split; [exact Hrec|].
    split; [apply dict_get_set|]. split; [|reflexivity].
    intros k Hk. cbn [with_entry Stack.children Stack.set_children].
    apply dict_get_set_ne. exact Hk.
  - intros l Hl Hlp.
    assert (Hl1 : heap w1 !! l = heap w !! l).
    { cbn [heap set_heap]. apply list_lookup_insert_ne. congruence. }
    destruct Hheap as [[-> _] | [-> _]]; [exact Hl1|].
    unfold parent_recorded.
    destruct (Stack.parent s1) as [p|] eqn:Hp; [|exact Hl1].
    destruct (heap w1 !! p) as [ps|]; [|exact Hl1].
    cbn [heap set_heap]. rewrite list_lookup_insert_ne; [exact Hl1|].
    intros ->. apply Hlp. exact Hp.
  - intros s' Hs'. rewrite Hself in Hs'. injection Hs' as <-.
    split; [reflexivity|]. split.
    + intros v Hv Hrec Hprio.
      change (_finish_info s1 None) with (_childrens_finish_info s1).
      destruct Hprio as [HnF | ->].
      * destruct Hv as [-> | ->]; [contradiction|].
        apply (rollup_WARN s1 HnF Hrec).
      * apply (rollup_FAIL s1 Hrec).
    + intros HnF HnW.
      change (_finish_info s1 None) with (_childrens_finish_info s1).
      apply (rollup_own s1 HnF HnW).
Qed.

Lemma with_entry_records s entry ps :
  records entry.1 (Stack.children (with_entry s entry ps)).
Proof.
  destruct entry as [v msg]. exists (Stack.name s), msg.
  unfold with_entry. cbn [Stack.children Stack.set_children fst].
  apply dict_set_elem.
Qed.


(** ** Construction *)

Lemma init_run name description message parent re roe pf w :
  (∀ p, parent = Some p → is_Some (heap w !! p)) →
  __init__ name description message parent re roe pf w
  = (Ret (length (heap w)),
     set_heap (heap w ++ [fresh_stack name description message parent
                            (parent ≫= fun p => heap w !! p) re roe pf])%list w).
Proof.
  intros Hp. unfold __init__, fresh_stack.
  assert (Hok : result_check SUCCESS = Ret SUCCESS).
  { unfold result_check.
    replace (_nameset.contains status SUCCESS) with true
      by (symmetry; apply status_contains; by left).
    reflexivity. }
  rewrite bind_run. cbn [of_outcome]. rewrite Hok.
  destruct parent as [p|].
  - destruct (Hp p eq_refl) as [ps Hps].
    change (Some p ≫= fun p0 => heap w !! p0) with (heap w !! p). rewrite Hps.
    pose proof (deref_run _ _ _ Hps) as Hd.
    destruct re as [b|]; rewrite !bind_run; cbn [ret]; rewrite ?bind_run, Hd;
      cbn [ret]; rewrite ?bind_run, ?Hd; destruct pf; reflexivity.
  - destruct re as [b|]; destruct pf; reflexivity.
Qed.

Lemma init_wf w s :
  wf_heap (heap w) →
  (∀ p, Stack.parent s = Some p → is_Some (heap w !! p)) →
  wf_heap (heap w ++ [s]).
Proof.
  intros Hwf Hp l t q Hl Hq.
  destruct (decide (l < length (heap w))%nat) as [Hlt | Hge].
  - rewrite lookup_app_l in Hl by exact Hlt. apply (Hwf _ _ _ Hl Hq).
  - pose proof (lookup_lt_Some _ _ _ Hl) as Hlen.
    rewrite length_app in Hlen. cbn [length] in Hlen.
    assert (l = length (heap w)) as -> by lia.
    rewrite list_lookup_middle in Hl by reflexivity. injection Hl as <-.
    destruct (Hp q Hq) as [ps Hps]. by apply lookup_lt_Some in Hps.
Qed.

(** Worlds built by the constructor keep parents before children. *)
Lemma init_preserves_wf name description msg parent re roe pf w :
  wf_heap (heap w) → (∀ p, parent = Some p → is_Some (heap w !! p)) →
  wf_heap (heap (__init__ name description msg parent re roe pf w).2).
Proof.
  intros Hwf Hp. rewrite (init_run _ _ _ _ _ _ _ _ Hp). cbn [snd heap set_heap].
  apply init_wf; [exact Hwf | exact Hp].
Qed.

(** C4, as the code has it.  The constructor does not look at
    [result_on_exception]: for any value it returns the new instance,
    which holds the value as given, and calls no handler.  A value
    outside the status set is refused only when it becomes the result of
    a finish event, that is when the scope is left on an exception with
    reporting enabled: [FinishReportingEvent] then raises [ValueError]
    before the finish event reaches a handler.  With reporting disabled
    it is never checked. *)
Theorem result_on_exception_checked_only_at_exit
    name description msg parent re roe pf w :
  (∀ p, parent = Some p → is_Some (heap w !! p)) →
  let self := length (heap w) in
  let w' := (__init__ name description msg parent re roe pf w).2 in
  (__init__ name description msg parent re roe pf w).1 = Ret self ∧
  published w' = published w ∧
  (∃ s, heap w' !! self = Some s ∧ Stack.result_on_exception s = roe) ∧
  (∀ w2 s e,
     wf_heap (heap w2) → heap w2 !! self = Some s →
     Stack.result_on_exception s = roe →
     e ≠ SystemExit (VInt 0) → _nameset.contains status roe = false →
     (Stack.reporting_enabled s = true →
        __exit__ self (Some e) w2
        = (Raise (ValueError "Invalid result: %s" roe),
           parent_recorded s (roe, message s) w2)) ∧
     (Stack.reporting_enabled s = false →
        __exit__ self (Some e) w2
        = (Ret VNone, parent_recorded s (roe, message s) w2))).
Proof.
  intros Hp. cbn zeta. rewrite (init_run _ _ _ _ _ _ _ _ Hp). cbn [fst snd].
  split; [reflexivity|]. split; [reflexivity|]. split.
  - eexists. split.
    + cbn [heap set_heap]. apply list_lookup_middle. reflexivity.
    + reflexivity.
  - intros w2 s e Hwf Hs Hroe He Hbad.
    rewrite (exit_run _ _ _ _ Hwf Hs). cbn zeta.
    rewrite (finish_info_exception s e He), Hroe. cbn [fst snd].
    split; intros ->; [|reflexivity].
    rewrite bind_run.
    rewrite (report_finish_of_stack s (roe, message s)). cbn [fst snd].
    rewrite Hbad. reflexivity.
Qed.

End Scope.

(** ** Timestamps *)

(** C3, on the code.  The default of the [timestamp] parameter is
    evaluated when the module is imported: an event constructed without
    a timestamp [d] seconds later carries the time of the import, not
    the time [clock + d] of its construction.  A finish event, whose
    constructor passes no timestamp on, always does. *)
Theorem default_timestamp_is_import_time (w : World) (d : Z)
    (event_type name : string) (description : PyVal) (origin : option string) :
  ((import_events ;;
    sleep d ;;
    event ← ReportingEvent.__init__ event_type name description origin None;
    now ← time_time;
    ret (EventObj.timestamp event, now)) w).1
  = Ret (clock w, clock w + d) ∧
  ((import_events ;;
    sleep d ;;
    event ← FinishReportingEvent.__init__ name description SUCCESS None;
    now ← time_time;
    ret (EventObj.timestamp (FinishObj.super event), now)) w).1
  = Ret (clock w, clock w + d).
Proof.
  assert (Hok : _nameset.contains status SUCCESS = true)
    by (apply status_contains; by left).
  split; [reflexivity|].
  change (fst ((FinishReportingEvent.__init__ name description SUCCESS None
                ≫= (fun event =>
                      time_time ≫= (fun now =>
                        ret (EventObj.timestamp (FinishObj.super event), now))))
                 (set_clock (clock w + d) (set_default_timestamp (clock w) w)))
          = Ret (clock w, clock w + d)).
  rewrite (bind_ret_run _ _ _ _ _ (finish_init_valid _ _ _ _ _ Hok)).
  reflexivity.
Qed.

(** ** Serialisation of finish events *)

Ltac div_lia := zify; Z.to_euclidean_division_equations; lia.

Lemma b64_index_char (i : N) : (i < 64)%N → b64_index (b64_char i) = Some i.
Proof.
  intros H.
  assert (Hall : forallb (fun k => bool_decide (b64_index (b64_char (N.of_nat k))
                                         = Some (N.of_nat k))) (seq 0 64) = true)
    by (vm_compute; reflexivity).
  rewrite forallb_forall in Hall.
  specialize (Hall (N.to_nat i)).
  rewrite N2Nat.id in Hall. eapply bool_decide_eq_true_1, Hall.
  apply in_seq. lia.
Qed.

Lemma b64_char_not_pad (i : N) : (i < 64)%N → Ascii.eqb (b64_char i) b64_pad = false.
Proof.
  intros H.
  assert (Hall : forallb (fun k => negb (Ascii.eqb (b64_char (N.of_nat k)) b64_pad))
                   (seq 0 64) = true)
    by (vm_compute; reflexivity).
  rewrite forallb_forall in Hall.
  specialize (Hall (N.to_nat i)).
  rewrite N2Nat.id in Hall. apply negb_true_iff, Hall.
  apply in_seq. lia.
Qed.

Lemma b64_group_bytes (a b c : byte) (k : nat) :
  let n := (Byte.to_N a * 65536 + Byte.to_N b * 256 + Byte.to_N c)%N in
  b64_group (n / 262144) (n / 4096 mod 64) (n / 64 mod 64) (n mod 64) k
  = Some (take k [a; b; c]).
Proof.
  cbn zeta. unfold b64_group.
  pose proof (Byte.to_N_bounded a). pose proof (Byte.to_N_bounded b).
  pose proof (Byte.to_N_bounded c).
  set (n := (Byte.to_N a * 65536 + Byte.to_N b * 256 + Byte.to_N c)%N).
  assert (Hn : (n / 262144 * 262144 + n / 4096 mod 64 * 4096 + n / 64 mod 64 * 64
                + n mod 64 = n)%N) by div_lia.
  rewrite Hn.
  replace (n / 65536)%N with (Byte.to_N a) by (subst n; div_lia).
  replace (n / 256 mod 256)%N with (Byte.to_N b) by (subst n; div_lia).
  replace (n mod 256)%N with (Byte.to_N c) by (subst n; div_lia).
  rewrite !Byte.of_to_N. reflexivity.
Qed.

Lemma triples_ind {A : Type} (P : list A → Prop) :
  P [] → (∀ a, P [a]) → (∀ a b, P [a; b]) →
  (∀ a b c rest, P rest → P (a :: b :: c :: rest)) →
  ∀ l, P l.
Proof.
  intros H0 H1 H2 H3.
  assert (H : ∀ l, P l ∧ (∀ a, P (a :: l)) ∧ (∀ a b, P (a :: b :: l))).
  { induction l as [|x l (IH0 & IH1 & IH2)].
    - repeat split; auto.
    - split; [apply IH1|]. split; [intros a; apply IH2|].
      intros a b. by apply H3. }
  intros l. apply H.
Qed.

(** The text [b64encode] produces decodes to the bytes it was given. *)
Lemma b64decode_b64encode (data : list byte) :
  b64decode (b64encode data) = Some data.
Proof.
  induction data as [|a|a b|a b c rest IH] using triples_ind.
  - reflexivity.
  - pose proof (Byte.to_N_bounded a).
    cbn [b64encode b64decode].
    rewrite !b64_index_char by div_lia. cbn [mbind option_bind].
    rewrite Ascii.eqb_refl.
    pose proof (b64_group_bytes a x00 x00 1) as Hg. cbn zeta in Hg.
    change (Byte.to_N x00) with 0%N in Hg.
    replace (Byte.to_N a * 65536 + 0 * 256 + 0)%N with (Byte.to_N a * 65536)%N in Hg by div_lia.
    replace ((Byte.to_N a * 65536) / 64 mod 64)%N with 0%N in Hg by div_lia.
    replace ((Byte.to_N a * 65536) mod 64)%N with 0%N in Hg by div_lia.
    exact Hg.
  - pose proof (Byte.to_N_bounded a). pose proof (Byte.to_N_bounded b).
    cbn [b64encode b64decode].
    rewrite !b64_index_char by div_lia. cbn [mbind option_bind].
    rewrite Ascii.eqb_refl, b64_char_not_pad by div_lia.
    rewrite ?b64_index_char by div_lia. cbn [mbind option_bind].
    pose proof (b64_group_bytes a b x00 2) as Hg. cbn zeta in Hg.
    change (Byte.to_N x00) with 0%N in Hg.
    replace (Byte.to_N a * 65536 + Byte.to_N b * 256 + 0)%N
      with (Byte.to_N a * 65536 + Byte.to_N b * 256)%N in Hg by div_lia.
    replace ((Byte.to_N a * 65536 + Byte.to_N b * 256) mod 64)%N with 0%N in Hg by div_lia.
    exact Hg.
  - pose proof (Byte.to_N_bounded a). pose proof (Byte.to_N_bounded b).
    pose proof (Byte.to_N_bounded c).
    cbn [b64encode b64decode].
    rewrite !b64_index_char by div_lia. cbn [mbind option_bind].
    rewrite b64_char_not_pad by div_lia.
    rewrite ?b64_index_char by div_lia. cbn [mbind option_bind].
    pose proof (b64_group_bytes a b c 3) as Hg. cbn zeta in Hg.
    rewrite Hg, IH. reflexivity.
Qed.

Lemma collect_loop (fs : FileSystem) (files : list string) (acc : list JVal) :
  fold_left (fun ret fname => (ret ++ [file_info fs fname])%list) files acc
  = (acc ++ map (file_info fs) files)%list.
Proof.
  revert acc. induction files as [|f files IH]; intros acc; simpl.
  - by rewrite app_nil_r.
  - rewrite IH, <- app_assoc. reflexivity.
Qed.

Lemma collect_file_info_map (fs : FileSystem) (files : list string) :
  files ≠ [] → _collect_file_info fs files = JList (map (file_info fs) files).
Proof.
  intros H. unfold _collect_file_info. destruct files; [contradiction|].
  by rewrite collect_loop.
Qed.

(** C7.  [as_dict] of a finish event has the key [files] exactly when
    [post_files] is not empty.  Its value then has one entry per path, in
    order: the path, the content, and the encoding ["base64"], where the
    content is null for a path that is not a regular file and the base64
    text of the file's bytes otherwise, from which the decoder gives the
    bytes back; the bytes [b"hi"] give ["aGk="]. *)
Theorem as_dict_files (fs : FileSystem) (self : FinishObj.t) :
  let data := FinishReportingEvent.as_dict fs self in
  let files := FinishObj.post_files self in
  (is_Some (dict_get "files" data) ↔ files ≠ []) ∧
  (files ≠ [] →
     ∃ entries,
       dict_get "files" data = Some (JList entries) ∧
       length entries = length files ∧
       ∀ (i : nat) (path : string),
         files !! i = Some path →
         entries !! i
         = Some (JDict [("path", JStr path);
                        ("content",
                         match fs path with
                         | Some bytes => JStr (b64encode bytes)
                         | None => JNull
                         end);
                        ("encoding", JStr "base64")]) ∧
         ∀ bytes, fs path = Some bytes →
                  b64decode (b64encode bytes) = Some bytes) ∧
  (∀ path, files = [path] → fs path = Some [x68; x69] →
     dict_get "files" data
     = Some (JList [JDict [("path", JStr path); ("content", JStr "aGk=");
                           ("encoding", JStr "base64")]])).
Proof.
  cbn zeta. unfold FinishReportingEvent.as_dict.
  destruct (FinishObj.post_files self) as [|f files] eqn:Hf.
  - split; [|split].
    + split; [|congruence]. intros [v Hv]. cbn in Hv. discriminate Hv.
    + congruence.
    + discriminate.
  - split; [|split].
    + split; [discriminate|]. intros _. rewrite dict_get_set. by eexists.
    + intros _. exists (map (file_info fs) (f :: files)).
      rewrite dict_get_set, collect_file_info_map by discriminate.
      split; [reflexivity|]. split; [apply length_map|].
      intros i path Hi. split; [|intros bytes _; apply b64decode_b64encode].
      rewrite list_lookup_fmap, Hi. cbn [fmap option_fmap option_map].
      unfold file_info. destruct (fs path); reflexivity.
    + intros path Hpath Hfs. injection Hpath as -> ->.
      rewrite dict_get_set. unfold _collect_file_info, file_info.
      cbn [fold_left app]. rewrite Hfs. reflexivity.
Qed.

(** ** The message property *)

Section Message.

Import ReportEventStack.

Lemma set_description_run w self s d :
  heap w !! self = Some s →
  set_description self d w
  = (Ret tt, set_heap (<[self := Stack.set_description d s]> (heap w)) w).
Proof. apply update_run. Qed.

Lemma set_message_run w self s v :
  heap w !! self = Some s →
  set_message self v w
  = (Ret tt, set_heap (<[self := Stack.set__message v s]> (heap w)) w).
Proof. apply update_run. Qed.

Lemma get_message_run w self s :
  heap w !! self = Some s → get_message self w = (Ret (message s), w).
Proof.
  intros Hs. unfold get_message.
  rewrite (bind_ret_run _ _ _ _ _ (deref_run _ _ _ Hs)). reflexivity.
Qed.

Lemma lookup_updated w self s s' :
  heap w !! self = Some s →
  heap (set_heap (<[self := s']> (heap w)) w) !! self = Some s'.
Proof.
  intros Hs. cbn [heap set_heap]. apply list_lookup_insert_eq.
  by apply lookup_lt_Some in Hs.
Qed.

Lemma last_nonempty {A : Type} (l : list A) (x a b : A) :
  List.last (x :: l) a = List.last (x :: l) b.
Proof.
  revert x. induction l as [|y l IH]; intros x; [reflexivity|].
  change (List.last (y :: l) a = List.last (y :: l) b). apply IH.
Qed.

Lemma set_descriptions_run ds : ∀ w self s,
  heap w !! self = Some s →
  ∃ w', set_descriptions self ds w = (Ret tt, w') ∧
        heap w' !! self
        = Some (Stack.set_description (List.last ds (Stack.description s)) s).
Proof.
  induction ds as [|d ds IH]; intros w self s Hs.
  - exists w. split; [reflexivity|]. cbn [List.last]. rewrite Hs. by destruct s.
  - unfold set_descriptions. cbn [for_].
    rewrite (bind_ret_run _ _ _ _ _ (set_description_run _ _ _ d Hs)).
    destruct (IH _ self _ (lookup_updated w self s (Stack.set_description d s) Hs))
      as (w' & Hrun & Hl).
    exists w'. split; [exact Hrun|]. rewrite Hl.
    destruct ds as [|d' ds']; [reflexivity|].
    change (List.last (d :: d' :: ds') (Stack.description s))
      with (List.last (d' :: ds') (Stack.description s)).
    rewrite (last_nonempty ds' d' (Stack.description (Stack.set_description d s))
               (Stack.description s)).
    reflexivity.
Qed.

(** C8, as the code has it.  While the stored message is [None], as the
    constructor leaves it when no message is given, [message] is the
    current [description], whatever was assigned to [description] in the
    meantime.  After a value other than [None] is assigned to [message],
    [message] is that value, whatever is assigned to [description]
    afterwards.  Assigning [None] to [message] brings the fall-back to
    [description] back. *)
Theorem message_defaults_to_live_description w self s (ds : list PyVal) (v : PyVal) :
  heap w !! self = Some s →
  (Stack._message s = VNone →
     ((set_descriptions self ds ;; get_message self) w).1
     = Ret (List.last ds (Stack.description s))) ∧
  (v ≠ VNone →
     ((set_message self v ;; set_descriptions self ds ;; get_message self) w).1
     = Ret v) ∧
  ((set_message self VNone ;; set_descriptions self ds ;; get_message self) w).1
  = Ret (List.last ds (Stack.description s)).
Proof.
  intros Hs.
  assert (Hgen : ∀ w0 s0, heap w0 !! self = Some s0 →
            ((set_descriptions self ds ;; get_message self) w0).1
            = Ret (if is_not_None (Stack._message s0) then Stack._message s0
                   else List.last ds (Stack.description s0))).
  { intros w0 s0 Hs0. destruct (set_descriptions_run ds w0 self s0 Hs0) as (w' & Hrun & Hl).
    rewrite (bind_ret_run _ _ _ _ _ Hrun), (get_message_run _ _ _ Hl).
    reflexivity. }
  split; [|split].
  - intros Hm. rewrite (Hgen w s Hs), Hm. reflexivity.
  - intros Hv. rewrite (bind_ret_run _ _ _ _ _ (set_message_run _ _ _ v Hs)).
    rewrite (Hgen _ _ (lookup_updated w self s _ Hs)).
    cbn [Stack._message Stack.set__message]. by destruct v.
  - rewrite (bind_ret_run _ _ _ _ _ (set_message_run _ _ _ VNone Hs)).
    rewrite (Hgen _ _ (lookup_updated w self s _ Hs)). reflexivity.
Qed.

End Message.

(** ** The sample world *)

Example sample_setup_run :
  sample_setup (world_at 100) = (Ret (0%nat, 1%nat), sample_world).
Proof. reflexivity. Qed.

Lemma wf_two (s0 s1 : Stack.t) :
  Stack.parent s0 = None → Stack.parent s1 = Some 0%nat → wf_heap [s0; s1].
Proof.
  intros H0 H1 l s p Hl Hp. destruct l as [|[|l]]; simpl in Hl.
  - injection Hl as <-. congruence.
  - injection Hl as <-. rewrite H1 in Hp. injection Hp as <-. lia.
  - discriminate Hl.
Qed.

Lemma sample_wf : wf_heap (heap sample_world).
Proof. apply wf_two; reflexivity. Qed.

Example b64_rfc4648_vectors :
  b64encode [] = "" ∧
  b64encode [x66] = "Zg==" ∧
  b64encode [x66; x6f] = "Zm8=" ∧
  b64encode [x66; x6f; x6f] = "Zm9v" ∧
  b64encode [x66; x6f; x6f; x62] = "Zm9vYg==" ∧
  b64encode [x66; x6f; x6f; x62; x61] = "Zm9vYmE=" ∧
  b64encode [x66; x6f; x6f; x62; x61; x72] = "Zm9vYmFy" ∧
  b64encode [xff; xff; xfe] = "///+".
Proof. repeat split; reflexivity. Qed.

(** ** The statements on the sample world *)

Section Instances.

Import ReportEventStack.

Lemma quiet_sample (event : Event) : quiet event (registered_items sample_world).
Proof. repeat constructor. Qed.

Lemma normal_exit_rolls_up_children_witness :
  records FAIL sample_kids ∧
  _finish_info sample_used_root None = (FAIL, VStr "installing") ∧
  _finish_info sample_root None = (SUCCESS, VStr "installing") ∧
  _finish_info
    (Stack.set_children
       [("partitioning", (FAIL, VStr "partitioning disks"));
        ("format", (WARN, VStr "slow disk")); ("grub", (VNone, VNone))]
       sample_used_root) None
  = (FAIL, VStr "installing").
Proof.
  assert (H : records FAIL (Stack.children sample_used_root)).
  { exists "partitioning", (VStr "partitioning disks"). repeat constructor. }
  split; [exact H|].
  destruct (normal_exit_rolls_up_children sample_used_root) as (H1 & _ & _ & _ & H5).
  destruct (normal_exit_rolls_up_children sample_root) as (_ & _ & _ & H4 & _).
  split; [exact (H1 H)|]. split; [exact (H4 (Forall_nil_2 _))|].
  rewrite (H5 _ (perm_swap _ _ _)). exact (H1 H).
Defined.

Lemma body_exception_propagates_unless_exit_raises_witness :
  _finish_info sample_root (Some disk_full) = (FAIL, VStr "installing") ∧
  (with_ 0%nat (raise disk_full) sample_world).1 = Raise disk_full ∧
  published (with_ 0%nat (raise disk_full) sample_world).2
  = (calls (start_event_of sample_root sample_world)
       (registered_items sample_world) ++
     calls (finish_event_of sample_root (FAIL, VStr "installing") sample_world)
       (registered_items sample_world))%list ∧
  (with_ 0%nat (raise disk_full) finish_fault_world).1
  = Raise (Exception "connection refused") ∧
  with_ 0%nat (raise disk_full) bogus_world
  = (Raise (ValueError "Invalid result: %s" (VStr "BOGUS")),
     (__enter__ 0%nat bogus_world).2).
Proof.
  set (w1 := (__enter__ 0%nat sample_world).2).
  set (w2 := (__enter__ 0%nat finish_fault_world).2).
  set (w3 := (__enter__ 0%nat bogus_world).2).
  assert (Hwf1 : wf_heap (heap w1)) by (apply wf_two; reflexivity).
  assert (Hwf2 : wf_heap (heap w2)) by (apply wf_two; reflexivity).
  assert (Hwf3 : wf_heap (heap w3)).
  { intros l s p Hl Hp. destruct l as [|l]; [|discriminate Hl].
    injection Hl as <-. discriminate Hp. }
  destruct (body_exception_propagates_unless_exit_raises w1 0%nat sample_root
              disk_full Hwf1 eq_refl) as (H1 & _ & _ & H4 & _ & _ & H7).
  destruct (body_exception_propagates_unless_exit_raises w2 0%nat sample_root
              disk_full Hwf2 eq_refl) as (_ & _ & _ & _ & _ & G6 & G7).
  destruct (body_exception_propagates_unless_exit_raises w3 0%nat bogus_root
              disk_full Hwf3 eq_refl) as (_ & _ & _ & _ & K5 & _ & K7).
  split; [apply H1; discriminate|].
  destruct (H7 sample_world w1 (raise disk_full) eq_refl eq_refl)
    as (_ & Hprop & _ & _).
  rewrite (Hprop VNone _ (H4 eq_refl eq_refl (quiet_sample _))).
  split; [reflexivity|]. split; [reflexivity|]. split.
  - destruct (G7 finish_fault_world w2 (raise disk_full) eq_refl eq_refl)
      as (_ & _ & Hrepl & _).
    rewrite (Hrepl _ _ (G6 eq_refl eq_refl [("console", console)] "webhook"
                          webhook_finish_down [("journal", console)]
                          (Exception "connection refused") eq_refl
                          ltac:(repeat constructor) eq_refl)).
    reflexivity.
  - destruct (K7 bogus_world w3 (raise disk_full) eq_refl eq_refl)
      as (_ & _ & Hrepl & _).
    rewrite (Hrepl _ _ (K5 eq_refl eq_refl)). reflexivity.
Defined.

(** The scope of C2 on two worlds where the body's exception does not
    come out of the [with] statement: a handler that raises on the finish
    event, and a [result_on_exception] that is no status, for which no
    finish event is dispatched at all. *)
Lemma exit_failure_replaces_body_exception :
  disk_full ≠ SystemExit (VInt 0) ∧
  (with_ 0%nat (raise disk_full) finish_fault_world).1
  = Raise (Exception "connection refused") ∧
  (with_ 0%nat (raise disk_full) finish_fault_world).1 ≠ Raise disk_full ∧
  (with_ 0%nat (raise disk_full) bogus_world).1
  = Raise (ValueError "Invalid result: %s" (VStr "BOGUS")) ∧
  (with_ 0%nat (raise disk_full) bogus_world).1 ≠ Raise disk_full ∧
  published (with_ 0%nat (raise disk_full) bogus_world).2
  = calls (start_event_of bogus_root bogus_world) (registered_items bogus_world).
Proof. repeat split; try reflexivity; discriminate. Qed.

Lemma construction_accepts_invalid_result_on_exception :
  _nameset.contains status (VStr "BOGUS") = false ∧
  (__init__ "install" (VStr "installing") VNone None None (VStr "BOGUS") None
     (world_at 100)).1 = Ret 0%nat ∧
  ((register_item "console" console ;;
    root ← __init__ "install" (VStr "installing") VNone None None
             (VStr "BOGUS") None;
    with_ root (raise disk_full)) (world_at 100)).1
  = Raise (ValueError "Invalid result: %s" (VStr "BOGUS")) ∧
  published
    ((register_item "console" console ;;
      root ← __init__ "install" (VStr "installing") VNone None None
               (VStr "BOGUS") None;
      with_ root (raise disk_full)) (world_at 100)).2
  = [("console",
      Reporting (EventObj.mk START_EVENT_TYPE "install" (VStr "installing")
                   DEFAULT_EVENT_ORIGIN 0))].
Proof. repeat split; reflexivity. Qed.

Lemma result_on_exception_checked_only_at_exit_witness :
  let w' := (__init__ "grub" (VStr "installing grub") VNone (Some 0%nat) None
               (VStr "BOGUS") None sample_world).2 in
  (__init__ "grub" (VStr "installing grub") VNone (Some 0%nat) None
     (VStr "BOGUS") None sample_world).1 = Ret 2%nat ∧
  published w' = [] ∧
  (__exit__ 2%nat (Some disk_full) w').1
  = Raise (ValueError "Invalid result: %s" (VStr "BOGUS")) ∧
  published (__exit__ 2%nat (Some disk_full) w').2 = [].
Proof.
  assert (Hp : ∀ p, Some 0%nat = Some p → is_Some (heap sample_world !! p)).
  { intros p [= <-]. by eexists. }
  destruct (result_on_exception_checked_only_at_exit "grub"
              (VStr "installing grub") VNone (Some 0%nat) None (VStr "BOGUS") None
              sample_world Hp) as (H1 & H2 & _ & H4).
  cbn zeta in *. split; [exact H1|]. split; [exact H2|].
  set (w' := (__init__ "grub" (VStr "installing grub") VNone (Some 0%nat) None
                (VStr "BOGUS") None sample_world).2) in *.
  assert (Hwf : wf_heap (heap w')).
  { apply (init_wf sample_world); [exact sample_wf|].
    intros p [= <-]. by eexists. }
  destruct (H4 w' _ disk_full Hwf eq_refl eq_refl ltac:(discriminate) eq_refl)
    as [Hen _].
  change (length (heap sample_world)) with 2%nat in Hen.
  rewrite (Hen eq_refl). split; reflexivity.
Defined.

Lemma report_event_delivers_in_order_witness :
  let event := start_event_of sample_root sample_world in
  published (report_event event sample_world).2
  = [("console", event); ("journal", event)] ∧
  report_event event faulty_world
  = (Raise (Exception "connection refused"),
     set_published [("console", event); ("webhook", event)] faulty_world) ∧
  published ((register_item "syslog" console ;; report_event event) sample_world).2
  = [("console", event); ("journal", event); ("syslog", event)].
Proof.
  cbn zeta. set (event := start_event_of sample_root sample_world).
  destruct (report_event_delivers_in_order event sample_world) as (H1 & H2 & _).
  destruct (report_event_delivers_in_order event faulty_world) as (_ & _ & H3).
  split; [|split].
  - rewrite (H1 (quiet_sample _)). reflexivity.
  - rewrite (H3 [("console", console)] "webhook" webhook_down
               [("journal", console)] (Exception "connection refused")
               eq_refl ltac:(repeat constructor) eq_refl).
    reflexivity.
  - rewrite (H2 "syslog" console eq_refl (quiet_sample _) eq_refl). reflexivity.
Defined.

Lemma finish_event_validates_result_witness :
  report_finish_event "install" (VStr "installing") (VStr "BOGUS") None sample_world
  = (Raise (ValueError "Invalid result: %s" (VStr "BOGUS")), sample_world) ∧
  ∃ event,
    FinishObj.result event = WARN ∧
    published (report_finish_event "install" (VStr "installing") WARN None
                 sample_world).2
    = [("console", Finish event); ("journal", Finish event)].
Proof.
  destruct (finish_event_validates_result "install" (VStr "installing")
              (VStr "BOGUS") None sample_world) as [Hbad _].
  destruct (finish_event_validates_result "install" (VStr "installing")
              WARN None sample_world) as [_ Hgood].
  split.
  - apply Hbad. repeat split; discriminate.
  - destruct (Hgood (or_intror (or_introl eq_refl)))
      as (event & _ & Hres & _ & _ & _ & Hpub).
    exists event. split; [exact Hres|].
    rewrite (Hpub (quiet_sample _)). reflexivity.
Defined.

Lemma as_dict_files_witness :
  dict_get "files" (FinishReportingEvent.as_dict sample_fs sample_finish)
  = Some (JList
            [JDict [("path", JStr "/var/log/part.log"); ("content", JStr "aGk=");
                    ("encoding", JStr "base64")];
             JDict [("path", JStr "/var/log/missing.log"); ("content", JNull);
                    ("encoding", JStr "base64")]]) ∧
  is_Some (dict_get "files" (FinishReportingEvent.as_dict sample_fs sample_finish)).
Proof.
  destruct (as_dict_files sample_fs sample_finish) as (H1 & H2 & _).
  cbn zeta in *. split; [|apply H1; discriminate].
  destruct (H2 ltac:(discriminate)) as (entries & -> & Hlen & Hent).
  pose proof (proj1 (Hent 0%nat _ eq_refl)) as E0.
  pose proof (proj1 (Hent 1%nat _ eq_refl)) as E1.
  destruct entries as [|e0 [|e1 [|e2 entries]]]; try discriminate Hlen.
  injection E0 as ->. injection E1 as ->. reflexivity.
Defined.

Lemma message_set_to_None_falls_back :
  ((set_message 0%nat (VStr "done") ;; set_message 0%nat VNone ;;
    get_message 0%nat) sample_world).1 = Ret (VStr "installing") ∧
  ((set_message 0%nat (VStr "done") ;; set_message 0%nat VNone ;;
    get_message 0%nat) sample_world).1 ≠ Ret VNone ∧
  ((set_message 0%nat VNone ;; set_description 0%nat (VStr "later") ;;
    get_message 0%nat) sample_world).1 = Ret (VStr "later").
Proof. repeat split; try reflexivity. discriminate. Qed.

Lemma message_defaults_to_live_description_witness :
  ((set_descriptions 0%nat [VStr "formatting"; VStr "mounting"] ;;
    get_message 0%nat) sample_world).1 = Ret (VStr "mounting") ∧
  ((set_message 0%nat (VStr "done") ;;
    set_descriptions 0%nat [VStr "formatting"; VStr "mounting"] ;;
    get_message 0%nat) sample_world).1 = Ret (VStr "done").
Proof.
  destruct (message_defaults_to_live_description sample_world 0%nat sample_root
              [VStr "formatting"; VStr "mounting"] (VStr "done") eq_refl)
    as (H1 & H2 & _).
  split; [exact (H1 eq_refl) | apply H2; discriminate].
Defined.

Lemma enter_keeps_children_witness :
  result sample_reused_root = WARN ∧
  (__enter__ 0%nat reused_world).1 = Ret 0%nat ∧
  (∃ s', heap (__enter__ 0%nat reused_world).2 !! 0%nat = Some s' ∧
         result s' = SUCCESS ∧
         Stack.children s' = Stack.children sample_reused_root ∧
         _finish_info s' None = (FAIL, VStr "installing")) ∧
  (__enter__ 1%nat reused_world).1 = Ret 1%nat ∧
  (∃ ps', heap (__enter__ 1%nat reused_world).2 !! 0%nat = Some ps' ∧
          dict_get "partitioning" (Stack.children ps') = Some (VNone, VNone) ∧
          dict_get "format" (Stack.children ps') = Some (WARN, VStr "slow disk") ∧
          result ps' = WARN) ∧
  ∃ c', heap (__enter__ 1%nat reused_world).2 !! 1%nat = Some c' ∧
        result c' = SUCCESS ∧ _finish_info c' None = (SUCCESS, VStr "partitioning disks").
Proof.
  assert (Hwf : wf_heap (heap reused_world)) by (apply wf_two; reflexivity).
  destruct (enter_keeps_children reused_world 0%nat sample_reused_root Hwf eq_refl)
    as (H1 & H2 & _ & _ & H5).
  destruct (enter_keeps_children reused_world 1%nat sample_reused_child Hwf eq_refl)
    as (G1 & G2 & G3 & _ & G5).
  cbn zeta in *.
  split; [reflexivity|].
  split; [apply H2; right; repeat constructor|].
  split.
  { destruct H1 as (s' & Hs' & Hres & _ & _ & _ & _ & _ & _ & _ & _ & Hkids).
    exists s'. split; [exact Hs'|]. split; [exact Hres|]. split; [exact Hkids|].
    destruct (H5 s' Hs') as (_ & Hroll & _).
    apply Hroll; [by left | | by right].
    exists "partitioning", (VStr "partitioning disks"). repeat constructor. }
  split; [apply G2; by left|].
  split.
  { destruct (G3 (G2 (or_introl eq_refl)) 0%nat sample_reused_root eq_refl eq_refl)
      as (_ & ps' & Hps' & Hget & Hother & Hres).
    exists ps'. split; [exact Hps'|]. split; [exact Hget|].
    split; [|exact Hres].
    rewrite (Hother "format") by discriminate. reflexivity. }
  destruct G1 as (c' & Hc' & Hres & _).
  exists c'. split; [exact Hc'|]. split; [exact Hres|].
  destruct (G5 c' Hc') as (_ & _ & Hown).
  apply Hown; apply records_nil.
Defined.


(** The whole scenario of C10 as a program: the child, with reporting
    disabled, fails inside the root's body, which catches the exception;
    the handlers see the root's start event and its finish event, with
    result [FAIL], and nothing of the child. *)
Example disabled_child_scenario :
  let body := with_ 1%nat (raise disk_full) in
  let run := with_ 0%nat (catch body ;; ret tt) sample_world in
  run.1 = Ret tt ∧
  published run.2
  = (calls (start_event_of sample_root sample_world)
       (registered_items sample_world) ++
     calls (finish_event_of sample_root (FAIL, VStr "installing") sample_world)
       (registered_items sample_world))%list.
Proof. split; reflexivity. Qed.

(** Two events built at different times, 50 and 75 seconds after the
    import at time 100, carry the same timestamp. *)
Example two_events_same_timestamp :
  ((import_events ;;
    sleep 50 ;;
    first ← ReportingEvent.__init__ START_EVENT_TYPE "a" (VStr "a") None None;
    sleep 25 ;;
    second ← ReportingEvent.__init__ START_EVENT_TYPE "b" (VStr "b") None None;
    now ← time_time;
    ret (EventObj.timestamp first, EventObj.timestamp second, now))
     (world_at 100)).1
  = Ret (100, 100, 175).
Proof. reflexivity. Qed.

End Instances.

(** * Further properties of the code *)

(** ** The shape of the world after entering and leaving *)

Section Shapes.

Import ReportEventStack.

Implicit Types (w : World) (self p : loc) (s ps : Stack.t) (e : Exn).

Lemma set_published_nil w : set_published (published w ++ [])%list w = w.
Proof. rewrite app_nil_r. apply set_published_same. Qed.

Lemma exit_world_shape w self s exc :
  wf_heap (heap w) → heap w !! self = Some s →
  ∃ tr, (__exit__ self exc w).2
        = set_published (published w ++ tr)%list
            (parent_recorded s (_finish_info s exc) w).
Proof.
  intros Hwf Hs. rewrite (exit_run _ _ _ _ Hwf Hs). cbn zeta.
  set (entry := _finish_info s exc). set (w1 := parent_recorded s entry w).
  assert (Hp : published w1 = published w) by apply parent_recorded_published.
  destruct (Stack.reporting_enabled s).
  - rewrite bind_run, report_finish_of_stack.
    destruct (_nameset.contains status entry.1).
    + destruct (report_event_world (finish_event_of s entry w1) w1) as (tr & Hw & _).
      exists tr. rewrite <- Hp.
      destruct (report_event (finish_event_of s entry w1) w1) as [[[]|exn|] w2];
        cbn [snd] in *; exact Hw.
    + exists []. rewrite <- Hp. cbn [snd]. by rewrite set_published_nil.
  - exists []. rewrite <- Hp. cbn [snd]. by rewrite set_published_nil.
Qed.

Lemma enter_world_shape w self s :
  wf_heap (heap w) → heap w !! self = Some s →
  let s1 := Stack.set__result SUCCESS s in
  let w1 := set_heap (<[self := s1]> (heap w)) w in
  ∃ tr,
    ((__enter__ self w).1 = Ret self ∧
     (__enter__ self w).2
     = parent_recorded s1 (VNone, VNone) (set_published (published w ++ tr)%list w1))
    ∨ ((∃ exn, (__enter__ self w).1 = Raise exn) ∧
       (__enter__ self w).2 = set_published (published w ++ tr)%list w1).
Proof.
  intros Hwf Hs. cbn zeta. rewrite (enter_run _ _ _ Hwf Hs). cbn zeta.
  set (s1 := Stack.set__result SUCCESS s).
  set (w1 := set_heap (<[self := s1]> (heap w)) w).
  rewrite bind_run. destruct (Stack.reporting_enabled s).
  - destruct (report_event_world (start_event_of s w) w1) as (tr & Hw & Hns).
    exists tr.
    destruct (report_event (start_event_of s w) w1) as [[[]|exn|] w2];
      cbn [fst snd] in *.
    + left. rewrite bind_run. cbn [modify ret fst snd]. rewrite Hw. by split.
    + right. split; [by exists exn | exact Hw].
    + contradiction.
  - exists []. left. cbn [ret]. rewrite bind_run. cbn [modify ret fst snd].
    change (published w) with (published w1). by rewrite set_published_nil.
Qed.

Lemma parent_recorded_frame self s entry w :
  heap w !! self = Some s →
  scope_frame self s w (parent_recorded s entry w).
Proof.
  intros Hs. unfold scope_frame, parent_recorded.
  destruct (Stack.parent s) as [p|] eqn:Hp;
    [destruct (heap w !! p) as [ps|] eqn:Hps|];
    cbn [heap set_heap registered_items clock default_timestamp published];
    rewrite ?length_insert; repeat split; try reflexivity.
  intros l Hl Hlp. apply list_lookup_insert_ne. congruence.
Qed.

Lemma scope_frame_published self s w w' tr :
  scope_frame self s w w' →
  scope_frame self s w (set_published (published w' ++ tr)%list w').
Proof.
  intros (H1 & H2 & H3 & H4 & H5 & H6). repeat split; try assumption.
  cbn [published set_published]. destruct H5 as [k ->].
  exists (k ++ tr)%list. by rewrite app_assoc.
Qed.

End Shapes.

(** ** Status values and the result property *)

Section ResultProperty.

Import ReportEventStack.

Implicit Types (w : World) (self p : loc) (s ps : Stack.t) (e : Exn).


Lemma result_check_valid (v : PyVal) :
  _nameset.contains status v = true → result_check v = Ret v.
Proof. intros H. unfold result_check. by rewrite H. Qed.

Lemma result_check_invalid (v : PyVal) :
  _nameset.contains status v = false →
  result_check v = Raise (ValueError "'%s' not a valid result" v).
Proof. intros H. unfold result_check. by rewrite H. Qed.


(** X2.  Assigning a status to [result] stores it: the getter reads it
    back, the other attributes of the stack and every other object keep
    their values, and no handler is called.  Assigning anything else
    raises [ValueError] and changes nothing. *)
Theorem result_setter_stores_or_rejects w self s (value : PyVal) :
  heap w !! self = Some s →
  (_nameset.contains status value = true →
     (set_result self value w).1 = Ret tt ∧
     heap (set_result self value w).2 !! self
     = Some (Stack.set__result value s) ∧
     (∀ s', heap (set_result self value w).2 !! self = Some s' →
            result s' = value) ∧
     (∀ l, l ≠ self → heap (set_result self value w).2 !! l = heap w !! l) ∧
     published (set_result self value w).2 = published w) ∧
  (_nameset.contains status value = false →
     set_result self value w
     = (Raise (ValueError "'%s' not a valid result" value), w)).
Proof.
  intros Hs. split.
  - intros Hv. rewrite (set_result_run _ _ _ _ Hv Hs). cbn [fst snd].
    assert (Hl : heap (set_heap (<[self := Stack.set__result value s]> (heap w)) w)
                 !! self = Some (Stack.set__result value s))
      by (by apply lookup_updated with (s := s)).
    split; [reflexivity|]. split; [exact Hl|]. split; [|split].
    + intros s' Hs'. rewrite Hl in Hs'. by injection Hs' as <-.
    + intros l Hne. cbn [heap set_heap]. apply list_lookup_insert_ne. congruence.
    + reflexivity.
  - intros Hv. unfold set_result. rewrite bind_run.
    unfold of_outcome. by rewrite (result_check_invalid _ Hv).
Qed.

Lemma publish_loop_raises event items w exn :
  (for_ items (fun '(key, handler) => call_publish_event key handler event) w).1
  = Raise exn →
  ∃ kh, kh ∈ items ∧ publish_event kh.2 event = Some exn.
Proof.
  revert w. induction items as [|[key handler] items IH]; intros w H.
  - discriminate H.
  - cbn [for_] in H. rewrite bind_run, call_publish_event_run in H.
    destruct (publish_event handler event) as [exn'|] eqn:E.
    + cbn [fst] in H. injection H as ->. exists (key, handler).
      split; [left | exact E].
    + destruct (IH _ H) as (kh & Hin & Hkh). exists kh. split; [by right | exact Hkh].
Qed.

Lemma report_event_raises event w exn :
  (report_event event w).1 = Raise exn →
  ∃ kh, kh ∈ registered_items w ∧ publish_event kh.2 event = Some exn.
Proof.
  unfold report_event. rewrite bind_run. cbn [gets]. apply publish_loop_raises.
Qed.

Lemma scan_children_value cand items v :
  scan_children cand items = Some v → v = cand.
Proof.
  induction items as [|[name [value msg]] items IH]; [discriminate|].
  simpl. destruct (py_eq value cand) eqn:E; [|exact IH].
  apply py_eq_true in E. congruence.
Qed.

Lemma childrens_finish_info_result s :
  (_childrens_finish_info s).1 = FAIL ∨ (_childrens_finish_info s).1 = WARN ∨
  (_childrens_finish_info s).1 = result s.
Proof.
  unfold _childrens_finish_info. cbn [scan_candidates].
  destruct (scan_children FAIL (Stack.children s)) as [v|] eqn:EF.
  - left. cbn [fst]. by apply scan_children_value in EF.
  - destruct (scan_children WARN (Stack.children s)) as [v|] eqn:EW.
    + right; left. cbn [fst]. by apply scan_children_value in EW.
    + right; right. reflexivity.
Qed.

Lemma finish_info_result s exc :
  (_finish_info s exc).1 = FAIL ∨ (_finish_info s exc).1 = WARN ∨
  (_finish_info s exc).1 = result s ∨
  (_finish_info s exc).1 = Stack.result_on_exception s.
Proof.
  unfold _finish_info. destruct exc as [e|].
  - destruct (negb (is_clean_exit e)).
    + right; right; right. reflexivity.
    + destruct (childrens_finish_info_result s) as [H|[H|H]]; auto.
  - destruct (childrens_finish_info_result s) as [H|[H|H]]; auto.
Qed.

Lemma finish_info_message s exc : (_finish_info s exc).2 = message s.
Proof.
  unfold _finish_info, _childrens_finish_info.
  destruct exc as [e|]; [destruct (negb (is_clean_exit e))|];
    try reflexivity; by destruct (scan_candidates _ _).
Qed.

Lemma finish_info_valid s exc :
  _nameset.contains status (Stack.result_on_exception s) = true →
  _nameset.contains status (Stack._result s) = true →
  _nameset.contains status (_finish_info s exc).1 = true.
Proof.
  intros Hroe Hres.
  destruct (finish_info_result s exc) as [H|[H|[H|H]]]; rewrite H;
    [apply status_contains; auto | apply status_contains; auto | exact Hres
    | exact Hroe].
Qed.

(** X3.  With a status in [result_on_exception], the result that
    [__exit__] computes is a status whatever the [children] dict holds
    and however the body ended, so building the finish event never
    fails: an exception that leaves [__exit__] was raised by a handler,
    and when no handler raises, [__exit__] returns and every handler got
    the finish event. *)
Theorem exit_never_fails_validation w self s exc :
  wf_heap (heap w) → heap w !! self = Some s →
  _nameset.contains status (Stack.result_on_exception s) = true →
  _nameset.contains status (Stack._result s) = true →
  let entry := _finish_info s exc in
  _nameset.contains status entry.1 = true ∧
  entry.2 = message s ∧
  (∀ exn, (__exit__ self exc w).1 = Raise exn →
     ∃ kh, kh ∈ registered_items w ∧
           publish_event kh.2 (finish_event_of s entry w) = Some exn) ∧
  (quiet (finish_event_of s entry w) (registered_items w) →
     (__exit__ self exc w).1 = Ret VNone ∧
     published (__exit__ self exc w).2
     = (published w ++
        if Stack.reporting_enabled s
        then calls (finish_event_of s entry w) (registered_items w)
        else [])%list).
Proof.
  intros Hwf Hs Hroe Hres. cbn zeta.
  pose proof (finish_info_valid s exc Hroe Hres) as Hv.
  destruct (exit_completes w self s exc Hwf Hs) as [Hdis Hen].
  assert (Hq : quiet (finish_event_of s (_finish_info s exc) w) (registered_items w) →
               (__exit__ self exc w).1 = Ret VNone ∧
               published (__exit__ self exc w).2
               = (published w ++
                  if Stack.reporting_enabled s
                  then calls (finish_event_of s (_finish_info s exc) w)
                         (registered_items w)
                  else [])%list).
  { intros Hq. destruct (Stack.reporting_enabled s) eqn:E.
    - rewrite (Hen eq_refl Hv Hq). split; reflexivity.
    - rewrite (Hdis eq_refl). cbn [fst snd].
      rewrite parent_recorded_published, app_nil_r. split; reflexivity. }
  split; [exact Hv|]. split; [apply finish_info_message|]. split; [|exact Hq].
  intros exn Hexn. rewrite (exit_run _ _ _ _ Hwf Hs) in Hexn. cbn zeta in Hexn.
  destruct (Stack.reporting_enabled s); [|discriminate Hexn].
  rewrite bind_run, report_finish_of_stack, Hv, finish_event_of_recorded in Hexn.
  destruct (report_event_raises (finish_event_of s (_finish_info s exc) w)
              (parent_recorded s (_finish_info s exc) w) exn) as (kh & Hin & Hkh).
  - destruct (report_event _ _) as [[[]|exn'|] w2]; cbn [ret fst] in Hexn;
      try discriminate Hexn. cbn [fst]. congruence.
  - exists kh. split; [|exact Hkh]. by rewrite parent_recorded_registry in Hin.
Qed.

(** X4.  [__enter__] and [__exit__] create and drop no object, leave the
    registry, the clock and the stored default timestamp alone, only
    append to the trace of handler calls, and touch no object other than
    the stack and its parent. *)
Theorem enter_exit_frame w self s exc :
  wf_heap (heap w) → heap w !! self = Some s →
  scope_frame self s w (__enter__ self w).2 ∧
  scope_frame self s w (__exit__ self exc w).2.
Proof.
  intros Hwf Hs. split.
  - set (s1 := Stack.set__result SUCCESS s).
    set (w1 := set_heap (<[self := s1]> (heap w)) w).
    assert (Hs1 : heap w1 !! self = Some s1) by (by apply lookup_updated with (s := s)).
    assert (Hf1 : ∀ tr, scope_frame self s w (set_published (published w ++ tr)%list w1)).
    { intros tr. unfold scope_frame.
      cbn [heap set_heap set_published registered_items clock default_timestamp
           published w1].
      rewrite length_insert. repeat split; try reflexivity.
      - by exists tr.
      - intros l Hl _. apply list_lookup_insert_ne. congruence. }
    destruct (enter_world_shape w self s Hwf Hs) as (tr & [[_ ->] | [_ ->]]);
      fold s1 w1; [|apply Hf1].
    set (w2 := set_published (published w ++ tr)%list w1).
    assert (Hs2 : heap w2 !! self = Some s1) by exact Hs1.
    destruct (Hf1 tr) as (H1 & H2 & H3 & H4 & H5 & H6). fold w2 in H1, H2, H3, H4, H5, H6.
    destruct (parent_recorded_frame self s1 (VNone, VNone) w2 Hs2)
      as (G1 & G2 & G3 & G4 & G5 & G6).
    unfold scope_frame. rewrite G1, G2, G3, G4.
    repeat split; try assumption.
    + by etrans.
    + intros l Hl Hlp. rewrite (G6 l Hl Hlp). by apply H6.
  - destruct (exit_world_shape w self s exc Hwf Hs) as (tr & ->).
    rewrite <- (parent_recorded_published s (_finish_info s exc) w).
    apply scope_frame_published. by apply parent_recorded_frame.
Qed.

End ResultProperty.

(** ** Handler faults and the [with] statement *)

Section Faults.

Import ReportEventStack.

Implicit Types (w : World) (self p : loc) (s ps : Stack.t) (e : Exn)
  (pre post : list (string * Handler)).

(** X5.  When a handler raises on the start event, the [with] statement
    raises that exception at once: the handlers after it are not called,
    the body does not run, no finish event is dispatched and the parent
    is not told about the scope; all that has happened is that [result]
    was reset. *)
Theorem start_fault_skips_the_scope w self s pre key handler post exn
    (body body' : M unit) :
  wf_heap (heap w) → heap w !! self = Some s →
  Stack.reporting_enabled s = true →
  registered_items w = (pre ++ (key, handler) :: post)%list →
  quiet (start_event_of s w) pre →
  publish_event handler (start_event_of s w) = Some exn →
  (with_ self body w).1 = Raise exn ∧
  with_ self body' w = with_ self body w ∧
  published (with_ self body w).2
  = (published w ++ calls (start_event_of s w) pre
     ++ [(key, start_event_of s w)])%list ∧
  heap (with_ self body w).2 = <[self := Stack.set__result SUCCESS s]> (heap w).
Proof.
  intros Hwf Hs Hen Hitems Hq Hf.
  set (w1 := set_heap (<[self := Stack.set__result SUCCESS s]> (heap w)) w).
  assert (Henter : __enter__ self w
                   = (Raise exn,
                      set_published
                        (published w ++ calls (start_event_of s w) pre
                         ++ [(key, start_event_of s w)])%list w1)).
  { rewrite (enter_run _ _ _ Hwf Hs). cbn zeta. fold w1. rewrite Hen.
    rewrite (bind_raise_run _ _ _ _ _
               (report_event_fault (start_event_of s w) w1 pre key handler post
                  exn Hitems Hq Hf)).
    reflexivity. }
  assert (Hwith : ∀ b, with_ self b w
                       = (Raise exn,
                          set_published
                            (published w ++ calls (start_event_of s w) pre
                             ++ [(key, start_event_of s w)])%list w1)).
  { intros b. unfold with_. by rewrite (bind_raise_run _ _ _ _ _ Henter). }
  rewrite !Hwith. repeat split; reflexivity.
Qed.

(** X6.  When a handler raises on the finish event, [__exit__] raises
    that exception, after the outcome was written into the parent's
    [children]; the handlers after the failing one do not get the event,
    and a [with] statement whose body raised then raises the handler's
    exception, not the body's. *)
Theorem finish_fault_replaces_the_exception w self s exc pre key handler post exn :
  wf_heap (heap w) → heap w !! self = Some s →
  Stack.reporting_enabled s = true →
  let entry := _finish_info s exc in
  let event := finish_event_of s entry w in
  _nameset.contains status entry.1 = true →
  registered_items w = (pre ++ (key, handler) :: post)%list →
  quiet event pre → publish_event handler event = Some exn →
  __exit__ self exc w
  = (Raise exn,
     set_published (published w ++ calls event pre ++ [(key, event)])%list
       (parent_recorded s entry w)) ∧
  (∀ p ps, Stack.parent s = Some p → heap w !! p = Some ps →
     heap (__exit__ self exc w).2 !! p = Some (with_entry s entry ps)) ∧
  (∀ w0 w1 body e,
     exc = Some e → __enter__ self w0 = (Ret self, w1) →
     body w1 = (Raise e, w) → (with_ self body w0).1 = Raise exn).
Proof.
  intros Hwf Hs Hen. cbn zeta. intros Hv Hitems Hq Hf.
  set (entry := _finish_info s exc) in *.
  assert (Hexit : __exit__ self exc w
                  = (Raise exn,
                     set_published
                       (published w ++ calls (finish_event_of s entry w) pre
                        ++ [(key, finish_event_of s entry w)])%list
                       (parent_recorded s entry w))).
  { rewrite (exit_run _ _ _ _ Hwf Hs). cbn zeta. fold entry. rewrite Hen.
    rewrite bind_run, report_finish_of_stack, Hv, finish_event_of_recorded.
    rewrite (report_event_fault (finish_event_of s entry w)
               (parent_recorded s entry w) pre key handler post exn);
      [|by rewrite parent_recorded_registry | exact Hq | exact Hf].
    by rewrite parent_recorded_published. }
  split; [exact Hexit|]. split.
  - intros p ps Hp Hps. rewrite Hexit. cbn [snd heap set_published].
    by apply (parent_recorded_parent w self).
  - intros w0 w1 body e -> Henter Hbody. unfold with_.
    rewrite (bind_ret_run _ _ _ _ _ Henter). rewrite bind_run. unfold catch.
    rewrite Hbody. rewrite bind_run, Hexit. reflexivity.
Qed.

(** X7.  A [with] statement whose body returns puts one start event per
    handler on the trace when it is entered and one finish event per
    handler when it is left, around whatever the body published; the
    finish event is built from the stack as the body left it, and its
    result is the roll-up of the children recorded by then. *)
Theorem with_brackets_the_body w self s (body : M unit) w2 s2 :
  wf_heap (heap w) → heap w !! self = Some s →
  quiet (start_event_of s w) (registered_items w) →
  body (__enter__ self w).2 = (Ret tt, w2) →
  wf_heap (heap w2) → heap w2 !! self = Some s2 →
  _nameset.contains status (Stack._result s2) = true →
  let entry := _childrens_finish_info s2 in
  quiet (finish_event_of s2 entry w2) (registered_items w2) →
  (with_ self body w).1 = Ret tt ∧
  published (__enter__ self w).2
  = (published w ++
     if Stack.reporting_enabled s
     then calls (start_event_of s w) (registered_items w) else [])%list ∧
  published (with_ self body w).2
  = (published w2 ++
     if Stack.reporting_enabled s2
     then calls (finish_event_of s2 entry w2) (registered_items w2) else [])%list.
Proof.
  intros Hwf Hs Hq Hbody Hwf2 Hs2 Hres. cbn zeta. intros Hq2.
  destruct (enter_world w self s Hwf Hs) as (Hdis & Hen & _ & _).
  assert (Henter : __enter__ self w = (Ret self, (__enter__ self w).2)).
  { destruct (Stack.reporting_enabled s) eqn:E.
    - by rewrite (Hen eq_refl Hq).
    - by rewrite (Hdis eq_refl). }
  assert (Hv : _nameset.contains status (_finish_info s2 None).1 = true).
  { change (_finish_info s2 None) with (_childrens_finish_info s2).
    destruct (childrens_finish_info_result s2) as [H|[H|H]]; rewrite H;
      [apply status_contains; auto | apply status_contains; auto | exact Hres]. }
  destruct (exit_completes w2 self s2 None Hwf2 Hs2) as [Hxdis Hxen].
  change (_finish_info s2 None) with (_childrens_finish_info s2) in Hxdis, Hxen, Hv.
  assert (Hwith : with_ self body w
                  = (__exit__ self None ;; ret tt) w2).
  { unfold with_. rewrite (bind_ret_run _ _ _ _ _ Henter). rewrite bind_run.
    unfold catch. rewrite Hbody. reflexivity. }
  rewrite Hwith, bind_run. split; [|split].
  - destruct (Stack.reporting_enabled s2) eqn:E.
    + by rewrite (Hxen eq_refl Hv Hq2).
    + by rewrite (Hxdis eq_refl).
  - destruct (Stack.reporting_enabled s) eqn:E.
    + rewrite (Hen eq_refl Hq). cbn [snd]. by rewrite parent_recorded_published.
    + rewrite (Hdis eq_refl). cbn [snd].
      by rewrite parent_recorded_published, app_nil_r.
  - destruct (Stack.reporting_enabled s2) eqn:E.
    + by rewrite (Hxen eq_refl Hv Hq2).
    + rewrite (Hxdis eq_refl). cbn [ret snd].
      by rewrite parent_recorded_published, app_nil_r.
Qed.

End Faults.

(** ** The children dict *)

Section Children.

Import ReportEventStack.

Implicit Types (w : World) (self p : loc) (s ps : Stack.t) (e : Exn).

Lemma dict_get_None {V : Type} (k : string) (d : list (string * V)) :
  dict_get k d = None ↔ k ∉ map fst d.
Proof.
  induction d as [|[k0 v0] d IH]; simpl.
  - split; [intros _ H; inversion H | reflexivity].
  - rewrite not_elem_of_cons. destruct (decide (k0 = k)) as [->|Hk].
    + split; [discriminate | intros [H _]; congruence].
    + rewrite IH. split; [intros H; split; [congruence | exact H] | tauto].
Qed.

Lemma dict_set_keys {V : Type} (k : string) (v : V) (d : list (string * V)) :
  map fst (dict_set k v d)
  = if decide (k ∈ map fst d) then map fst d else (map fst d ++ [k])%list.
Proof.
  induction d as [|[k0 v0] d IH]; simpl.
  - destruct (decide (k ∈ [])) as [H|_]; [inversion H | reflexivity].
  - destruct (decide (k0 = k)) as [->|Hk]; simpl.
    + destruct (decide (k ∈ k :: map fst d)) as [_|H]; [reflexivity|].
      destruct H. left.
    + rewrite IH. destruct (decide (k ∈ map fst d)) as [Hin|Hnin].
      * destruct (decide (k ∈ k0 :: map fst d)) as [_|H]; [reflexivity|].
        destruct H. by right.
      * destruct (decide (k ∈ k0 :: map fst d)) as [H|_]; [|reflexivity].
        apply elem_of_cons in H as [->|H]; [congruence | contradiction].
Qed.

Lemma dict_set_NoDup {V : Type} (k : string) (v : V) (d : list (string * V)) :
  NoDup (map fst d) → NoDup (map fst (dict_set k v d)).
Proof.
  intros Hnd. rewrite dict_set_keys. destruct (decide (k ∈ map fst d)); [exact Hnd|].
  apply NoDup_app. split; [exact Hnd|]. split.
  - intros x Hx Hk. apply list_elem_of_singleton in Hk as ->. contradiction.
  - apply NoDup_singleton.
Qed.

Lemma dict_set_elem_of {V : Type} (k k' : string) (v v' : V) (d : list (string * V)) :
  NoDup (map fst d) →
  (k', v') ∈ dict_set k v d ↔ (k' = k ∧ v' = v) ∨ (k' ≠ k ∧ (k', v') ∈ d).
Proof.
  induction d as [|[k0 v0] d IH]; intros Hnd; simpl.
  - rewrite list_elem_of_singleton. split.
    + intros [= -> ->]. by left.
    + intros [[-> ->] | [_ H]]; [reflexivity | inversion H].
  - apply NoDup_cons in Hnd as [Hk0 Hnd].
    destruct (decide (k0 = k)) as [->|Hk].
    + rewrite !elem_of_cons. split.
      * intros [[= -> ->] | H]; [by left|]. right. split; [|by right].
        intros ->. apply Hk0. apply list_elem_of_fmap. by exists (k, v').
      * intros [[-> ->] | [Hne [[= -> ->] | H]]]; [by left | congruence | by right].
    + rewrite !elem_of_cons, (IH Hnd). split.
      * intros [[= -> ->] | [[-> ->] | [Hne H]]].
        -- right. split; [exact Hk | by left].
        -- by left.
        -- right. split; [exact Hne | by right].
      * intros [[-> ->] | [Hne [[= -> ->] | H]]].
        -- right. by left.
        -- by left.
        -- right. right. by split.
Qed.

(** X8.  The parent keeps one outcome per child name, the latest: after
    [__exit__] the entry under the stack's name is its outcome and the
    entries under other names are as before.  So a failure that an
    earlier scope recorded under the same name is forgotten by the
    parent's roll-up when the later scope ends without failure. *)
Theorem parent_keeps_latest_outcome_per_name w self s p ps exc :
  wf_heap (heap w) → heap w !! self = Some s →
  Stack.parent s = Some p → heap w !! p = Some ps →
  NoDup (map fst (Stack.children ps)) →
  let entry := _finish_info s exc in
  ∃ ps',
    heap (__exit__ self exc w).2 !! p = Some ps' ∧
    dict_get (Stack.name s) (Stack.children ps') = Some entry ∧
    (∀ k, k ≠ Stack.name s →
       dict_get k (Stack.children ps') = dict_get k (Stack.children ps)) ∧
    NoDup (map fst (Stack.children ps')) ∧
    (∀ v, records v (Stack.children ps') ↔
          entry.1 = v ∨
          ∃ k m, k ≠ Stack.name s ∧ (k, (v, m)) ∈ Stack.children ps) ∧
    (entry.1 ≠ FAIL →
     (∀ k m, (k, (FAIL, m)) ∈ Stack.children ps → k = Stack.name s) →
     ¬ records FAIL (Stack.children ps')).
Proof.
  intros Hwf Hs Hp Hps Hnd. cbn zeta.
  set (entry := _finish_info s exc).
  exists (with_entry s entry ps).
  assert (Hrec : ∀ v, records v (Stack.children (with_entry s entry ps)) ↔
                      entry.1 = v ∨
                      ∃ k m, k ≠ Stack.name s ∧ (k, (v, m)) ∈ Stack.children ps).
  { intros v. unfold records, with_entry. cbn [Stack.children Stack.set_children].
    split.
    - intros (k & m & H). apply (dict_set_elem_of _ _ _ _ _ Hnd) in H
        as [[-> <-] | [Hne H]]; [by left | right; eauto].
    - intros [<- | (k & m & Hne & H)].
      + exists (Stack.name s), entry.2.
        apply (dict_set_elem_of _ _ _ _ _ Hnd). left. split; [reflexivity|].
        by destruct entry.
      + exists k, m. apply (dict_set_elem_of _ _ _ _ _ Hnd). right. by split. }
  split; [|split; [|split; [|split; [|split]]]].
  - destruct (exit_world_shape w self s exc Hwf Hs) as (tr & ->).
    cbn [heap set_published]. by apply (parent_recorded_parent w self).
  - apply dict_get_set.
  - intros k Hk. by apply dict_get_set_ne.
  - by apply dict_set_NoDup.
  - exact Hrec.
  - intros Hne Honly H. apply Hrec in H as [H | (k & m & Hk & H)];
      [contradiction | apply Hk, (Honly _ _ H)].
Qed.

End Children.

(** ** What every sequence of calls preserves *)

Section Invariants.

Import ReportEventStack.

Implicit Types (w : World) (self p l : loc) (s ps : Stack.t) (h : list Stack.t).

Lemma same_identity_refl s : same_identity s s.
Proof. by repeat split. Qed.

Lemma same_identity_trans s1 s2 s3 :
  same_identity s1 s2 → same_identity s2 s3 → same_identity s1 s3.
Proof.
  intros (A1 & A2 & A3 & A4 & A5 & A6) (B1 & B2 & B3 & B4 & B5 & B6).
  repeat split; congruence.
Qed.

Lemma evolves_refl h : wf_heap h → evolves h h.
Proof.
  intros Hwf. split; [exact Hwf|]. split; [auto|]. split; [auto|].
  intros l s Hl. exists s. split; [exact Hl | apply same_identity_refl].
Qed.

Lemma evolves_trans h1 h2 h3 : evolves h1 h2 → evolves h2 h3 → evolves h1 h3.
Proof.
  intros (_ & R1 & K1 & E1) (W2 & R2 & K2 & E2).
  split; [exact W2|]. split; [auto|]. split; [auto|].
  intros l s Hl. destruct (E1 _ _ Hl) as (s2 & Hl2 & I12).
  destruct (E2 _ _ Hl2) as (s3 & Hl3 & I23).
  exists s3. split; [exact Hl3 | by apply (same_identity_trans s s2)].
Qed.

Lemma evolves_insert h l s s' :
  wf_heap h → h !! l = Some s → same_identity s s' →
  (_nameset.contains status (Stack._result s) = true →
   _nameset.contains status (Stack._result s') = true) →
  (NoDup (map fst (Stack.children s)) → NoDup (map fst (Stack.children s'))) →
  evolves h (<[l := s']> h).
Proof.
  intros Hwf Hl Hid Hres Hkeys.
  assert (Hlt : (l < length h)%nat) by (by apply lookup_lt_Some in Hl).
  split; [|split; [|split]].
  - intros l0 t q Hl0 Hq. destruct (decide (l0 = l)) as [->|Hne].
    + rewrite list_lookup_insert_eq in Hl0 by exact Hlt. injection Hl0 as <-.
      destruct Hid as (Hp & _). rewrite Hp in Hq. apply (Hwf _ _ _ Hl Hq).
    + rewrite list_lookup_insert_ne in Hl0 by congruence. apply (Hwf _ _ _ Hl0 Hq).
  - intros Hrv l0 t Hl0. destruct (decide (l0 = l)) as [->|Hne].
    + rewrite list_lookup_insert_eq in Hl0 by exact Hlt. injection Hl0 as <-.
      apply Hres, (Hrv _ _ Hl).
    + rewrite list_lookup_insert_ne in Hl0 by congruence. apply (Hrv _ _ Hl0).
  - intros Hkd l0 t Hl0. destruct (decide (l0 = l)) as [->|Hne].
    + rewrite list_lookup_insert_eq in Hl0 by exact Hlt. injection Hl0 as <-.
      apply Hkeys, (Hkd _ _ Hl).
    + rewrite list_lookup_insert_ne in Hl0 by congruence. apply (Hkd _ _ Hl0).
  - intros l0 t Hl0. destruct (decide (l0 = l)) as [->|Hne].
    + exists s'. rewrite list_lookup_insert_eq by exact Hlt.
      split; [reflexivity|].
      assert (E : Some s = Some t) by (etrans; [symmetry; exact Hl | exact Hl0]).
      injection E as <-. exact Hid.
    + exists t. rewrite list_lookup_insert_ne by congruence.
      split; [exact Hl0 | apply same_identity_refl].
Qed.

Lemma evolves_alloc h s :
  wf_heap h → (∀ p, Stack.parent s = Some p → is_Some (h !! p)) →
  _nameset.contains status (Stack._result s) = true → Stack.children s = [] →
  evolves h (h ++ [s])%list.
Proof.
  intros Hwf Hp Hres Hkids.
  assert (Hnew : ∀ l0 t, (h ++ [s])%list !! l0 = Some t → h !! l0 = Some t ∨ t = s).
  { intros l0 t Hl0. destruct (decide (l0 < length h)%nat) as [Hlt|Hge].
    - left. by rewrite lookup_app_l in Hl0.
    - right. rewrite lookup_app_r in Hl0 by lia.
      destruct (l0 - length h)%nat; [by injection Hl0 | discriminate Hl0]. }
  split; [|split; [|split]].
  - intros l0 t q Hl0 Hq.
    destruct (decide (l0 < length h)%nat) as [Hlt|Hge].
    + rewrite lookup_app_l in Hl0 by exact Hlt. apply (Hwf _ _ _ Hl0 Hq).
    + destruct (Hnew _ _ Hl0) as [H | ->].
      * apply lookup_lt_Some in H. lia.
      * destruct (Hp _ Hq) as [ps Hps]. apply lookup_lt_Some in Hps. lia.
  - intros Hrv l0 t Hl0. destruct (Hnew _ _ Hl0) as [H | ->];
      [apply (Hrv _ _ H) | exact Hres].
  - intros Hkd l0 t Hl0. destruct (Hnew _ _ Hl0) as [H | ->];
      [apply (Hkd _ _ H) | rewrite Hkids; apply NoDup_nil_2].
  - intros l0 t Hl0. exists t. split; [|apply same_identity_refl].
    rewrite lookup_app_l; [exact Hl0 | by apply lookup_lt_Some in Hl0].
Qed.

Lemma evolves_parent_recorded s entry w :
  wf_heap (heap w) → evolves (heap w) (heap (parent_recorded s entry w)).
Proof.
  intros Hwf. unfold parent_recorded.
  destruct (Stack.parent s) as [p|]; [|by apply evolves_refl].
  destruct (heap w !! p) as [ps|] eqn:Hps; [|by apply evolves_refl].
  cbn [heap set_heap]. apply (evolves_insert _ _ ps); try assumption.
  - by repeat split.
  - auto.
  - unfold with_entry. cbn [Stack.children Stack.set_children].
    apply dict_set_NoDup.
Qed.

Lemma evolves_update w l s s' :
  wf_heap (heap w) → heap w !! l = Some s → same_identity s s' →
  (_nameset.contains status (Stack._result s) = true →
   _nameset.contains status (Stack._result s') = true) →
  Stack.children s' = Stack.children s →
  evolves (heap w) (heap (set_heap (<[l := s']> (heap w)) w)).
Proof.
  intros Hwf Hl Hid Hres Hk. cbn [heap set_heap].
  apply (evolves_insert _ _ s); try assumption. by rewrite Hk.
Qed.

Lemma update_world l f w :
  (update l f w).2
  = match heap w !! l with
    | Some s => set_heap (<[l := f s]> (heap w)) w
    | None => w
    end.
Proof.
  unfold update. rewrite bind_run. unfold deref.
  destruct (heap w !! l); reflexivity.
Qed.

Lemma seq_ret_world {A : Type} (m : M A) w : ((m ;; ret tt) w).2 = (m w).2.
Proof. rewrite bind_run. by destruct (m w) as [[a|e|] w']. Qed.

Lemma init_world name description msg parent re roe pf w :
  (__init__ name description msg parent re roe pf w).2
  = match parent with
    | Some p =>
        match heap w !! p with
        | Some ps =>
            set_heap (heap w ++ [fresh_stack name description msg parent
                                   (Some ps) re roe pf])%list w
        | None => w
        end
    | None =>
        set_heap (heap w ++ [fresh_stack name description msg parent None re
                               roe pf])%list w
    end.
Proof.
  destruct parent as [p|].
  - destruct (heap w !! p) as [ps|] eqn:Hps.
    + rewrite init_run.
      * cbn [snd]. change (Some p ≫= fun p0 => heap w !! p0) with (heap w !! p).
        by rewrite Hps.
      * intros q [= <-]. by exists ps.
    + unfold __init__. rewrite bind_run. cbn [of_outcome].
      replace (result_check SUCCESS) with (@Ret PyVal SUCCESS)
        by (symmetry; apply result_check_valid, status_contains; by left).
      assert (Hd : deref p w = (Stuck, w)) by (unfold deref; by rewrite Hps).
      destruct re as [b|]; rewrite !bind_run; cbn [ret]; rewrite ?bind_run, Hd;
        reflexivity.
  - rewrite init_run by discriminate. reflexivity.
Qed.

Lemma run_call_evolves c w :
  wf_heap (heap w) → evolves (heap w) (heap (run_call c w).2).
Proof.
  intros Hwf. destruct c as [name description msg parent re roe pf | self v
                            | self v | self v | self | self exc]; cbn [run_call].
  - rewrite seq_ret_world, init_world.
    assert (Hok : _nameset.contains status SUCCESS = true)
      by (apply status_contains; by left).
    destruct parent as [p|].
    + destruct (heap w !! p) as [ps|] eqn:Hps; [|by apply evolves_refl].
      cbn [heap set_heap]. apply evolves_alloc; try assumption; try reflexivity.
      intros q [= <-]. by exists ps.
    + cbn [heap set_heap]. apply evolves_alloc; try assumption; try reflexivity.
      discriminate.
  - unfold set_result. rewrite bind_run. unfold of_outcome, result_check.
    destruct (_nameset.contains status v) eqn:Hv; cbn [negb];
      [|by apply evolves_refl].
    change ((update self (Stack.set__result v) w).1,
            (update self (Stack.set__result v) w).2).2
      with (update self (Stack.set__result v) w).2.
    replace (let (o, w') := (Ret v, w) in
             match o with
             | Ret a => update self (Stack.set__result a) w'
             | Raise e0 => (Raise e0, w')
             | Stuck => (Stuck, w')
             end) with (update self (Stack.set__result v) w) by reflexivity.
    rewrite update_world. destruct (heap w !! self) as [s|] eqn:Hs;
      [|by apply evolves_refl].
    apply (evolves_update _ _ s); try assumption; try reflexivity.
    + by repeat split.
    + intros _. exact Hv.
  - unfold set_message. rewrite update_world.
    destruct (heap w !! self) as [s|] eqn:Hs; [|by apply evolves_refl].
    apply (evolves_update _ _ s); try assumption; try reflexivity; auto.
    by repeat split.
  - unfold set_description. rewrite update_world.
    destruct (heap w !! self) as [s|] eqn:Hs; [|by apply evolves_refl].
    apply (evolves_update _ _ s); try assumption; try reflexivity; auto.
    by repeat split.
  - rewrite seq_ret_world. destruct (heap w !! self) as [s|] eqn:Hs.
    + set (s1 := Stack.set__result SUCCESS s).
      set (w1 := set_heap (<[self := s1]> (heap w)) w).
      assert (H1 : evolves (heap w) (heap w1)).
      { apply (evolves_update _ _ s); try assumption; try reflexivity;
          try (by repeat split). }
      destruct (enter_world_shape w self s Hwf Hs) as (tr & [[_ ->] | [_ ->]]);
        fold s1 w1; [|exact H1].
      apply (evolves_trans _ (heap w1)); [exact H1|].
      apply (evolves_parent_recorded s1 (VNone, VNone)
               (set_published (published w ++ tr)%list w1)).
      by destruct H1.
    + unfold __enter__, set_result. rewrite !bind_run. cbn [of_outcome].
      replace (result_check SUCCESS) with (@Ret PyVal SUCCESS)
        by (symmetry; apply result_check_valid, status_contains; by left).
      unfold update. rewrite bind_run. unfold deref. rewrite Hs.
      by apply evolves_refl.
  - rewrite seq_ret_world. destruct (heap w !! self) as [s|] eqn:Hs.
    + destruct (exit_world_shape w self s exc Hwf Hs) as (tr & ->).
      cbn [heap set_published]. by apply evolves_parent_recorded.
    + unfold __exit__. rewrite bind_run. unfold deref. rewrite Hs.
      by apply evolves_refl.
Qed.

Lemma run_calls_evolves cs : ∀ w,
  wf_heap (heap w) → evolves (heap w) (heap (run_calls cs w)).
Proof.
  induction cs as [|c cs IH]; intros w Hwf; cbn [run_calls].
  - by apply evolves_refl.
  - pose proof (run_call_evolves c w Hwf) as H1.
    apply (evolves_trans _ _ _ H1). apply IH. by destruct H1.
Qed.

(** X9.  Whatever calls a client makes on the stacks, in any order and
    with any arguments (constructions, assignments to [result],
    [message] and [description], [__enter__], [__exit__] with or without
    an exception), and whether or not they raise, [result] of every
    stack stays a status, and the [children] dicts and the
    parent-before-child order of the objects stay sound. *)
Theorem result_is_always_a_status (cs : list Call) w :
  wf_heap (heap w) → results_valid (heap w) →
  children_keys_distinct (heap w) →
  results_valid (heap (run_calls cs w)) ∧
  children_keys_distinct (heap (run_calls cs w)) ∧
  wf_heap (heap (run_calls cs w)).
Proof.
  intros Hwf Hrv Hkd. destruct (run_calls_evolves cs w Hwf) as (W & R & K & _).
  auto.
Qed.

(** X10.  The methods never reassign what the constructor set: after any
    sequence of calls every stack is still in place with the same
    [parent], [name], [fullname], [reporting_enabled],
    [result_on_exception] and [post_files]; in particular [fullname] is
    not recomputed. *)
Theorem constructor_attributes_are_fixed (cs : list Call) w l s :
  wf_heap (heap w) → heap w !! l = Some s →
  ∃ s', heap (run_calls cs w) !! l = Some s' ∧ same_identity s s'.
Proof.
  intros Hwf Hl. destruct (run_calls_evolves cs w Hwf) as (_ & _ & _ & E).
  apply (E _ _ Hl).
Qed.

End Invariants.

(** ** Nested construction *)

Section Chains.

Import ReportEventStack.

Implicit Types (w : World) (self p l : loc) (s ps : Stack.t)
  (names : list string).

Lemma string_app_assoc (a b c : string) : (a ++ b) ++ c = a ++ (b ++ c).
Proof.
  induction a as [|x a IH]; [reflexivity|].
  change (String x ((a ++ b) ++ c) = String x (a ++ (b ++ c))). by rewrite IH.
Qed.

Lemma concat_cons_cons (sep x y : string) (rest : list string) :
  String.concat sep (x :: y :: rest) = x ++ sep ++ String.concat sep (y :: rest).
Proof. reflexivity. Qed.

Lemma build_chain_run names : ∀ parent parent_obj re w,
  wf_heap (heap w) →
  parent ≫= (fun p => heap w !! p) = parent_obj →
  (is_Some parent → is_Some parent_obj) →
  ∃ w',
    build_chain parent re names w
    = (Ret (match names with
            | [] => parent
            | _ :: _ => Some (length (heap w) + length names - 1)%nat
            end), w') ∧
    published w' = published w ∧
    wf_heap (heap w') ∧
    (∀ l s, heap w !! l = Some s → heap w' !! l = Some s) ∧
    (∀ (i : nat) name, names !! i = Some name →
       ∃ s, heap w' !! (length (heap w) + i)%nat = Some s ∧
            Stack.name s = name ∧
            Stack.fullname s
            = chain_base parent_obj ++ String.concat "/" (take (S i) names) ∧
            Stack.reporting_enabled s = chain_flag re parent_obj ∧
            Stack.children s = []).
Proof.
  induction names as [|n names IH]; intros parent parent_obj re w Hwf Hobj Hsome.
  - exists w. repeat split; try reflexivity; try assumption; auto.
    intros i name H. discriminate H.
  - cbn [build_chain].
    assert (Hvalid : ∀ p, parent = Some p → is_Some (heap w !! p)).
    { intros p ->. cbn in Hobj. rewrite Hobj. apply Hsome. by eexists. }
    set (s0 := fresh_stack n (VStr n) VNone parent parent_obj re FAIL None).
    set (w1 := set_heap (heap w ++ [s0])%list w).
    assert (Hinit : __init__ n (VStr n) VNone parent re FAIL None w
                    = (Ret (length (heap w)), w1)).
    { rewrite (init_run _ _ _ _ _ _ _ _ Hvalid). by rewrite Hobj. }
    rewrite (bind_ret_run _ _ _ _ _ Hinit). cbn beta.
    assert (Hs0 : heap w1 !! length (heap w) = Some s0).
    { unfold w1. cbn [heap set_heap]. by apply list_lookup_middle. }
    assert (Hwf1 : wf_heap (heap w1)).
    { unfold w1. cbn [heap set_heap]. apply init_wf; [exact Hwf|]. exact Hvalid. }
    destruct (IH (Some (length (heap w))) (Some s0) None w1 Hwf1 Hs0
                ltac:(intros _; by eexists))
      as (w' & Hrun & Hpub & Hwf' & Hkeep & Hobjs).
    assert (Hlen1 : length (heap w1) = S (length (heap w))).
    { unfold w1. cbn [heap set_heap]. rewrite length_app. cbn [length]. lia. }
    exists w'. split; [|split; [exact Hpub|split; [exact Hwf'|split]]].
    + etrans; [exact Hrun|]. destruct names as [|n' names']; cbn [length].
      * replace (length (heap w) + 1 - 1)%nat with (length (heap w)) by lia.
        reflexivity.
      * rewrite Hlen1.
        replace (S (length (heap w)) + S (length names') - 1)%nat
          with (length (heap w) + S (S (length names')) - 1)%nat by lia.
        reflexivity.
    + intros l s Hl. apply Hkeep. unfold w1. cbn [heap set_heap].
      rewrite lookup_app_l; [exact Hl | by apply lookup_lt_Some in Hl].
    + intros i name Hi. destruct i as [|j].
      * injection Hi as <-. exists s0. rewrite Nat.add_0_r.
        split; [by apply Hkeep|]. split; [reflexivity|].
        split; [|split; [|reflexivity]].
        -- cbn [take String.concat]. unfold s0, fresh_stack, chain_base.
           cbn [Stack.fullname]. destruct parent_obj as [ps|].
           ++ by rewrite string_app_assoc.
           ++ reflexivity.
        -- unfold s0, fresh_stack, chain_flag. cbn [Stack.reporting_enabled].
           by destruct re, parent_obj.
      * cbn [lookup list_lookup] in Hi.
        change ((n :: names) !! S j) with (names !! j) in Hi.
        destruct (Hobjs j name Hi) as (s & Hl & Hname & Hfull & Hflag & Hkids).
        exists s. rewrite Hlen1 in Hl.
        replace (length (heap w) + S j)%nat with (S (length (heap w)) + j)%nat by lia.
        split; [exact Hl|]. split; [exact Hname|].
        split; [|split; [|exact Hkids]].
        -- rewrite Hfull. unfold chain_base at 1.
           assert (Hfs0 : Stack.fullname s0 = chain_base parent_obj ++ n).
           { unfold s0, fresh_stack, chain_base. cbn [Stack.fullname].
             destruct parent_obj as [ps|]; [by rewrite string_app_assoc | reflexivity]. }
           rewrite Hfs0.
           destruct names as [|n' names']; [discriminate Hi|].
           change (take (S (S j)) (n :: n' :: names'))
             with (n :: n' :: take j names').
           change (take (S j) (n' :: names')) with (n' :: take j names').
           rewrite concat_cons_cons, !string_app_assoc. reflexivity.
        -- rewrite Hflag. unfold chain_flag at 1. unfold s0, fresh_stack.
           cbn [Stack.reporting_enabled]. unfold chain_flag.
           by destruct re, parent_obj.
Qed.

End Chains.

Section ChainProperties.

Import ReportEventStack.

Implicit Types (w : World) (self p l : loc) (s ps : Stack.t)
  (names : list string).

(** X11.  Stacks constructed one under the other get as [fullname] the
    names from the root down joined by ["/"], and, when built without a
    [reporting_enabled] argument, the flag of the root.  Constructing
    them calls no handler and changes no existing object: a parent does
    not know a child that has not been entered. *)
Theorem fullname_is_the_path_from_the_root names (re : option bool) w :
  wf_heap (heap w) →
  let w' := (build_chain None re names w).2 in
  published w' = published w ∧
  (∀ l s, heap w !! l = Some s → heap w' !! l = Some s) ∧
  (∀ (i : nat) name, names !! i = Some name →
     ∃ s, heap w' !! (length (heap w) + i)%nat = Some s ∧
          Stack.name s = name ∧
          Stack.fullname s = String.concat "/" (take (S i) names) ∧
          Stack.reporting_enabled s = default true re ∧
          Stack.children s = []) ∧
  (names ≠ [] →
     (build_chain None re names w).1
     = Ret (Some (length (heap w) + length names - 1)%nat)).
Proof.
  intros Hwf. cbn zeta.
  destruct (build_chain_run names None None re w Hwf eq_refl)
    as (w' & Hrun & Hpub & _ & Hkeep & Hobjs).
  { intros [x Hx]. discriminate Hx. }
  rewrite Hrun. cbn [fst snd].
  split; [exact Hpub|]. split; [exact Hkeep|]. split.
  - intros i name Hi. destruct (Hobjs i name Hi) as (s & Hl & Hn & Hf & Hfl & Hk).
    exists s. split; [exact Hl|]. split; [exact Hn|]. split; [exact Hf|].
    split; [|exact Hk]. rewrite Hfl. by destruct re.
  - intros Hne. destruct names; [contradiction | reflexivity].
Qed.

(** X12.  Under a root constructed with [reporting_enabled=False], every
    stack built with the default flag is disabled as well and stays so:
    whatever calls are made afterwards, entering or leaving such a stack
    returns and calls no handler. *)
Theorem disabled_root_silences_its_subtree names (cs : list Call) w
    (i : nat) (name : string) (exc : option Exn) :
  wf_heap (heap w) → names !! i = Some name →
  let self := (length (heap w) + i)%nat in
  let w2 := run_calls cs (build_chain None (Some false) names w).2 in
  (__enter__ self w2).1 = Ret self ∧
  published (__enter__ self w2).2 = published w2 ∧
  (__exit__ self exc w2).1 = Ret VNone ∧
  published (__exit__ self exc w2).2 = published w2.
Proof.
  intros Hwf Hi. cbn zeta.
  destruct (build_chain_run names None None (Some false) w Hwf eq_refl)
    as (w' & Hrun & _ & Hwf' & _ & Hobjs).
  { intros [x Hx]. discriminate Hx. }
  rewrite Hrun. cbn [snd].
  destruct (Hobjs i name Hi) as (s & Hl & _ & _ & Hfl & _).
  destruct (run_calls_evolves cs w' Hwf') as (Hwf2 & _ & _ & Hext).
  destruct (Hext _ _ Hl) as (s2 & Hl2 & (_ & _ & _ & Hflag & _)).
  assert (Hdis : Stack.reporting_enabled s2 = false) by (by rewrite Hflag, Hfl).
  destruct (enter_world _ _ _ Hwf2 Hl2) as (Henter & _).
  destruct (exit_completes _ _ _ exc Hwf2 Hl2) as (Hexit & _).
  rewrite (Henter Hdis), (Hexit Hdis). cbn [fst snd].
  rewrite !parent_recorded_published. by repeat split.
Qed.

End ChainProperties.

(** ** Nested scopes *)

Section Nesting.

Import ReportEventStack.

Implicit Types (w : World) (self p c l : loc) (s ps : Stack.t) (e : Exn).

(** [__enter__] when no handler raises on the start event. *)
Lemma enter_summary w self s :
  wf_heap (heap w) → heap w !! self = Some s →
  quiet (start_event_of s w) (registered_items w) →
  let w' := (__enter__ self w).2 in
  __enter__ self w = (Ret self, w') ∧
  wf_heap (heap w') ∧
  heap w' !! self = Some (Stack.set__result SUCCESS s) ∧
  (∀ p ps, Stack.parent s = Some p → heap w !! p = Some ps →
     heap w' !! p = Some (with_entry s (VNone, VNone) ps)) ∧
  (∀ l, l ≠ self → Stack.parent s ≠ Some l → heap w' !! l = heap w !! l) ∧
  published w'
  = (published w ++ calls_if (Stack.reporting_enabled s) (start_event_of s w)
                      (registered_items w))%list ∧
  registered_items w' = registered_items w ∧
  default_timestamp w' = default_timestamp w.
Proof.
  intros Hwf Hs Hq. cbn zeta.
  set (s1 := Stack.set__result SUCCESS s).
  set (w1 := set_heap (<[self := s1]> (heap w)) w).
  set (tr := calls_if (Stack.reporting_enabled s) (start_event_of s w)
               (registered_items w)).
  set (w2 := set_published (published w ++ tr)%list w1).
  assert (Hs2 : heap w2 !! self = Some s1) by (by apply lookup_updated with (s := s)).
  assert (Hwf2 : wf_heap (heap w2)) by (by apply (wf_insert w self s s1)).
  assert (Henter : __enter__ self w = (Ret self, parent_recorded s1 (VNone, VNone) w2)).
  { destruct (enter_world w self s Hwf Hs) as (Hdis & Hen & _ & _).
    unfold w2, tr, calls_if. destruct (Stack.reporting_enabled s) eqn:E.
    - by rewrite (Hen eq_refl Hq).
    - rewrite (Hdis eq_refl). fold s1 w1. f_equal. f_equal.
      change (published w) with (published w1). by rewrite set_published_nil. }
  rewrite Henter. cbn [snd]. split; [reflexivity|].
  split; [by apply wf_parent_recorded|].
  split; [by apply parent_recorded_self|].
  split; [|split; [|split; [|split]]].
  - intros p ps Hp Hps.
    destruct (wf_parent_lt _ _ _ _ Hwf Hs Hp) as [Hne _].
    apply (parent_recorded_parent w2 self s1); [|exact Hp].
    unfold w2, w1. cbn [heap set_heap set_published].
    rewrite list_lookup_insert_ne by congruence. exact Hps.
  - intros l Hl Hlp.
    destruct (parent_recorded_frame self s1 (VNone, VNone) w2 Hs2)
      as (_ & _ & _ & _ & _ & H6).
    rewrite (H6 l Hl Hlp). unfold w2, w1. cbn [heap set_heap set_published].
    apply list_lookup_insert_ne. congruence.
  - by rewrite parent_recorded_published.
  - by rewrite parent_recorded_registry.
  - by rewrite parent_recorded_default_timestamp.
Qed.

(** [__exit__] when the result is a status and no handler raises on the
    finish event. *)
Lemma exit_summary w self s exc :
  wf_heap (heap w) → heap w !! self = Some s →
  let entry := _finish_info s exc in
  _nameset.contains status entry.1 = true →
  quiet (finish_event_of s entry w) (registered_items w) →
  let w' := (__exit__ self exc w).2 in
  __exit__ self exc w = (Ret VNone, w') ∧
  wf_heap (heap w') ∧
  heap w' !! self = Some s ∧
  (∀ p ps, Stack.parent s = Some p → heap w !! p = Some ps →
     heap w' !! p = Some (with_entry s entry ps)) ∧
  (∀ l, l ≠ self → Stack.parent s ≠ Some l → heap w' !! l = heap w !! l) ∧
  published w'
  = (published w ++ calls_if (Stack.reporting_enabled s)
                      (finish_event_of s entry w) (registered_items w))%list ∧
  registered_items w' = registered_items w ∧
  default_timestamp w' = default_timestamp w.
Proof.
  intros Hwf Hs. cbn zeta. intros Hv Hq.
  set (entry := _finish_info s exc) in *.
  set (tr := calls_if (Stack.reporting_enabled s) (finish_event_of s entry w)
               (registered_items w)).
  assert (Hexit : __exit__ self exc w
                  = (Ret VNone,
                     set_published (published w ++ tr)%list
                       (parent_recorded s entry w))).
  { destruct (exit_completes w self s exc Hwf Hs) as [Hdis Hen].
    unfold tr, calls_if. destruct (Stack.reporting_enabled s) eqn:E.
    - by rewrite (Hen eq_refl Hv Hq).
    - rewrite (Hdis eq_refl). f_equal.
      rewrite <- (parent_recorded_published s entry w).
      by rewrite set_published_nil. }
  rewrite Hexit. cbn [snd heap set_published published registered_items
                      default_timestamp].
  split; [reflexivity|]. split; [by apply wf_parent_recorded|].
  split; [by apply parent_recorded_self|].
  split; [|split; [|split; [|split]]].
  - intros p ps Hp Hps. by apply (parent_recorded_parent w self).
  - intros l Hl Hlp.
    destruct (parent_recorded_frame self s entry w Hs) as (_ & _ & _ & _ & _ & H6).
    by apply H6.
  - reflexivity.
  - by rewrite parent_recorded_registry.
  - by rewrite parent_recorded_default_timestamp.
Qed.

Lemma with_run_raise self (body : M unit) w w1 w2 w3 e :
  __enter__ self w = (Ret self, w1) → body w1 = (Raise e, w2) →
  __exit__ self (Some e) w2 = (Ret VNone, w3) →
  with_ self body w = (Raise e, w3).
Proof.
  intros Henter Hbody Hexit. unfold with_.
  rewrite (bind_ret_run _ _ _ _ _ Henter). rewrite bind_run. unfold catch.
  rewrite Hbody. rewrite bind_run, Hexit. reflexivity.
Qed.

(** X13.  An exception that unwinds two nested [with] statements makes
    each scope report its own [result_on_exception], the inner one
    first, between the two start events and the parent's finish event;
    the parent ends up holding the child's outcome under the child's
    name, and the exception leaves the outer statement unchanged. *)
Theorem exception_unwinds_nested_scopes w p c ps s e :
  wf_heap (heap w) → heap w !! p = Some ps → heap w !! c = Some s →
  Stack.parent s = Some p →
  all_quiet (registered_items w) →
  _nameset.contains status (Stack.result_on_exception s) = true →
  _nameset.contains status (Stack.result_on_exception ps) = true →
  e ≠ SystemExit (VInt 0) →
  let items := registered_items w in
  let run := with_ p (with_ c (raise e)) w in
  let child_outcome := (Stack.result_on_exception s, message s) in
  let parent_outcome := (Stack.result_on_exception ps, message ps) in
  run.1 = Raise e ∧
  published run.2
  = (published w
     ++ calls_if (Stack.reporting_enabled ps) (start_event_of ps w) items
     ++ calls_if (Stack.reporting_enabled s) (start_event_of s w) items
     ++ calls_if (Stack.reporting_enabled s)
          (finish_event_of s child_outcome w) items
     ++ calls_if (Stack.reporting_enabled ps)
          (finish_event_of ps parent_outcome w) items)%list ∧
  ∃ ps', heap run.2 !! p = Some ps' ∧
         dict_get (Stack.name s) (Stack.children ps') = Some child_outcome.
Proof.
  intros Hwf Hps Hs Hpar Hquiet Hroe_s Hroe_p He. cbn zeta.
  destruct (wf_parent_lt _ _ _ _ Hwf Hs Hpar) as [Hpc _].
  assert (Hlt : (p < c)%nat) by apply (Hwf _ _ _ Hs Hpar).
  assert (Hgp : Stack.parent ps ≠ Some c).
  { intros Hgp. pose proof (Hwf _ _ _ Hps Hgp). lia. }
  (* entering the parent *)
  destruct (enter_summary w p ps Hwf Hps (Hquiet _))
    as (E1 & Hwf1 & Hp1 & _ & Hoth1 & Hpub1 & Hreg1 & Hts1).
  set (w1 := (__enter__ p w).2) in *.
  set (ps1 := Stack.set__result SUCCESS ps) in *.
  assert (Hc1 : heap w1 !! c = Some s).
  { rewrite (Hoth1 c); [exact Hs | congruence | exact Hgp]. }
  (* entering the child *)
  assert (Hq1 : ∀ ev, quiet ev (registered_items w1)).
  { intros ev. rewrite Hreg1. apply Hquiet. }
  destruct (enter_summary w1 c s Hwf1 Hc1 (Hq1 _))
    as (E2 & Hwf2 & Hc2 & Hpar2 & _ & Hpub2 & Hreg2 & Hts2).
  set (w2 := (__enter__ c w1).2) in *.
  set (s1 := Stack.set__result SUCCESS s) in *.
  pose proof (Hpar2 p ps1 Hpar Hp1) as Hp2.
  (* leaving the child *)
  assert (Hq2 : ∀ ev, quiet ev (registered_items w2)).
  { intros ev. rewrite Hreg2. apply Hq1. }
  assert (Hfi_c : _finish_info s1 (Some e) = (Stack.result_on_exception s, message s))
    by apply (finish_info_exception s1 e He).
  assert (Hv_c : _nameset.contains status (_finish_info s1 (Some e)).1 = true)
    by (by rewrite Hfi_c).
  destruct (exit_summary w2 c s1 (Some e) Hwf2 Hc2 Hv_c (Hq2 _))
    as (X3 & Hwf3 & _ & Hpar3 & _ & Hpub3 & Hreg3 & Hts3).
  set (w3 := (__exit__ c (Some e) w2).2) in *.
  pose proof (Hpar3 p _ Hpar Hp2) as Hp3. rewrite Hfi_c in Hp3, Hpub3.
  set (ps3 := with_entry s1 (Stack.result_on_exception s, message s)
                (with_entry s (VNone, VNone) ps1)) in *.
  assert (Hinner : with_ c (raise e) w1 = (Raise e, w3))
    by (by apply (with_run_raise c (raise e) w1 w2 w2 w3 e)).
  (* leaving the parent *)
  assert (Hq3 : ∀ ev, quiet ev (registered_items w3)).
  { intros ev. rewrite Hreg3. apply Hq2. }
  assert (Hfi_p : _finish_info ps3 (Some e)
                  = (Stack.result_on_exception ps, message ps))
    by apply (finish_info_exception ps3 e He).
  assert (Hv_p : _nameset.contains status (_finish_info ps3 (Some e)).1 = true)
    by (by rewrite Hfi_p).
  destruct (exit_summary w3 p ps3 (Some e) Hwf3 Hp3 Hv_p (Hq3 _))
    as (X4 & _ & Hp4 & _ & _ & Hpub4 & _ & _).
  set (w4 := (__exit__ p (Some e) w3).2) in *.
  rewrite Hfi_p in Hpub4.
  rewrite (with_run_raise p (with_ c (raise e)) w w1 w3 w4 e E1 Hinner X4).
  cbn [fst snd]. split; [reflexivity|]. split.
  - rewrite Hpub4, Hpub3, Hpub2, Hpub1, Hreg3, Hreg2, Hreg1.
    rewrite <- !app_assoc.
    assert (Ev1 : start_event_of s w1 = start_event_of s w)
      by (unfold start_event_of; by rewrite Hts1).
    assert (Ev2 : finish_event_of s1 (Stack.result_on_exception s, message s) w2
                  = finish_event_of s (Stack.result_on_exception s, message s) w)
      by (unfold finish_event_of; by rewrite Hts2, Hts1).
    assert (Ev3 : finish_event_of ps3 (Stack.result_on_exception ps, message ps) w3
                  = finish_event_of ps (Stack.result_on_exception ps, message ps) w)
      by (unfold finish_event_of; by rewrite Hts3, Hts2, Hts1).
    rewrite Ev1, Ev2, Ev3. reflexivity.
  - exists ps3. split; [exact Hp4|]. apply dict_get_set.
Qed.

End Nesting.

(** ** Rendering events *)

Section Rendering.

Implicit Types (fs : FileSystem) (self : FinishObj.t).

Lemma b64encode_inj (a b : list byte) : b64encode a = b64encode b → a = b.
Proof.
  intros H. apply (f_equal b64decode) in H.
  rewrite !b64decode_b64encode in H. by injection H.
Qed.

Lemma file_info_inj fs1 fs2 (path : string) :
  file_info fs1 path = file_info fs2 path → fs1 path = fs2 path.
Proof.
  unfold file_info. destruct (fs1 path) as [a|], (fs2 path) as [b|];
    intros H; try discriminate H; [|reflexivity].
  injection H as H. by rewrite (b64encode_inj _ _ H).
Qed.

Lemma map_file_info_ext fs1 fs2 (files : list string) :
  map (file_info fs1) files = map (file_info fs2) files ↔
  ∀ path, path ∈ files → fs1 path = fs2 path.
Proof.
  induction files as [|f files IH]; cbn [map].
  - split; [intros _ path H; inversion H | reflexivity].
  - split.
    + intros H. pose proof (f_equal (hd JNull) H) as Hf.
      pose proof (f_equal (@tl JVal) H) as Hrest. cbn [hd tl] in Hf, Hrest.
      intros path Hp.
      apply elem_of_cons in Hp as [-> | Hp];
        [by apply file_info_inj | by apply IH].
    + intros H. f_equal.
      * unfold file_info. rewrite (H f); [reflexivity | left].
      * apply IH. intros path Hp. apply H. by right.
Qed.

(** X14.  [as_dict] of a finish event keeps the five entries of the
    base class, in their order and with their values, puts [result]
    after them and [files] last when there are files to post; no key
    occurs twice. *)
Theorem finish_as_dict_extends_the_base fs self :
  let data := FinishReportingEvent.as_dict fs self in
  let base := ReportingEvent.as_dict (FinishObj.super self) in
  map fst data
  = (map fst base ++ "result" ::
     match FinishObj.post_files self with [] => [] | _ :: _ => ["files"] end)%list ∧
  map fst base = ["name"; "description"; "event_type"; "origin"; "timestamp"] ∧
  NoDup (map fst data) ∧
  (∀ k, k ∈ map fst base → dict_get k data = dict_get k base) ∧
  dict_get "result" data = Some (to_json (FinishObj.result self)).
Proof.
  cbn zeta. unfold FinishReportingEvent.as_dict, ReportingEvent.as_dict.
  destruct (FinishObj.post_files self) as [|f files].
  - split; [reflexivity|]. split; [reflexivity|]. split.
    + apply (bool_decide_unpack _). vm_compute. exact I.
    + split; [|reflexivity]. intros k Hk.
      repeat (apply elem_of_cons in Hk as [-> | Hk]; [reflexivity|]).
      inversion Hk.
  - split; [reflexivity|]. split; [reflexivity|]. split.
    + apply (bool_decide_unpack _). vm_compute. exact I.
    + split; [|reflexivity]. intros k Hk.
      repeat (apply elem_of_cons in Hk as [-> | Hk]; [reflexivity|]).
      inversion Hk.
Qed.

(** X15.  [as_dict] reads the files when it is called and nothing else
    of the file system: two calls on the same event give the same dict
    exactly when every path of [post_files] is in the same state both
    times (both times no regular file, or regular files with the same
    bytes). *)
Theorem as_dict_depends_on_the_posted_files fs1 fs2 self :
  FinishReportingEvent.as_dict fs1 self = FinishReportingEvent.as_dict fs2 self
  ↔ ∀ path, path ∈ FinishObj.post_files self → fs1 path = fs2 path.
Proof.
  unfold FinishReportingEvent.as_dict.
  destruct (FinishObj.post_files self) as [|f files] eqn:Hf.
  - split; [intros _ path H; inversion H | reflexivity].
  - rewrite <- map_file_info_ext.
    rewrite !collect_file_info_map by discriminate. split.
    + intros H.
      apply (f_equal (dict_get "files")) in H. rewrite !dict_get_set in H.
      assert (Hinj : ∀ a b : list JVal, Some (JList a) = Some (JList b) → a = b)
        by (by intros a b [= ->]).
      exact (Hinj _ _ H).
    + intros H. by rewrite H.
Qed.

(** X16.  A finish event that the constructor accepted renders as
    ["finish: NAME: R: DESCRIPTION"] with [R] one of [SUCCESS], [WARN],
    [FAIL], while the rendering of the base class has no result:
    ["finish: NAME: DESCRIPTION"]. *)
Theorem finish_event_renders_its_status (name : string) (description : PyVal)
    (result : PyVal) (post_files : option (list string)) (w w' : World)
    (event : FinishObj.t) :
  FinishReportingEvent.__init__ name description result post_files w
  = (Ret event, w') →
  ∃ R, result = VStr R ∧ R ∈ status ∧
       FinishReportingEvent.as_string event
       = "finish: " ++ name ++ ": " ++ R ++ ": " ++ py_str description ∧
       ReportingEvent.as_string (FinishObj.super event)
       = "finish: " ++ name ++ ": " ++ py_str description.
Proof.
  intros H.
  destruct (_nameset.contains status result) eqn:Hv.
  - rewrite (finish_init_valid _ _ _ _ _ Hv) in H. injection H as <- _.
    destruct result as [|z|R]; try discriminate Hv.
    exists R. split; [reflexivity|]. split.
    + cbn in Hv. by apply bool_decide_eq_true in Hv.
    + split; reflexivity.
  - rewrite (finish_init_invalid _ _ _ _ _ Hv) in H. discriminate H.
Qed.

End Rendering.

(** ** A failure travels to the root *)

Section Propagation.

Import ReportEventStack.

Implicit Types (w : World) (self p c l : loc) (s ps : Stack.t)
  (h : list Stack.t) (chain : list loc).

Lemma set_children_same s : Stack.set_children (Stack.children s) s = s.
Proof. by destruct s. Qed.

Lemma linked_children_changed h h' chain :
  children_changed h h' → linked h chain → linked h' chain.
Proof.
  intros Hch. induction chain as [|c rest IH]; [done|].
  cbn [linked]. destruct rest as [|p rest'].
  - intros [s Hs]. destruct (Hch _ _ Hs) as (kids & H). by eexists.
  - intros [(s & Hs & Hp) Hrest]. split; [|by apply IH].
    destruct (Hch _ _ Hs) as (kids & H). eexists. split; [exact H | exact Hp].
Qed.

Lemma failure_trace_children_changed h h' w w' chain :
  children_changed h h' → linked h chain →
  registered_items w' = registered_items w →
  default_timestamp w' = default_timestamp w →
  failure_trace h' w' chain = failure_trace h w chain.
Proof.
  intros Hch Hlinked Hreg Hts. induction chain as [|c rest IH]; [done|].
  cbn [failure_trace]. f_equal.
  - assert (Hc : is_Some (h !! c)).
    { cbn [linked] in Hlinked. destruct rest; [exact Hlinked|].
      destruct Hlinked as [(s & Hs & _) _]. by eexists. }
    destruct Hc as [s Hs]. destruct (Hch _ _ Hs) as (kids & Hs').
    rewrite Hs, Hs', Hreg. unfold finish_event_of. by rewrite Hts.
  - apply IH. cbn [linked] in Hlinked. destruct rest; [done|]. apply Hlinked.
Qed.

Lemma exit_all_cons c rest w w1 :
  __exit__ c None w = (Ret VNone, w1) →
  exit_all (c :: rest) w = exit_all rest w1.
Proof.
  intros H. unfold exit_all. cbn [for_]. rewrite bind_run, bind_run, H.
  reflexivity.
Qed.

(** X17.  A recorded failure travels to the root: when scopes nested in
    one another are left from the inside out without an exception and
    a child of the innermost one recorded [FAIL], every one of them
    reports [FAIL], whatever its own [result] is and whatever else its
    children recorded. *)
Theorem failure_reaches_the_root chain : ∀ w c s,
  wf_heap (heap w) → linked (heap w) chain → head chain = Some c →
  heap w !! c = Some s → records FAIL (Stack.children s) →
  all_quiet (registered_items w) →
  (exit_all chain w).1 = Ret tt ∧
  published (exit_all chain w).2
  = (published w ++ failure_trace (heap w) w chain)%list.
Proof.
  induction chain as [|c0 rest IH]; intros w c s Hwf Hlinked Hhead Hs Hrec Hq.
  - discriminate Hhead.
  - injection Hhead as ->.
    assert (Hfi : _finish_info s None = (FAIL, message s)) by (by apply rollup_FAIL).
    assert (Hv : _nameset.contains status (_finish_info s None).1 = true).
    { rewrite Hfi. apply status_contains. auto. }
    destruct (exit_summary w c s None Hwf Hs Hv (Hq _))
      as (Hexit & Hwf1 & Hc1 & Hpar1 & Hoth1 & Hpub1 & Hreg1 & Hts1).
    set (w1 := (__exit__ c None w).2) in *.
    rewrite (exit_all_cons c rest w w1 Hexit). rewrite Hfi in Hpub1, Hpar1.
    cbn [failure_trace]. rewrite Hs.
    assert (Hch : children_changed (heap w) (heap w1)).
    { intros l t Hl. destruct (decide (l = c)) as [->|Hlc].
      - exists (Stack.children t). rewrite set_children_same.
        rewrite Hs in Hl. injection Hl as <-. exact Hc1.
      - destruct (decide (Stack.parent s = Some l)) as [Hp|Hnp].
        + eexists. apply (Hpar1 l t Hp Hl).
        + exists (Stack.children t). rewrite set_children_same.
          by rewrite (Hoth1 l Hlc Hnp). }
    destruct rest as [|p rest'].
    + unfold exit_all. cbn [for_ ret fst snd failure_trace].
      rewrite Hpub1, app_nil_r. by split.
    + cbn [linked] in Hlinked. destruct Hlinked as [(s0 & Hs0 & Hp) Hrest].
      rewrite Hs in Hs0. injection Hs0 as <-.
      destruct (wf_parent_lt _ _ _ _ Hwf Hs Hp) as [_ [ps Hps]].
      pose proof (Hpar1 p ps Hp Hps) as Hp1.
      destruct (IH w1 p (with_entry s (FAIL, message s) ps) Hwf1
                  (linked_children_changed (heap w) (heap w1) (p :: rest') Hch
                     Hrest) eq_refl Hp1
                  (with_entry_records s (FAIL, message s) ps))
        as [Hret Htrace].
      { intros ev. rewrite Hreg1. apply Hq. }
      split; [exact Hret|]. rewrite Htrace, Hpub1.
      rewrite (failure_trace_children_changed (heap w) (heap w1) w w1
                 (p :: rest') Hch Hrest Hreg1 Hts1).
      by rewrite <- app_assoc.
Qed.

End Propagation.

(** ** Assigning the result *)

Section OwnResult.

Import ReportEventStack.

Implicit Types (w : World) (self p c l : loc) (s ps : Stack.t).

(** X18.  A status assigned to [result] while the scope is open is the
    result of its finish event when no child recorded [FAIL] or [WARN];
    a status assigned before [__enter__] is lost, the scope then reports
    [SUCCESS]. *)
Theorem result_assigned_in_the_body_is_reported w self s (v : PyVal) :
  wf_heap (heap w) → heap w !! self = Some s →
  _nameset.contains status v = true →
  ¬ records FAIL (Stack.children s) → ¬ records WARN (Stack.children s) →
  all_quiet (registered_items w) →
  let items := registered_items w in
  let flag := Stack.reporting_enabled s in
  let inside := (set_result self v ;; __exit__ self None) w in
  let before := (set_result self v ;; __enter__ self ;; __exit__ self None) w in
  inside.1 = Ret VNone ∧
  published inside.2
  = (published w ++ calls_if flag (finish_event_of s (v, message s) w) items)%list ∧
  before.1 = Ret VNone ∧
  published before.2
  = (published w ++ calls_if flag (start_event_of s w) items
     ++ calls_if flag (finish_event_of s (SUCCESS, message s) w) items)%list.
Proof.
  intros Hwf Hs Hv HnF HnW Hq. cbn zeta.
  set (sv := Stack.set__result v s).
  set (w1 := set_heap (<[self := sv]> (heap w)) w).
  assert (Hset : set_result self v w = (Ret tt, w1)) by (by apply set_result_run).
  assert (Hsv : heap w1 !! self = Some sv) by (by apply lookup_updated with (s := s)).
  assert (Hwf1 : wf_heap (heap w1)) by (by apply (wf_insert w self s sv)).
  assert (Hq1 : ∀ ev, quiet ev (registered_items w1)) by exact Hq.
  rewrite !(bind_ret_run _ _ _ _ _ Hset).
  split; [|split; [|split]].
  - assert (Hfi : _finish_info sv None = (v, message s)) by (by apply (rollup_own sv)).
    assert (Hvv : _nameset.contains status (_finish_info sv None).1 = true)
      by (by rewrite Hfi).
    destruct (exit_summary w1 self sv None Hwf1 Hsv Hvv (Hq1 _)) as (-> & _).
    reflexivity.
  - assert (Hfi : _finish_info sv None = (v, message s)) by (by apply (rollup_own sv)).
    assert (Hvv : _nameset.contains status (_finish_info sv None).1 = true)
      by (by rewrite Hfi).
    destruct (exit_summary w1 self sv None Hwf1 Hsv Hvv (Hq1 _))
      as (_ & _ & _ & _ & _ & Hpub & _).
    rewrite Hpub, Hfi. reflexivity.
  - destruct (enter_summary w1 self sv Hwf1 Hsv (Hq1 _))
      as (Henter & Hwf2 & Hs2 & _ & _ & _ & Hreg2 & _).
    rewrite (bind_ret_run _ _ _ _ _ Henter).
    set (w2 := (__enter__ self w1).2) in *.
    set (s2 := Stack.set__result SUCCESS sv) in *.
    assert (Hfi : _finish_info s2 None = (SUCCESS, message s))
      by (by apply (rollup_own s2)).
    assert (Hvv : _nameset.contains status (_finish_info s2 None).1 = true).
    { rewrite Hfi. apply status_contains. auto. }
    assert (Hq2 : ∀ ev, quiet ev (registered_items w2))
      by (intros ev; rewrite Hreg2; apply Hq1).
    destruct (exit_summary w2 self s2 None Hwf2 Hs2 Hvv (Hq2 _)) as (-> & _).
    reflexivity.
  - destruct (enter_summary w1 self sv Hwf1 Hsv (Hq1 _))
      as (Henter & Hwf2 & Hs2 & _ & _ & Hpub2 & Hreg2 & Hts2).
    rewrite (bind_ret_run _ _ _ _ _ Henter).
    set (w2 := (__enter__ self w1).2) in *.
    set (s2 := Stack.set__result SUCCESS sv) in *.
    assert (Hfi : _finish_info s2 None = (SUCCESS, message s))
      by (by apply (rollup_own s2)).
    assert (Hvv : _nameset.contains status (_finish_info s2 None).1 = true).
    { rewrite Hfi. apply status_contains. auto. }
    assert (Hq2 : ∀ ev, quiet ev (registered_items w2))
      by (intros ev; rewrite Hreg2; apply Hq1).
    destruct (exit_summary w2 self s2 None Hwf2 Hs2 Hvv (Hq2 _))
      as (_ & _ & _ & _ & _ & Hpub & _).
    rewrite Hpub, Hfi, Hpub2, Hreg2, <- app_assoc.
    unfold finish_event_of. rewrite Hts2. reflexivity.
Qed.

End OwnResult.

(** ** The VM test harness *)

Section Harness.

Import VmTests.

Lemma split_on_nonempty (sep : ascii) (s : string) : split_on sep s ≠ [].
Proof.
  destruct s as [|ch rest]; cbn [split_on]; [discriminate|].
  destruct (Ascii.eqb ch sep); [discriminate|].
  destruct (split_on sep rest); discriminate.
Qed.

Lemma concat_split_on (sep : ascii) (s : string) :
  String.concat (String sep "") (split_on sep s) = s.
Proof.
  induction s as [|ch rest IH]; [reflexivity|].
  cbn [split_on]. destruct (Ascii.eqb ch sep) eqn:E.
  - apply Ascii.eqb_eq in E as ->.
    pose proof (split_on_nonempty sep rest) as Hne.
    destruct (split_on sep rest) as [|tok toks]; [contradiction|].
    change (String.concat (String sep "") ("" :: tok :: toks))
      with (String sep (String.concat (String sep "") (tok :: toks))).
    by rewrite IH.
  - pose proof (split_on_nonempty sep rest) as Hne.
    destruct (split_on sep rest) as [|tok toks]; [contradiction|].
    destruct toks as [|tok' toks'].
    + cbn [String.concat] in *. by rewrite IH.
    + change (String.concat (String sep "") (String ch tok :: tok' :: toks'))
        with (String ch (String.concat (String sep "") (tok :: tok' :: toks'))).
      by rewrite IH.
Qed.

Lemma check_tokens_ok (ename : string) (toks : list string) :
  check_tokens ename toks = None ↔ Forall (fun t => t ∈ allowed) toks.
Proof.
  induction toks as [|t toks IH]; cbn [check_tokens].
  - split; [constructor | reflexivity].
  - rewrite Forall_cons. destruct (bool_decide (t ∈ allowed)) eqn:E; cbn [negb].
    + apply bool_decide_eq_true in E. rewrite IH. tauto.
    + apply bool_decide_eq_false in E. split; [discriminate | tauto].
Qed.

Lemma check_tokens_error (ename : string) (toks : list string) (err : Error) :
  check_tokens ename toks = Some err →
  ∃ name pre post,
    err = InvalidToken ename name ∧ toks = (pre ++ name :: post)%list ∧
    Forall (fun t => t ∈ allowed) pre ∧ name ∉ allowed.
Proof.
  induction toks as [|t toks IH]; cbn [check_tokens]; [discriminate|].
  destruct (bool_decide (t ∈ allowed)) eqn:E; cbn [negb].
  - intros H. destruct (IH H) as (name & pre & post & -> & -> & Hpre & Hbad).
    apply bool_decide_eq_true in E.
    exists name, (t :: pre), post. split; [reflexivity|]. split; [reflexivity|].
    split; [by apply Forall_cons | exact Hbad].
  - intros [= <-]. apply bool_decide_eq_false in E.
    exists t, [], toks. split; [reflexivity|]. split; [reflexivity|].
    split; [apply Forall_nil_2 | exact E].
Qed.

(** X19.  [apply_keep_settings] takes each setting from the argument,
    else from the environment, else from the default.  When every
    comma-separated token of both is allowed it stores the two token
    lists under [pass] and [fail], from which joining with commas gives
    the settings back, and leaves the other keys alone.  Otherwise it
    raises for the first bad token, looking at the pass setting first,
    and [KEEP_DATA] is not changed at all. *)
Theorem apply_keep_settings_validates_then_stores (environ : Environ)
    (success fail : option string) (KEEP_DATA : list (string * list string)) :
  let pval := effective environ success "CURTIN_VMTEST_KEEP_DATA_PASS" "none" in
  let fval := effective environ fail "CURTIN_VMTEST_KEEP_DATA_FAIL" "all" in
  let ptoks := split_on "," pval in
  let ftoks := split_on "," fval in
  let result := apply_keep_settings environ success fail KEEP_DATA in
  (Forall (fun t => t ∈ allowed) ptoks → Forall (fun t => t ∈ allowed) ftoks →
     result.1 = None ∧
     dict_get "pass" result.2 = Some ptoks ∧
     dict_get "fail" result.2 = Some ftoks ∧
     (∀ k, k ≠ "pass" → k ≠ "fail" → dict_get k result.2 = dict_get k KEEP_DATA) ∧
     String.concat "," ptoks = pval ∧ String.concat "," ftoks = fval) ∧
  (¬ Forall (fun t => t ∈ allowed) ptoks →
     ∃ name pre post,
       result = (Some (InvalidToken "CURTIN_VMTEST_KEEP_DATA_PASS" name),
                 KEEP_DATA) ∧
       ptoks = (pre ++ name :: post)%list ∧
       Forall (fun t => t ∈ allowed) pre ∧ name ∉ allowed) ∧
  (Forall (fun t => t ∈ allowed) ptoks → ¬ Forall (fun t => t ∈ allowed) ftoks →
     ∃ name pre post,
       result = (Some (InvalidToken "CURTIN_VMTEST_KEEP_DATA_FAIL" name),
                 KEEP_DATA) ∧
       ftoks = (pre ++ name :: post)%list ∧
       Forall (fun t => t ∈ allowed) pre ∧ name ∉ allowed).
Proof.
  cbn zeta. unfold apply_keep_settings. cbn [settings_loop].
  fold (effective environ success "CURTIN_VMTEST_KEEP_DATA_PASS" "none").
  fold (effective environ fail "CURTIN_VMTEST_KEEP_DATA_FAIL" "all").
  set (pval := effective environ success "CURTIN_VMTEST_KEEP_DATA_PASS" "none").
  set (fval := effective environ fail "CURTIN_VMTEST_KEEP_DATA_FAIL" "all").
  split; [|split].
  - intros Hp Hf.
    rewrite (proj2 (check_tokens_ok _ _) Hp), (proj2 (check_tokens_ok _ _) Hf).
    cbn [fst snd dict_set dict_update fold_left].
    destruct (decide ("pass" = "fail")) as [Hpf|_]; [discriminate Hpf|].
    cbn [fold_left fst snd].
    split; [reflexivity|]. split; [|split; [|split; [|split]]].
    + rewrite dict_get_set_ne by discriminate. apply dict_get_set.
    + apply dict_get_set.
    + intros k Hk1 Hk2. rewrite !dict_get_set_ne by congruence. reflexivity.
    + apply (concat_split_on "," pval).
    + apply (concat_split_on "," fval).
  - intros Hp.
    destruct (check_tokens "CURTIN_VMTEST_KEEP_DATA_PASS" (split_on "," pval))
      as [err|] eqn:E.
    + destruct (check_tokens_error _ _ _ E) as (name & pre & post & -> & Hin & Hpre & Hbad).
      exists name, pre, post. by repeat split.
    + apply check_tokens_ok in E. contradiction.
  - intros Hp Hf. rewrite (proj2 (check_tokens_ok _ _) Hp).
    destruct (check_tokens "CURTIN_VMTEST_KEEP_DATA_FAIL" (split_on "," fval))
      as [err|] eqn:E.
    + destruct (check_tokens_error _ _ _ E) as (name & pre & post & -> & Hin & Hpre & Hbad).
      exists name, pre, post. by repeat split.
    + apply check_tokens_ok in E. contradiction.
Qed.











Lemma record_result_clean (st : Status) :
  recorded_errors (record_result 0 0 st) = recorded_errors st ∧
  recorded_failures (record_result 0 0 st) = recorded_failures st ∧
  success_file (record_result 0 0 st) = true ∧
  errors_file (record_result 0 0 st) = errors_file st.
Proof.
  unfold record_result. cbn [Nat.eqb andb].
  destruct (success_file st) eqn:E; cbn [negb]; by repeat split.
Qed.

Lemma record_result_dirty (errors failures : nat) (st : Status) :
  recorded_errors st = 0%nat → recorded_failures st = 0%nat →
  (errors, failures) ≠ (0%nat, 0%nat) →
  record_result errors failures st
  = mkStatus false (Some (errors, failures)) 0 0.
Proof.
  intros He Hf Hne. unfold record_result. rewrite He, Hf.
  destruct errors as [|e], failures as [|f]; try reflexivity.
  by destruct Hne.
Qed.

Lemma record_results_state (results : list (nat * nat)) :
  let st := record_results results fresh_status in
  recorded_errors st = 0%nat ∧ recorded_failures st = 0%nat ∧
  (is_Some (errors_file st) ↔ Exists (fun r => r ≠ (0%nat, 0%nat)) results) ∧
  (success_file st = true ↔
     ∃ earlier, results = (earlier ++ [(0%nat, 0%nat)])%list).
Proof.
  induction results as [|r results IH] using rev_ind; cbn zeta.
  - split; [reflexivity|]. split; [reflexivity|]. split.
    + rewrite Exists_nil. split; [intros [x Hx]; discriminate Hx | tauto].
    + split; [discriminate|]. intros [earlier H]. by destruct earlier.
  - cbn zeta in IH. destruct IH as (He & Hf & Herr & Hsucc).
    unfold record_results in *. rewrite fold_left_app. cbn [fold_left].
    set (st := fold_left (fun st r => record_result r.1 r.2 st) results fresh_status) in *.
    rewrite Exists_app, Exists_cons, Exists_nil.
    destruct (decide (r = (0%nat, 0%nat))) as [->|Hr].
    + cbn [fst snd]. destruct (record_result_clean st) as (R1 & R2 & R3 & R4).
      rewrite R1, R2, R3, R4. split; [exact He|]. split; [exact Hf|]. split.
      * rewrite Herr. tauto.
      * split; [intros _; by exists results | reflexivity].
    + destruct r as [e f]. cbn [fst snd].
      rewrite (record_result_dirty e f st He Hf Hr). cbn.
      split; [reflexivity|]. split; [reflexivity|]. split.
      * split; [intros _; right; by left | intros _; by eexists].
      * split; [discriminate|]. intros [earlier H].
        apply app_inj_tail in H as [_ H]. contradiction.
Qed.

(** X21.  The status files that [record_result] writes and
    [tearDownClass] reads: starting without files and with the counters
    the class defines, a class counts as passed exactly when at least
    one result was recorded and every recorded result had no errors
    and no failures; a single result with an error or a failure makes
    it fail for good. *)
Theorem class_passes_iff_every_result_is_clean (results : list (nat * nat)) :
  teardown_success (record_results results fresh_status) = true
  ↔ results ≠ [] ∧ Forall (fun r => r = (0%nat, 0%nat)) results.
Proof.
  destruct (record_results_state results) as (_ & _ & Herr & Hsucc).
  cbn zeta in Herr, Hsucc. unfold teardown_success.
  set (st := record_results results fresh_status) in *.
  assert (Hall : Forall (fun r => r = (0%nat, 0%nat)) results
                 ↔ ¬ Exists (fun r => r ≠ (0%nat, 0%nat)) results).
  { rewrite <- Forall_Exists_neg. apply Forall_iff. intros r.
    destruct (decide (r = (0%nat, 0%nat))); tauto. }
  rewrite Hall, <- Herr.
  destruct (success_file st) eqn:Es.
  - destruct (proj1 Hsucc eq_refl) as [earlier Hres].
    assert (Hne : results ≠ []) by (rewrite Hres; by destruct earlier).
    destruct (errors_file st) as [c|] eqn:Ee.
    + rewrite bool_decide_eq_true_2 by (by eexists). cbn.
      split; [discriminate|]. intros [_ H]. destruct H. by eexists.
    + rewrite bool_decide_eq_false_2 by (intros [x Hx]; discriminate Hx). cbn.
      split; [|reflexivity]. intros _. split; [exact Hne|].
      intros [x Hx]. discriminate Hx.
  - cbn [orb andb negb].
    assert (Hno : ¬ (results ≠ [] ∧ ¬ is_Some (errors_file st))).
    { intros [Hne Hnoerr].
      destruct (exists_last Hne) as (earlier & r & Hres).
      destruct (decide (r = (0%nat, 0%nat))) as [->|Hr].
      - assert (false = true) by (apply Hsucc; by exists earlier).
        discriminate.
      - apply Hnoerr, Herr. rewrite Hres, Exists_app, Exists_cons. auto. }
    destruct (bool_decide (is_Some (errors_file st))); cbn;
      (split; [discriminate | intros H; by destruct (Hno H)]).
Qed.

(** X22.  With no setting in the environment and no argument,
    [apply_keep_settings] installs the defaults, and [tearDownClass]
    then removes the directory of a class that passed and keeps the
    directory of any other class untouched. *)
Theorem default_policy_keeps_failures_only (results : list (nat * nat))
    (tmpdir : Dir) (KEEP_DATA : list (string * list string)) :
  let keep := (apply_keep_settings no_environ None None KEEP_DATA).2 in
  let st := record_results results fresh_status in
  (apply_keep_settings no_environ None None KEEP_DATA).1 = None ∧
  tearDownClass st tmpdir keep
  = (None, if teardown_success st then None else Some tmpdir).
Proof.
  cbn zeta. unfold apply_keep_settings.
  replace (settings_loop no_environ
             [(None, "CURTIN_VMTEST_KEEP_DATA_PASS", "pass", "none");
              (None, "CURTIN_VMTEST_KEEP_DATA_FAIL", "fail", "all")] [])
    with (@inr Error _ [("pass", ["none"]); ("fail", ["all"])])
    by (vm_compute; reflexivity).
  cbn [fst snd dict_update fold_left]. split; [reflexivity|].
  unfold tearDownClass.
  rewrite dict_get_set_ne by discriminate.
  rewrite !dict_get_set.
  unfold clean_test_dir.
  destruct (teardown_success (record_results results fresh_status)); reflexivity.
Qed.

End Harness.

(** ** The further properties on the sample worlds *)

Section MoreInstances.

Import ReportEventStack.

Lemma wf_three (s0 s1 s2 : Stack.t) :
  Stack.parent s0 = None → Stack.parent s1 = Some 0%nat →
  Stack.parent s2 = Some 1%nat → wf_heap [s0; s1; s2].
Proof.
  intros H0 H1 H2 l s p Hl Hp. destruct l as [|[|[|l]]]; simpl in Hl.
  - injection Hl as <-. congruence.
  - injection Hl as <-. rewrite H1 in Hp. injection Hp as <-. lia.
  - injection Hl as <-. rewrite H2 in Hp. injection Hp as <-. lia.
  - discriminate Hl.
Qed.

Lemma nested_wf : wf_heap (heap nested_world).
Proof. apply wf_three; reflexivity. Qed.

Lemma wf_empty : wf_heap [].
Proof. intros l s p H. discriminate H. Qed.

Lemma sample_results_valid : results_valid (heap sample_world).
Proof.
  intros l s Hl. destruct l as [|[|l]]; simpl in Hl;
    [injection Hl as <- | injection Hl as <- | discriminate Hl];
    apply status_contains; auto.
Qed.

Lemma sample_keys_distinct : children_keys_distinct (heap sample_world).
Proof.
  intros l s Hl. destruct l as [|[|l]]; simpl in Hl;
    [injection Hl as <- | injection Hl as <- | discriminate Hl];
    apply NoDup_nil_2.
Qed.

Lemma all_quiet_console : all_quiet [("console", console)].
Proof. intros ev. repeat constructor. Qed.

Lemma all_quiet_sample : all_quiet (registered_items sample_world).
Proof. intros ev. repeat constructor. Qed.


Lemma result_setter_stores_or_rejects_witness :
  heap (set_result 0%nat WARN sample_world).2 !! 0%nat
  = Some (Stack.set__result WARN sample_root) ∧
  set_result 0%nat (VStr "BOGUS") sample_world
  = (Raise (ValueError "'%s' not a valid result" (VStr "BOGUS")), sample_world).
Proof.
  destruct (result_setter_stores_or_rejects sample_world 0%nat sample_root WARN
              eq_refl) as [Hok _].
  destruct (result_setter_stores_or_rejects sample_world 0%nat sample_root
              (VStr "BOGUS") eq_refl) as [_ Hbad].
  split; [apply (Hok eq_refl) | apply (Hbad eq_refl)].
Defined.

Lemma exit_never_fails_validation_witness :
  (__exit__ 0%nat (Some disk_full) used_world).1 = Ret VNone ∧
  published (__exit__ 0%nat (Some disk_full) used_world).2
  = calls (finish_event_of sample_used_root (FAIL, VStr "installing") used_world)
      (registered_items used_world).
Proof.
  assert (Hwf : wf_heap (heap used_world)) by (apply wf_two; reflexivity).
  destruct (exit_never_fails_validation used_world 0%nat sample_used_root
              (Some disk_full) Hwf eq_refl eq_refl eq_refl) as (_ & _ & _ & H).
  apply H. repeat constructor.
Defined.

Lemma enter_exit_frame_witness :
  scope_frame 1%nat sample_child sample_world (__enter__ 1%nat sample_world).2 ∧
  scope_frame 1%nat sample_child sample_world
    (__exit__ 1%nat (Some disk_full) sample_world).2.
Proof.
  exact (enter_exit_frame sample_world 1%nat sample_child (Some disk_full)
           sample_wf eq_refl).
Defined.

Lemma start_fault_skips_the_scope_witness :
  (with_ 0%nat (raise disk_full) faulty_world).1
  = Raise (Exception "connection refused") ∧
  published (with_ 0%nat (raise disk_full) faulty_world).2
  = [("console", start_event_of sample_root faulty_world);
     ("webhook", start_event_of sample_root faulty_world)].
Proof.
  assert (Hwf : wf_heap (heap faulty_world)) by (apply wf_two; reflexivity).
  destruct (start_fault_skips_the_scope faulty_world 0%nat sample_root
              [("console", console)] "webhook" webhook_down [("journal", console)]
              (Exception "connection refused") (raise disk_full) (ret tt)
              Hwf eq_refl eq_refl eq_refl ltac:(repeat constructor) eq_refl)
    as (H1 & _ & H3 & _).
  split; [exact H1 | exact H3].
Defined.

Lemma finish_fault_replaces_the_exception_witness :
  (__exit__ 1%nat (Some disk_full)
     (set_heap [sample_root; sample_mid] faulty_world)).1
  = Raise (Exception "connection refused") ∧
  heap (__exit__ 1%nat (Some disk_full)
          (set_heap [sample_root; sample_mid] faulty_world)).2 !! 0%nat
  = Some (with_entry sample_mid (FAIL, VStr "partitioning disks") sample_root).
Proof.
  set (w := set_heap [sample_root; sample_mid] faulty_world).
  assert (Hwf : wf_heap (heap w)) by (apply wf_two; reflexivity).
  destruct (finish_fault_replaces_the_exception w 1%nat sample_mid
              (Some disk_full) [("console", console)] "webhook" webhook_down
              [("journal", console)] (Exception "connection refused")
              Hwf eq_refl eq_refl eq_refl eq_refl ltac:(repeat constructor)
              eq_refl) as (H1 & H2 & _).
  split; [by rewrite H1 | apply (H2 0%nat sample_root eq_refl eq_refl)].
Defined.

Lemma with_brackets_the_body_witness :
  let body := set_result 0%nat WARN in
  (with_ 0%nat body sample_world).1 = Ret tt ∧
  published (with_ 0%nat body sample_world).2
  = (calls (start_event_of sample_root sample_world)
       (registered_items sample_world)
     ++ calls (finish_event_of sample_root (WARN, VStr "installing") sample_world)
          (registered_items sample_world))%list.
Proof.
  cbn zeta. set (body := set_result 0%nat WARN).
  set (w2 := (body (__enter__ 0%nat sample_world).2).2).
  assert (Hwf2 : wf_heap (heap w2)) by (apply wf_two; reflexivity).
  destruct (with_brackets_the_body sample_world 0%nat sample_root body w2
              (Stack.set__result WARN sample_root) sample_wf eq_refl
              (quiet_sample _) eq_refl Hwf2 eq_refl eq_refl (quiet_sample _))
    as (H1 & _ & H3).
  split; [exact H1 | exact H3].
Defined.

Lemma parent_keeps_latest_outcome_per_name_witness :
  ∃ ps', heap (__exit__ 1%nat (Some disk_full) sample_world).2 !! 0%nat = Some ps' ∧
         dict_get "partitioning" (Stack.children ps')
         = Some (FAIL, VStr "partitioning disks") ∧
         dict_get "grub" (Stack.children ps') = None.
Proof.
  destruct (parent_keeps_latest_outcome_per_name sample_world 1%nat sample_child
              0%nat sample_root (Some disk_full) sample_wf eq_refl eq_refl eq_refl
              ltac:(apply NoDup_nil_2)) as (ps' & H1 & H2 & H3 & _).
  exists ps'. split; [exact H1|]. split; [exact H2|].
  rewrite (H3 "grub") by discriminate. reflexivity.
Defined.

Lemma result_is_always_a_status_witness :
  results_valid (heap (run_calls sample_calls sample_world)).
Proof.
  apply (result_is_always_a_status sample_calls sample_world sample_wf
           sample_results_valid sample_keys_distinct).
Defined.

Lemma constructor_attributes_are_fixed_witness :
  ∃ s', heap (run_calls sample_calls sample_world) !! 0%nat = Some s' ∧
        Stack.fullname s' = "install".
Proof.
  destruct (constructor_attributes_are_fixed sample_calls sample_world 0%nat
              sample_root sample_wf eq_refl) as (s' & Hl & _ & _ & Hf & _).
  exists s'. split; [exact Hl | exact Hf].
Defined.

Lemma fullname_is_the_path_from_the_root_witness :
  ∃ s, heap (build_chain None None ["install"; "partition"; "format"]
               (world_at 100)).2 !! 2%nat = Some s ∧
       Stack.fullname s = "install/partition/format" ∧
       Stack.reporting_enabled s = true.
Proof.
  destruct (fullname_is_the_path_from_the_root ["install"; "partition"; "format"]
              None (world_at 100) wf_empty) as (_ & _ & H & _).
  destruct (H 2%nat "format" eq_refl) as (s & Hl & _ & Hf & He & _).
  exists s. split; [exact Hl|]. split; [exact Hf | exact He].
Defined.

Lemma disabled_root_silences_its_subtree_witness :
  let w2 := run_calls [CallSetMessage 1%nat (VStr "done")]
              (build_chain None (Some false) ["install"; "partition"]
                 (set_registered_items [("console", console)] (world_at 100))).2 in
  (__enter__ 1%nat w2).1 = Ret 1%nat ∧
  published (__enter__ 1%nat w2).2 = [] ∧
  published (__exit__ 1%nat (Some disk_full) w2).2 = [].
Proof.
  destruct (disabled_root_silences_its_subtree ["install"; "partition"]
              [CallSetMessage 1%nat (VStr "done")]
              (set_registered_items [("console", console)] (world_at 100))
              1%nat "partition" (Some disk_full) wf_empty eq_refl)
    as (H1 & H2 & _ & H4).
  cbn zeta. split; [exact H1|]. split; [exact H2 | exact H4].
Defined.

Lemma exception_unwinds_nested_scopes_witness :
  (with_ 0%nat (with_ 1%nat (raise disk_full)) nested_world).1 = Raise disk_full ∧
  published (with_ 0%nat (with_ 1%nat (raise disk_full)) nested_world).2
  = [("console", start_event_of sample_root nested_world);
     ("console", start_event_of sample_mid nested_world);
     ("console",
      finish_event_of sample_mid (FAIL, VStr "partitioning disks") nested_world);
     ("console", finish_event_of sample_root (FAIL, VStr "installing") nested_world)].
Proof.
  destruct (exception_unwinds_nested_scopes nested_world 0%nat 1%nat sample_root
              sample_mid disk_full nested_wf eq_refl eq_refl eq_refl
              all_quiet_console eq_refl eq_refl ltac:(discriminate))
    as (H1 & H2 & _).
  split; [exact H1 | exact H2].
Defined.

Lemma finish_as_dict_extends_the_base_witness :
  map fst (FinishReportingEvent.as_dict sample_fs sample_finish)
  = ["name"; "description"; "event_type"; "origin"; "timestamp"; "result"; "files"] ∧
  dict_get "origin" (FinishReportingEvent.as_dict sample_fs sample_finish)
  = Some (JStr "curtin").
Proof.
  destruct (finish_as_dict_extends_the_base sample_fs sample_finish)
    as (H1 & _ & _ & H4 & _).
  split; [exact H1|]. rewrite H4; [reflexivity|]. repeat constructor.
Defined.

Lemma as_dict_depends_on_the_posted_files_witness :
  FinishReportingEvent.as_dict sample_fs sample_finish
  = FinishReportingEvent.as_dict
      (fun path => if String.eqb path "/etc/fstab" then Some [x68] else sample_fs path)
      sample_finish.
Proof.
  apply as_dict_depends_on_the_posted_files. intros path Hp.
  apply elem_of_cons in Hp as [-> | Hp]; [reflexivity|].
  apply elem_of_cons in Hp as [-> | Hp]; [reflexivity | inversion Hp].
Defined.

Lemma finish_event_renders_its_status_witness :
  ∃ event,
    FinishReportingEvent.__init__ "install" (VStr "installing") WARN None
      sample_world = (Ret event, sample_world) ∧
    FinishReportingEvent.as_string event = "finish: install: WARN: installing".
Proof.
  eexists. split; [reflexivity|].
  destruct (finish_event_renders_its_status "install" (VStr "installing") WARN
              None sample_world sample_world _ eq_refl) as (R & HR & _ & Hs & _).
  injection HR as <-. exact Hs.
Defined.

Lemma failure_reaches_the_root_witness :
  (exit_all [2%nat; 1%nat; 0%nat] nested_world).1 = Ret tt ∧
  published (exit_all [2%nat; 1%nat; 0%nat] nested_world).2
  = [("console", finish_event_of sample_leaf (FAIL, VStr "formatting") nested_world);
     ("console",
      finish_event_of sample_mid (FAIL, VStr "partitioning disks") nested_world);
     ("console", finish_event_of sample_root (FAIL, VStr "installing") nested_world)].
Proof.
  assert (Hlinked : linked (heap nested_world) [2%nat; 1%nat; 0%nat]).
  { cbn [linked]. split; [by eexists|]. split; [by eexists | by eexists]. }
  assert (Hrec : records FAIL (Stack.children sample_leaf)).
  { exists "mkfs", (VStr "mkfs failed"). repeat constructor. }
  destruct (failure_reaches_the_root [2%nat; 1%nat; 0%nat] nested_world 2%nat
              sample_leaf nested_wf Hlinked eq_refl eq_refl Hrec all_quiet_console)
    as (H1 & H2).
  split; [exact H1 | exact H2].
Defined.

Lemma result_assigned_in_the_body_is_reported_witness :
  published ((set_result 0%nat WARN ;; __exit__ 0%nat None) sample_world).2
  = calls (finish_event_of sample_root (WARN, VStr "installing") sample_world)
      (registered_items sample_world) ∧
  published ((set_result 0%nat WARN ;; __enter__ 0%nat ;; __exit__ 0%nat None)
               sample_world).2
  = (calls (start_event_of sample_root sample_world) (registered_items sample_world)
     ++ calls (finish_event_of sample_root (SUCCESS, VStr "installing") sample_world)
          (registered_items sample_world))%list.
Proof.
  destruct (result_assigned_in_the_body_is_reported sample_world 0%nat sample_root
              WARN sample_wf eq_refl eq_refl (records_nil _) (records_nil _)
              all_quiet_sample) as (_ & H2 & _ & H4).
  split; [exact H2 | exact H4].
Defined.

Lemma apply_keep_settings_validates_then_stores_witness :
  dict_get "pass"
    (VmTests.apply_keep_settings VmTests.sample_environ None None
       [("pass", ["none"]); ("fail", ["all"])]).2
  = Some ["logs"; "collect"] ∧
  ∃ name,
    VmTests.apply_keep_settings VmTests.sample_environ None (Some "all,bogus")
      [("pass", ["none"]); ("fail", ["all"])]
    = (Some (VmTests.InvalidToken "CURTIN_VMTEST_KEEP_DATA_FAIL" name),
       [("pass", ["none"]); ("fail", ["all"])]) ∧
    name ∉ VmTests.allowed.
Proof.
  destruct (apply_keep_settings_validates_then_stores VmTests.sample_environ None
              None [("pass", ["none"]); ("fail", ["all"])]) as (Hok & _ & _).
  destruct (apply_keep_settings_validates_then_stores VmTests.sample_environ None
              (Some "all,bogus") [("pass", ["none"]); ("fail", ["all"])])
    as (_ & _ & Hbad).
  split.
  - apply Hok; apply (bool_decide_unpack _); vm_compute; exact I.
  - destruct Hbad as (name & pre & post & Hres & _ & _ & Hnot).
    + apply (bool_decide_unpack _). vm_compute. exact I.
    + intros H. apply Forall_cons in H as [_ H]. apply Forall_cons in H as [H _].
      revert H. apply (bool_decide_unpack _). vm_compute. exact I.
    + exists name. split; [exact Hres | exact Hnot].
Defined.


Lemma class_passes_iff_every_result_is_clean_witness :
  VmTests.teardown_success
    (VmTests.record_results [(0, 0); (0, 0)]%nat VmTests.fresh_status) = true ∧
  VmTests.teardown_success
    (VmTests.record_results [(0, 0); (1, 0); (0, 0)]%nat VmTests.fresh_status)
  ≠ true.
Proof.
  split.
  - apply class_passes_iff_every_result_is_clean. split; [discriminate|].
    repeat constructor.
  - intros H. apply class_passes_iff_every_result_is_clean in H as [_ H].
    apply Forall_cons in H as [_ H]. apply Forall_cons in H as [H _].
    discriminate H.
Defined.

End MoreInstances.
